(** * Recursive component composition and polygon geometry of [main.py]

    A shallow embedding of the scene generator: the style resolver
    ([random_choice]), the polygon vertex loop with its rounded rotation
    ([_rotate]), the five component variants with their [draw] methods, the
    registry rebuilt by [parse_components], the nested draw of
    [draw_component] and the top-level loop of [main].

    Python floats are kept abstract: every definition of the engine is
    written over a signature [FloatOps] of the arithmetic the source uses
    (true division, multiplication, [math.cos], [math.sin], [round(_, 7)],
    comparison with zero), and the theorems hold for every interpretation
    of that signature, binary64 included.  The instance [RealOps] of exact
    real arithmetic is an idealisation: it runs the sample configurations,
    whose outcome depends on no rounding, and it exhibits the sixteen-gon
    that does not close; no bound is claimed in it.

    The random generator is an arbitrary tape of naturals read at a cursor;
    quantifying over the tape covers every outcome of [random.choice].
    Exceptions are results, and the interpreter's bounded call stack is the
    fuel of [draw_component].

    What is taken from outside the source file: the configuration is the
    parsed YAML tree, the same at every read, with the canvas size already
    split into two integers that fit a float; an entry of [element_defs]
    has its keys [type], [id] and [style], and a style mapping its four
    option keys, with values of the types the source computes with.  The
    drawing library is taken to accept what it is handed: its shape
    factories build the element they are asked for, [rotate] appends a
    rotation to it and [add] appends a child to a group.  The exceptions of
    the model are the four the source's own operations raise; the
    library's validation of attribute values is not part of it. *)

From Stdlib Require Import List String Ascii ZArith Arith Lia Bool.
From Stdlib Require Import Reals Lra Rgeom.
Import ListNotations.

Set Implicit Arguments.
Set Warnings "-register-all".

(** ** The arithmetic signature *)

Class FloatOps (num : Type) : Type := {
  of_int  : Z -> num;            (* an int operand promoted in float arithmetic *)
  half    : num;                 (* the literal 0.5 *)
  fadd    : num -> num -> num;
  fsub    : num -> num -> num;
  fmul    : num -> num -> num;
  fdiv    : num -> num -> num;   (* true division [/] *)
  fneg    : num -> num;
  fcos    : num -> num;          (* math.cos *)
  fsin    : num -> num;          (* math.sin *)
  fpi     : num;                 (* math.pi *)
  round7  : num -> num;          (* round(_, 7) *)
  nonzero : num -> bool          (* [_ != 0] *)
}.

(** ** Exceptions and the state-and-exception monad *)

Inductive Exn : Type :=
| IndexError                      (* random.choice on an empty sequence, list index *)
| KeyError (key : string)         (* missing mapping key *)
| AttributeError                  (* attribute access on None *)
| RecursionError.                 (* call stack exhausted *)

Inductive Res (A : Type) : Type :=
| Ok (a : A)
| Raise (e : Exn).

Arguments Ok {A} a.
Arguments Raise {A} e.

(** A computation reads the cursor of the random tape and returns a result
    with the new cursor.  There is no handler: the source has no [try]. *)
Definition M (A : Type) : Type := nat -> Res A * nat.

Definition ret {A} (a : A) : M A := fun s => (Ok a, s).

Definition raise {A} (e : Exn) : M A := fun s => (Raise e, s).

Definition bind {A B} (m : M A) (f : A -> M B) : M B :=
  fun s => match m s with
           | (Ok a, s') => f a s'
           | (Raise e, s') => (Raise e, s')
           end.

Notation "x <- m ;; k" := (bind m (fun x => k))
  (at level 61, m at next level, right associativity).

(** [for x in xs: acc = body(x, acc)] *)
Fixpoint for_each {A B} (xs : list A) (body : A -> B -> M B) (acc : B) : M B :=
  match xs with
  | [] => ret acc
  | x :: rest => acc' <- body x acc ;; for_each rest body acc'
  end.

(** [l[i]] for a non-negative index *)
Definition getitem {A} (l : list A) (i : nat) : M A :=
  match nth_error l i with
  | Some x => ret x
  | None => raise IndexError
  end.

(** [d[key]] for a key that a variant needs and another may lack *)
Definition getkey {A} (key : string) (field : option A) : M A :=
  match field with
  | Some v => ret v
  | None => raise (KeyError key)
  end.

(** [d[key]] on a mapping kept in insertion order *)
Fixpoint lookup {A} (key : string) (d : list (string * A)) : option A :=
  match d with
  | [] => None
  | (k, v) :: rest => if String.eqb key k then Some v else lookup key rest
  end.

(** A computation that never moves the cursor back. *)
Definition grows {A} (m : M A) : Prop := forall s, s <= snd (m s).

Section Model.

Context {num : Type} {ops : FloatOps num}.

(** The generator: [tape] lists the raw draws, the state is the cursor. *)
Variable tape : nat -> nat.

(** ** Data model *)

Definition Point : Type := (num * num)%type.

Record Style : Type := mkStyle {
  fill_options     : list string;
  opacity_options  : list num;
  size_options     : list num;
  rotation_options : list num
}.

(** One entry of [element_defs].  The keys [type], [id] and [style] are
    read for every variant; the others belong to one variant each. *)
Record Params : Type := mkParams {
  p_type                 : string;
  p_id                   : string;
  p_style                : Style;
  p_vertex_count         : option (list Z);
  p_vertex_count_options : option (list Z);
  p_vertex_elements      : option (list (option string));
  p_center_elements      : option (list (option string))
}.

Record Config : Type := mkConfig {
  canvas_size       : Z * Z;
  component_to_draw : list string;
  element_defs      : list (string * Params)
}.

Inductive Component : Type :=
| Circle (id : string) (style : Style)
| Rect (id : string) (style : Style)
| Ellipse (id : string) (style : Style)
| Polygon (id : string) (style : Style)
          (vertex_count : Z) (center_element : option string)
| PolygonGroup (id : string) (style : Style)
               (vertex_count : Z) (vertex_elements : option string)
               (center_element : option string).

Definition style (c : Component) : Style :=
  match c with
  | Circle _ st | Rect _ st | Ellipse _ st
  | Polygon _ st _ _ | PolygonGroup _ st _ _ _ => st
  end.

(** What the drawing library hands back: a shape with its presentation
    attributes and the rotations attached so far, or a group. *)
Inductive Geometry : Type :=
| GCircle (center : Point) (r : num)
| GRect (insert : Point) (size : Point)
| GEllipse (center : Point) (r : Point)
| GPolygon (points : list Point).

Inductive Node : Type :=
| Shape (g : Geometry) (fill : string) (opacity : num)
        (transform : list (num * Point))
| Group (elements : list Node).

Definition dwg_circle (center : Point) (r : num) (fill : string) (opacity : num) : Node :=
  Shape (GCircle center r) fill opacity [].

Definition dwg_rect (insert size : Point) (fill : string) (opacity : num) : Node :=
  Shape (GRect insert size) fill opacity [].

Definition dwg_ellipse (center r : Point) (fill : string) (opacity : num) : Node :=
  Shape (GEllipse center r) fill opacity [].

Definition dwg_polygon (points : list Point) (fill : string) (opacity : num) : Node :=
  Shape (GPolygon points) fill opacity [].

(** [element.rotate(angle, center)] appends one rotation to the element. *)
Definition rotate (n : Node) (angle : num) (center : Point) : Node :=
  match n with
  | Shape g f o t => Shape g f o (t ++ [(angle, center)])
  | Group es => Group es
  end.

(** [group.add(element)] *)
Definition add (g : Node) (element : Node) : Node :=
  match g with
  | Group es => Group (es ++ [element])
  | Shape _ _ _ _ => g
  end.

Definition transform (n : Node) : list (num * Point) :=
  match n with
  | Shape _ _ _ t => t
  | Group _ => []
  end.

(** ** Style resolver *)

Definition random_choice {A} (options : list A) : M A :=
  fun s => match options with
           | [] => (Raise IndexError, s)
           | x :: _ => (Ok (nth (tape s mod List.length options) options x), S s)
           end.

(** ** Geometry kernel *)

Definition _rotate (p : Point) (angle : num) : Point :=
  (round7 (fsub (fmul (fst p) (fcos (fneg angle))) (fmul (snd p) (fsin (fneg angle)))),
   round7 (fadd (fmul (fst p) (fsin (fneg angle))) (fmul (snd p) (fcos (fneg angle))))).

(** [(360 / vertex_count) * (math.pi / 180)] *)
Definition step_angle (vertex_count : Z) : num :=
  fmul (fdiv (of_int 360) (of_int vertex_count)) (fdiv fpi (of_int 180)).

(** The body of the vertex loop: rotate [p], append it. *)
Definition rotate_append (angle : num) (st : Point * list Point) : Point * list Point :=
  let p := _rotate (fst st) angle in (p, snd st ++ [p]).

(** [for i in range(vertex_count)] over the pair ([p], [points_list]);
    [range] of a non-positive count is empty. *)
Fixpoint rotate_loop (k : nat) (angle : num) (st : Point * list Point)
  : Point * list Point :=
  match k with
  | O => st
  | S k' => rotate_loop k' angle (rotate_append angle st)
  end.

Definition local_points (vertex_count : Z) (size : num) : list Point :=
  let p := (of_int 0, fmul size half) in
  snd (rotate_loop (Z.to_nat vertex_count) (step_angle vertex_count) (p, [p])).

Definition translate (center : Point) (i : Point) : Point :=
  (fadd (fst i) (fst center), fadd (snd i) (snd center)).

(** The vertex computation that opens [Polygon.draw], [PolygonGroup.draw]
    and [draw_child_polygon] (the same seven lines in each). *)
Definition polygon_points (vertex_count : Z) (center : Point) (size : num)
  : list Point :=
  map (translate center) (local_points vertex_count size).

(** ** Component model *)

Definition Polygon_init (id : string) (st : Style) (vertex_count : list Z)
    (center_elements : list (option string)) : M Component :=
  vc <- random_choice vertex_count ;;
  ce <- random_choice center_elements ;;
  ret (Polygon id st vc ce).

Definition PolygonGroup_init (id : string) (st : Style) (vertex_count : list Z)
    (vertex_elements center_elements : list (option string)) : M Component :=
  vc <- random_choice vertex_count ;;
  ve <- random_choice vertex_elements ;;
  ce <- random_choice center_elements ;;
  ret (PolygonGroup id st vc ve ce).

(** An unknown [type] falls through every branch: the result is [None]. *)
Definition create_component (params : Params) : M (option Component) :=
  let component_type := p_type params in
  let st := p_style params in
  if String.eqb component_type "Circle"%string then ret (Some (Circle (p_id params) st))
  else if String.eqb component_type "Rect"%string then ret (Some (Rect (p_id params) st))
  else if String.eqb component_type "Ellipse"%string then ret (Some (Ellipse (p_id params) st))
  else if String.eqb component_type "Polygon"%string then
    vcs <- getkey "vertex_count"%string (p_vertex_count params) ;;
    ces <- getkey "center_elements"%string (p_center_elements params) ;;
    c <- Polygon_init (p_id params) st vcs ces ;;
    ret (Some c)
  else if String.eqb component_type "PolygonGroup"%string then
    vcs <- getkey "vertex_count_options"%string (p_vertex_count_options params) ;;
    ves <- getkey "vertex_elements"%string (p_vertex_elements params) ;;
    ces <- getkey "center_elements"%string (p_center_elements params) ;;
    c <- PolygonGroup_init (p_id params) st vcs ves ces ;;
    ret (Some c)
  else ret None.

Definition Registry : Type := list (string * option Component).

(** The loop of [parse_components] over [element_defs] in file order. *)
Fixpoint build_components (defs : list (string * Params)) : M Registry :=
  match defs with
  | [] => ret []
  | (key, value) :: rest =>
      c <- create_component value ;;
      cs <- build_components rest ;;
      ret ((key, c) :: cs)
  end.

Definition parse_components (params : Config) : M Registry :=
  build_components (element_defs params).

(** [components[id]], then the attribute access [component.style]. *)
Definition find_component (components : Registry) (id : string) : M Component :=
  match lookup id components with
  | None => raise (KeyError id)
  | Some None => raise AttributeError
  | Some (Some c) => ret c
  end.

(** ** Composition engine: the [draw] methods

    [dc] stands for the call back into [draw_component]. *)

Definition Circle_draw (st : Style) (center : Point) (size rotation : num) : M Node :=
  fill <- random_choice (fill_options st) ;;
  opacity <- random_choice (opacity_options st) ;;
  ret (dwg_circle center (fdiv size (of_int 2)) fill opacity).

Definition Rect_draw (st : Style) (center : Point) (size rotation : num) : M Node :=
  let '(x, y) := center in
  fill <- random_choice (fill_options st) ;;
  opacity <- random_choice (opacity_options st) ;;
  let rect := dwg_rect (fsub x (fdiv size (of_int 2)), fsub y (fdiv size (of_int 2)))
                       (size, size) fill opacity in
  ret (if nonzero rotation then rotate rect rotation center else rect).

Definition Ellipse_draw (st : Style) (center : Point) (size rotation : num) : M Node :=
  fill <- random_choice (fill_options st) ;;
  opacity <- random_choice (opacity_options st) ;;
  let ellipse := dwg_ellipse center (fdiv size (of_int 2), fdiv size (of_int 4))
                             fill opacity in
  ret (if nonzero rotation then rotate ellipse rotation center else ellipse).

Definition Polygon_draw (dc : Point -> string -> M Node) (st : Style)
    (vertex_count : Z) (center_element : option string)
    (center : Point) (size rotation : num) : M Node :=
  let points_list := polygon_points vertex_count center size in
  fill <- random_choice (fill_options st) ;;
  opacity <- random_choice (opacity_options st) ;;
  let polygon := dwg_polygon points_list fill opacity in
  let polygon := if nonzero rotation then rotate polygon rotation center else polygon in
  match center_element with
  | None => ret polygon
  | Some ce =>
      center_component <- dc center ce ;;
      ret (add (add (Group []) polygon) center_component)
  end.

Definition draw_child_polygon (st : Style) (vertex_count : Z)
    (center : Point) (size rotation : num) : M Node :=
  let points_list := polygon_points vertex_count center size in
  fill <- random_choice (fill_options st) ;;
  opacity <- random_choice (opacity_options st) ;;
  let polygon := dwg_polygon points_list fill opacity in
  ret (if nonzero rotation then rotate polygon rotation center else polygon).

Definition PolygonGroup_draw (dc : Point -> string -> M Node) (st : Style)
    (vertex_count : Z) (vertex_elements center_element : option string)
    (center : Point) (size rotation : num) : M Node :=
  let points_list := polygon_points vertex_count center size in
  fill <- random_choice (fill_options st) ;;
  opacity <- random_choice (opacity_options st) ;;
  let polygon := dwg_polygon points_list fill opacity in
  let group_components := add (Group []) polygon in
  group_components <-
    match center_element with
    | Some ce =>
        center_component <- dc center ce ;;
        ret (add group_components center_component)
    | None => ret group_components
    end ;;
  match vertex_elements with
  | Some ve =>
      if String.eqb ve "circle"%string then
        for_each (seq 0 (Z.to_nat vertex_count))
          (fun i g =>
             v <- getitem points_list i ;;
             child_component <- dc v "circle"%string ;;
             ret (add g child_component))
          group_components
      else if String.eqb ve "polygon"%string then
        for_each (seq 0 (Z.to_nat vertex_count))
          (fun i g =>
             v <- getitem points_list i ;;
             child_component <- draw_child_polygon st vertex_count v size rotation ;;
             ret (add g child_component))
          group_components
      else ret group_components
  | None => ret group_components
  end.

(** Dynamic dispatch of [component.draw]. *)
Definition draw (dc : Point -> string -> M Node) (c : Component)
    (center : Point) (size rotation : num) : M Node :=
  match c with
  | Circle _ st => Circle_draw st center size rotation
  | Rect _ st => Rect_draw st center size rotation
  | Ellipse _ st => Ellipse_draw st center size rotation
  | Polygon _ st vc ce => Polygon_draw dc st vc ce center size rotation
  | PolygonGroup _ st vc ve ce => PolygonGroup_draw dc st vc ve ce center size rotation
  end.

(** [draw_component]: the registry is rebuilt from the configuration, the
    component looked up, its size and rotation resolved, its [draw] called.
    [fuel] is the number of nested activations the call stack still
    holds; at zero the interpreter raises [RecursionError]. *)
Fixpoint draw_component (fuel : nat) (params : Config) (center : Point)
    (center_element : string) : M Node :=
  match fuel with
  | O => raise RecursionError
  | S fuel' =>
      components <- parse_components params ;;
      component <- find_component components center_element ;;
      size_option <- random_choice (size_options (style component)) ;;
      rotation_option <- random_choice (rotation_options (style component)) ;;
      draw (draw_component fuel' params) component center size_option rotation_option
  end.

(** ** Scene assembler *)

Definition canvas_center (params : Config) : Point :=
  (fdiv (of_int (fst (canvas_size params))) (of_int 2),
   fdiv (of_int (snd (canvas_size params))) (of_int 2)).

(** One iteration of the loop of [main], up to the call of [draw]. *)
Definition draw_top (fuel : nat) (params : Config) (components : Registry)
    (component_id : string) : M Node :=
  component <- find_component components component_id ;;
  let center_option := canvas_center params in
  size_option <- random_choice (size_options (style component)) ;;
  rotation_option <- random_choice (rotation_options (style component)) ;;
  draw (draw_component fuel params) component center_option size_option rotation_option.

(** The outcome of a run: how it ended, and the elements [dwg.add] had
    put into the drawing by then. *)
Record Run : Type := mkRun {
  outcome : Res unit;
  scene   : list Node;
  cursor  : nat
}.

Fixpoint main_loop (fuel : nat) (params : Config) (components : Registry)
    (ids : list string) (elements : list Node) (s : nat) : Run :=
  match ids with
  | [] => mkRun (Ok tt) elements s
  | component_id :: rest =>
      match draw_top fuel params components component_id s with
      | (Ok element, s') =>
          main_loop fuel params components rest (elements ++ [element]) s'
      | (Raise e, s') => mkRun (Raise e) elements s'
      end
  end.

Definition main (fuel : nat) (params : Config) (s : nat) : Run :=
  match parse_components params s with
  | (Ok components, s') =>
      main_loop fuel params components (component_to_draw params) [] s'
  | (Raise e, s') => mkRun (Raise e) [] s'
  end.

End Model.

(** ** Vocabulary of the statements *)

Section Vocabulary.

Context {num : Type} {ops : FloatOps num}.
Variable tape : nat -> nat.

(** The component's own shape in what its [draw] returned: the node
    itself, or the first element of the group. *)
Definition primitive (n : @Node num) : @Node num :=
  match n with
  | Group (p :: _) => p
  | _ => n
  end.

Definition elements (n : @Node num) : list (@Node num) :=
  match n with
  | Group es => es
  | Shape _ _ _ _ => []
  end.

Definition points (n : @Node num) : list (Point (num := num)) :=
  match n with
  | Shape (GPolygon pts) _ _ _ => pts
  | _ => []
  end.

Definition fill (n : @Node num) : option string :=
  match n with
  | Shape _ f _ _ => Some f
  | Group _ => None
  end.

Definition opacity (n : @Node num) : option num :=
  match n with
  | Shape _ _ o _ => Some o
  | Group _ => None
  end.

(** The points the vertex loop appends, as a list: [k] successive rounded
    rotations of [p]. *)
Fixpoint orbit (k : nat) (angle : num) (p : Point) : list (Point (num := num)) :=
  match k with
  | O => []
  | S k' => _rotate p angle :: orbit k' angle (_rotate p angle)
  end.

(** The local vertex of index [k]: [k] rounded rotations of the seed. *)
Fixpoint vertex (k : nat) (angle : num) (p : Point) : Point (num := num) :=
  match k with
  | O => p
  | S k' => _rotate (vertex k' angle p) angle
  end.

(** [if rotation != 0: shape.rotate(rotation, center)] *)
Definition turned (shape : @Node num) (rotation : num) (center : Point) : @Node num :=
  if nonzero rotation then rotate shape rotation center else shape.

(** The center part of a polygon group: nothing, or the nested draw. *)
Definition center_part (dc : @Point num -> string -> M (@Node num)) (ce : option string)
    (center : @Point num) (s : nat) (part : list (@Node num)) (s' : nat) : Prop :=
  match ce with
  | None => part = [] /\ s' = s
  | Some c => exists cc, dc center c s = (Ok cc, s') /\ part = [cc]
  end.

(** The polygon shape both polygon variants build, before any rotation. *)
Definition polygon_shape (vertex_count : Z) (center : Point) (size : num)
    (f : string) (o : num) : @Node num :=
  dwg_polygon (polygon_points vertex_count center size) f o.

(** [ys] are the results of running [R] on [xs] one after the other, the
    cursor going from [s] to [s']. *)
Fixpoint chained {A B} (R : A -> nat -> B -> nat -> Prop)
    (xs : list A) (ys : list B) (s s' : nat) : Prop :=
  match xs, ys with
  | [], [] => s = s'
  | x :: xs', y :: ys' => exists s1, R x s y s1 /\ chained R xs' ys' s1 s'
  | _, _ => False
  end.

(** [node] is the registry component [id], built by a fresh parse of the
    configuration, drawn at [center] with a size and a rotation resolved
    from its own options. *)
Definition drawn_from_registry (fuel : nat) (params : Config) (center : Point)
    (id : string) (s : nat) (node : @Node num) (s' : nat) : Prop :=
  exists fuel' components component size rotation s1,
    fuel = S fuel' /\
    parse_components tape params s = (Ok components, s1) /\
    lookup id components = Some (Some component) /\
    random_choice tape (size_options (style component)) s1 = (Ok size, S s1) /\
    random_choice tape (rotation_options (style component)) (S s1)
      = (Ok rotation, S (S s1)) /\
    In size (size_options (style component)) /\
    In rotation (rotation_options (style component)) /\
    draw tape (draw_component tape fuel' params) component center size rotation
         (S (S s1)) = (Ok node, s').

(** The same at top level: the registry is the one [main] built. *)
Definition drawn_at_top (fuel : nat) (params : Config) (components : Registry)
    (id : string) (s : nat) (node : @Node num) (s' : nat) : Prop :=
  exists component size rotation,
    lookup id components = Some (Some component) /\
    random_choice tape (size_options (style component)) s = (Ok size, S s) /\
    random_choice tape (rotation_options (style component)) (S s)
      = (Ok rotation, S (S s)) /\
    In size (size_options (style component)) /\
    In rotation (rotation_options (style component)) /\
    draw tape (draw_component tape fuel params) component (canvas_center params)
         size rotation (S (S s)) = (Ok node, s').

(** A child polygon of a polygon group at vertex [v]: the parent's vertex
    count, the size and rotation of the parent call, fill and opacity
    resolved from the parent's options at the cursor of the child. *)
Definition child_polygon_at (st : Style) (vertex_count : Z) (size rotation : num)
    (v : Point) (s : nat) (node : @Node num) (s' : nat) : Prop :=
  exists f o,
    random_choice tape (fill_options st) s = (Ok f, S s) /\
    random_choice tape (opacity_options st) (S s) = (Ok o, S (S s)) /\
    s' = S (S s) /\
    points node = polygon_points vertex_count v size /\
    fill node = Some f /\ opacity node = Some o /\
    transform node = (if nonzero rotation then [(rotation, v)] else []).

(** The ids a component built from [p] can hand to [draw_component]. *)
Definition some_ids (l : list (option string)) : list string :=
  flat_map (fun o => match o with Some i => [i] | None => [] end) l.

Definition refs (p : Params (num := num)) : list string :=
  if String.eqb (p_type p) "Polygon" then
    match p_center_elements p with Some ces => some_ids ces | None => [] end
  else if String.eqb (p_type p) "PolygonGroup" then
    match p_center_elements p with Some ces => some_ids ces | None => [] end
    ++ match p_vertex_elements p with
       | Some ves => if existsb (fun o => match o with
                                          | Some ve => String.eqb ve "circle"
                                          | None => false
                                          end) ves
                     then ["circle"%string] else []
       | None => []
       end
  else [].

(** The ids the [draw] of an instance hands to [draw_component]. *)
Definition calls (c : @Component num) : list string :=
  match c with
  | Polygon _ _ _ (Some ce) => [ce]
  | PolygonGroup _ _ _ ve ce =>
      match ce with Some c => [c] | None => [] end
      ++ match ve with
         | Some v => if String.eqb v "circle" then ["circle"%string] else []
         | None => []
         end
  | _ => []
  end.

(** An acyclic configuration graph: the references go down a rank. *)
Definition acyclic (params : Config) (rank : string -> nat) : Prop :=
  forall id p r,
    lookup id (element_defs params) = Some p ->
    In r (refs p) -> rank r < rank id.

Definition has_empty_option (st : Style (num := num)) : Prop :=
  size_options st = [] \/ rotation_options st = [] \/
  fill_options st = [] \/ opacity_options st = [].

(** What the construction-time draws of an instance fix. *)
Definition vertex_count_of (c : Component (num := num)) : option Z :=
  match c with
  | Polygon _ _ vc _ | PolygonGroup _ _ vc _ _ => Some vc
  | _ => None
  end.

Definition group_size (c : Component (num := num)) : nat :=
  match c with
  | Polygon _ _ _ None => 0
  | Polygon _ _ _ (Some _) => 2
  | PolygonGroup _ _ vc ve ce =>
      1 + (match ce with Some _ => 1 | None => 0 end)
        + (match ve with
           | Some v => if (String.eqb v "circle" || String.eqb v "polygon")%bool
                       then Z.to_nat vc else 0
           | None => 0
           end)
  | _ => 0
  end.

(** One draw of an instance with [vertex_count], through a caller that
    resolves size and rotation: the four style attributes are resolved at
    the cursor of this call, the polygon is computed from that size. *)
Definition resolved_on_call (dc : @Point num -> string -> M (@Node num))
    (c : @Component num) (vertex_count : Z) (center : @Point num)
    (s : nat) (n : @Node num) (s' : nat) : Prop :=
  exists size rotation f o,
    random_choice tape (size_options (style c)) s = (Ok size, S s) /\
    random_choice tape (rotation_options (style c)) (S s)
      = (Ok rotation, S (S s)) /\
    random_choice tape (fill_options (style c)) (S (S s))
      = (Ok f, S (S (S s))) /\
    random_choice tape (opacity_options (style c)) (S (S (S s)))
      = (Ok o, S (S (S (S s)))) /\
    draw tape dc c center size rotation (S (S s)) = (Ok n, s') /\
    points (primitive n) = polygon_points vertex_count center size /\
    fill (primitive n) = Some f /\ opacity (primitive n) = Some o.

End Vocabulary.

(** ** The calls of a run *)

Unset Implicit Arguments.

Section Calls.

Context {num : Type} {ops : FloatOps num}.
Variable tape : nat -> nat.

(** [draw] of the instance [c], entered at cursor [s], reaches the call
    [dc v id] at cursor [s1]: the call for the center element, right
    after the fill and the opacity of the polygon are resolved, or the
    call for the vertex of index [i] of a group with circles, after the
    center part and the children before it have been drawn. *)
Definition nested_call (dc : @Point num -> string -> M (@Node num))
    (c : @Component num) (center : @Point num) (size rotation : num) (s : nat)
    (v : @Point num) (id : string) (s1 : nat) : Prop :=
  exists f o,
    random_choice tape (fill_options (style c)) s = (Ok f, S s) /\
    random_choice tape (opacity_options (style c)) (S s) = (Ok o, S (S s)) /\
    match c with
    | Polygon _ _ _ ce => ce = Some id /\ v = center /\ s1 = S (S s)
    | PolygonGroup _ _ vc ve ce =>
        (ce = Some id /\ v = center /\ s1 = S (S s)) \/
        (ve = Some "circle"%string /\ id = "circle"%string /\
         exists part s2 i kids,
           center_part dc ce center (S (S s)) part s2 /\
           i < Z.to_nat vc /\
           nth_error (polygon_points vc center size) i = Some v /\
           chained (fun p s k s' => dc p "circle"%string s = (Ok k, s'))
                   (firstn i (polygon_points vc center size)) kids s2 s1)
    | _ => False
    end.

(** The calls that draw a component: an iteration of the loop of [main],
    or a call of [draw_component] with what is left of the stack. *)
Inductive Call : Type :=
| TopDraw (id : string)
| NestedDraw (fuel : nat) (center : @Point num) (id : string).

Variable fuel : nat.
Variable params : @Config num.
Variable components : @Registry num.

Definition exec (call : Call) : M (@Node num) :=
  match call with
  | TopDraw id => draw_top tape fuel params components id
  | NestedDraw f v id => draw_component tape f params v id
  end.

(** The stack left to the nested draws of a call, and the center it
    draws at. *)
Definition depth_below (call : Call) : nat :=
  match call with
  | TopDraw _ => fuel
  | NestedDraw f _ _ => Nat.pred f
  end.

Definition center_of (call : Call) : @Point num :=
  match call with
  | TopDraw _ => canvas_center params
  | NestedDraw _ v _ => v
  end.

(** The instance a call entered at cursor [s] draws, and the cursor [s1]
    at which it resolves the size: the instance of the registry of the
    run, or the one of the registry the nested draw has just rebuilt. *)
Definition instance (call : Call) (s : nat) (c : @Component num) (s1 : nat) : Prop :=
  match call with
  | TopDraw id => lookup id components = Some (Some c) /\ s1 = s
  | NestedDraw (S f) _ id =>
      exists comps,
        parse_components tape params s = (Ok comps, s1) /\
        lookup id comps = Some (Some c)
  | NestedDraw O _ _ => False
  end.

(** The calls of a run whose loop starts at cursor [s0], each with the
    elements in the drawing when it is made and the cursor at which it is
    entered. *)
Inductive occurs (s0 : nat) : list (@Node num) -> Call -> nat -> Prop :=
| occurs_top done id rest elems s :
    component_to_draw params = done ++ id :: rest ->
    chained (fun i s n s' => draw_top tape fuel params components i s = (Ok n, s'))
            done elems s0 s ->
    occurs s0 elems (TopDraw id) s
| occurs_nested elems call s c s1 size rotation v id s2 :
    occurs s0 elems call s ->
    instance call s c s1 ->
    random_choice tape (size_options (style c)) s1 = (Ok size, S s1) ->
    random_choice tape (rotation_options (style c)) (S s1)
      = (Ok rotation, S (S s1)) ->
    nested_call (draw_component tape (depth_below call) params) c (center_of call)
                size rotation (S (S s1)) v id s2 ->
    occurs s0 elems (NestedDraw (depth_below call) v id) s2.

End Calls.

Set Implicit Arguments.

(** ** Exact real arithmetic

    An idealisation of the floats: the operations are those of the reals,
    [round(_, 7)] rounds the exact value (Python rounds the binary64
    value, which can fall on the other side of a tie), and nothing
    overflows. *)

(** [round] to the nearest integer, ties to even. *)
Definition round_half_even (x : R) : Z :=
  let f := Int_part x in
  if Rlt_dec (x - IZR f) (1 / 2) then f
  else if Rlt_dec (1 / 2) (x - IZR f) then (f + 1)%Z
  else if Z.even f then f else (f + 1)%Z.

Definition Rround7 (x : R) : R :=
  (IZR (round_half_even (x * 10 ^ 7)) / 10 ^ 7)%R.

#[export] Instance RealOps : FloatOps R := {
  of_int  := IZR;
  half    := (5 / 10)%R;
  fadd    := Rplus;
  fsub    := Rminus;
  fmul    := Rmult;
  fdiv    := Rdiv;
  fneg    := Ropp;
  fcos    := cos;
  fsin    := sin;
  fpi     := PI;
  round7  := Rround7;
  nonzero := fun x => if Req_dec_T x 0 then false else true
}.


(** ** Sample configurations, in exact real arithmetic *)

Module Sample.

(** A generator that always draws index 0, one that moves on by one
    index every second draw, and one that does so every fourth draw. *)
Definition tape0 : nat -> nat := fun _ => 0.

Definition tape1 : nat -> nat := fun n => n / 2.

Definition tape2 : nat -> nat := fun n => n / 4.

Definition dot_style : @Style R :=
  mkStyle ["black"%string] [1%R] [10%R] [0%R].

Definition red_style : @Style R :=
  mkStyle ["red"%string] [1%R] [100%R] [0%R].

Definition two_fills : @Style R :=
  mkStyle ["red"%string; "blue"%string] [1%R] [40%R] [0%R].

Definition turned_style : @Style R :=
  mkStyle ["green"%string] [1%R] [50%R] [90%R].

Definition no_size : @Style R :=
  mkStyle ["black"%string] [1%R] [] [0%R].

Definition no_rotation : @Style R :=
  mkStyle ["black"%string] [1%R] [10%R] [].

Definition circle_def : @Params R :=
  mkParams "Circle" "circle" dot_style None None None None.

Definition square_def : @Params R :=
  mkParams "Rect" "square" turned_style None None None None.

Definition tri_def : @Params R :=
  mkParams "Polygon" "tri" red_style (Some [3%Z]) None None
           (Some [Some "circle"%string]).

Definition ring_def : @Params R :=
  mkParams "PolygonGroup" "ring" two_fills None (Some [4%Z])
           (Some [Some "circle"%string]) (Some [None]).

Definition fan_def : @Params R :=
  mkParams "PolygonGroup" "fan" two_fills None (Some [3%Z])
           (Some [Some "polygon"%string]) (Some [None]).

(** An acyclic configuration: [tri] and [ring] refer to [circle]. *)
Definition scene_cfg : @Config R :=
  mkConfig (200%Z, 200%Z) ["tri"%string; "circle"%string]
           [("circle"%string, circle_def); ("square"%string, square_def);
            ("tri"%string, tri_def); ("ring"%string, ring_def);
            ("fan"%string, fan_def)].

Definition scene_rank (id : string) : nat :=
  if String.eqb id "circle" then 0
  else if String.eqb id "square" then 0
  else 1.

(** A component whose center element is itself. *)
Definition loop_def : @Params R :=
  mkParams "Polygon" "A" red_style (Some [3%Z]) None None
           (Some [Some "A"%string]).

Definition loop_cfg : @Config R :=
  mkConfig (200%Z, 200%Z) ["A"%string] [("A"%string, loop_def)].

(** A good component requested before one without size options. *)
Definition bad_def : @Params R :=
  mkParams "Circle" "bad" no_size None None None None.

Definition broken_cfg : @Config R :=
  mkConfig (200%Z, 200%Z) ["circle"%string; "bad"%string]
           [("circle"%string, circle_def); ("bad"%string, bad_def)].

(** A circle without rotation options. *)
Definition still_def : @Params R :=
  mkParams "Circle" "still" no_rotation None None None None.

Definition still_cfg : @Config R :=
  mkConfig (200%Z, 200%Z) ["still"%string] [("still"%string, still_def)].

(** A polygon whose center element has no size options, requested between
    two good components. *)
Definition nest_def : @Params R :=
  mkParams "Polygon" "nest" red_style (Some [3%Z]) None None
           (Some [Some "bad"%string]).

Definition nest_cfg : @Config R :=
  mkConfig (200%Z, 200%Z) ["circle"%string; "nest"%string; "circle"%string]
           [("circle"%string, circle_def); ("nest"%string, nest_def);
            ("bad"%string, bad_def)].

(** A polygon with two vertex counts to choose from, requested twice. *)
Definition shape_def : @Params R :=
  mkParams "Polygon" "shape" two_fills (Some [3%Z; 5%Z]) None None (Some [None]).

Definition twice_cfg : @Config R :=
  mkConfig (200%Z, 200%Z) ["shape"%string; "shape"%string]
           [("shape"%string, shape_def)].

(** The instances the registry of these configurations holds. *)
Definition circle_inst : @Component R := Circle "circle" dot_style.

Definition square_inst : @Component R := Rect "square" turned_style.

Definition tri_inst : @Component R := Polygon "tri" red_style 3 (Some "circle"%string).

Definition bare_inst : @Component R := Polygon "bare" red_style 3 None.

Definition ring_inst : @Component R :=
  PolygonGroup "ring" two_fills 4 (Some "circle"%string) None.

Definition fan_inst : @Component R :=
  PolygonGroup "fan" two_fills 3 (Some "polygon"%string) None.

Definition oval_inst : @Component R := Ellipse "oval" turned_style.

Definition nest_inst : @Component R := Polygon "nest" red_style 3 (Some "bad"%string).

Definition shape_inst : @Component R := Polygon "shape" two_fills 3 None.

Definition nest_registry : @Registry R :=
  [("circle"%string, Some circle_inst); ("nest"%string, Some nest_inst);
   ("bad"%string, Some (Circle "bad" no_size))].

Definition scene_registry : @Registry R :=
  [("circle"%string, Some circle_inst); ("square"%string, Some square_inst);
   ("tri"%string, Some tri_inst); ("ring"%string, Some ring_inst);
   ("fan"%string, Some fan_inst)].

End Sample.

(** ** The canvas size and the entry point

    [parse_canvas_size] splits the text at every ["x"] and unpacks the
    parts into exactly two names; [int] is the builtin, taken as a
    parameter ([None] when it raises). *)

Inductive ValueError : Type :=
| NotEnoughValues (got : nat)     (* not enough values to unpack (expected 2, got _) *)
| TooManyValues                   (* too many values to unpack (expected 2) *)
| InvalidLiteral (text : string). (* invalid literal for int() with base 10 *)

(** [s.split(sep)] for a separator of one character. *)
Fixpoint split (sep : Ascii.ascii) (s : string) : list string :=
  match s with
  | EmptyString => [EmptyString]
  | String c rest =>
      if Ascii.eqb c sep then EmptyString :: split sep rest
      else match split sep rest with
           | head :: tail => String c head :: tail
           | [] => [String c EmptyString]
           end
  end.

(** [sep.join(parts)] *)
Fixpoint join (sep : Ascii.ascii) (parts : list string) : string :=
  match parts with
  | [] => EmptyString
  | [p] => p
  | p :: rest => (p ++ String sep (join sep rest))%string
  end.

(** [s.count(c)] *)
Fixpoint count (c : Ascii.ascii) (s : string) : nat :=
  match s with
  | EmptyString => 0
  | String a rest => (if Ascii.eqb a c then 1 else 0) + count c rest
  end.

Definition parse_canvas_size (int : string -> option Z) (size_str : string)
  : ValueError + (Z * Z) :=
  match split "x"%char size_str with
  | [width; height] =>
      match int width with
      | None => inl (InvalidLiteral width)
      | Some w =>
          match int height with
          | None => inl (InvalidLiteral height)
          | Some h => inr (w, h)
          end
      end
  | [] => inl (NotEnoughValues 0)
  | [_] => inl (NotEnoughValues 1)
  | _ :: _ :: _ :: _ => inl TooManyValues
  end.

Section EntryPoint.

Context {num : Type} {ops : FloatOps num}.
Variable tape : nat -> nat.
Variable int : string -> option Z.

(** The parsed YAML tree as [main] receives it: the canvas size is still
    text. *)
Record Yaml : Type := mkYaml {
  y_canvas_size       : string;
  y_component_to_draw : list string;
  y_element_defs      : list (string * @Params num)
}.

Definition with_canvas (y : Yaml) (wh : Z * Z) : @Config num :=
  mkConfig wh (y_component_to_draw y) (y_element_defs y).

Inductive Fatal : Type :=
| EngineError (e : Exn)
| CanvasError (v : ValueError).

Record YamlRun : Type := mkYamlRun {
  y_outcome : Fatal + unit;
  y_scene   : list (@Node num);
  y_cursor  : nat
}.

Definition of_run (r : @Run num) : YamlRun :=
  mkYamlRun (match outcome r with
             | Ok _ => inr tt
             | Raise e => inl (EngineError e)
             end)
            (scene r) (cursor r).

(** [main] from its first line: the registry is built, then the canvas
    size is parsed, then the requested components are drawn. *)
Definition main_yaml (fuel : nat) (y : Yaml) (s : nat) : YamlRun :=
  match build_components tape (y_element_defs y) s with
  | (Raise e, s') => mkYamlRun (inl (EngineError e)) [] s'
  | (Ok components, s') =>
      match parse_canvas_size int (y_canvas_size y) with
      | inl v => mkYamlRun (inl (CanvasError v)) [] s'
      | inr wh =>
          of_run (main_loop tape fuel (with_canvas y wh) components
                            (y_component_to_draw y) [] s')
      end
  end.

End EntryPoint.

(** ** More vocabulary: what a definition entry builds *)

Section Entries.

Context {num : Type} {ops : FloatOps num}.

Definition known_type (t : string) : bool :=
  (String.eqb t "Circle"%string || String.eqb t "Rect"%string || String.eqb t "Ellipse"%string
   || String.eqb t "Polygon"%string || String.eqb t "PolygonGroup"%string)%bool.

(** The error the construction of an entry ends with, if any: a missing
    key, then an empty list to choose from, in the order the constructor
    call meets them. *)
Definition first_missing {A B} (k1 : string) (f1 : option (list A))
    (k2 : string) (f2 : option (list B)) : option Exn :=
  match f1 with
  | None => Some (KeyError k1)
  | Some l1 =>
      match f2 with
      | None => Some (KeyError k2)
      | Some l2 =>
          match l1 with
          | [] => Some IndexError
          | _ :: _ => match l2 with [] => Some IndexError | _ :: _ => None end
          end
      end
  end.

Definition construction_error (p : @Params num) : option Exn :=
  if String.eqb (p_type p) "Circle"%string then None
  else if String.eqb (p_type p) "Rect"%string then None
  else if String.eqb (p_type p) "Ellipse"%string then None
  else if String.eqb (p_type p) "Polygon"%string then
    first_missing "vertex_count"%string (p_vertex_count p)
                  "center_elements"%string (p_center_elements p)
  else if String.eqb (p_type p) "PolygonGroup"%string then
    match p_vertex_count_options p with
    | None => Some (KeyError "vertex_count_options"%string)
    | Some vcs =>
        match first_missing "vertex_elements"%string (p_vertex_elements p)
                            "center_elements"%string (p_center_elements p) with
        | Some (KeyError k) => Some (KeyError k)
        | other => match vcs with [] => Some IndexError | _ :: _ => other end
        end
    end
  else None.

(** The error of the first broken entry in file order. *)
Fixpoint first_construction_error (defs : list (string * @Params num))
  : option Exn :=
  match defs with
  | [] => None
  | (_, p) :: rest =>
      match construction_error p with
      | Some e => Some e
      | None => first_construction_error rest
      end
  end.

(** The number of random draws the construction of an entry makes. *)
Definition construction_draws (p : @Params num) : nat :=
  if String.eqb (p_type p) "Circle"%string then 0
  else if String.eqb (p_type p) "Rect"%string then 0
  else if String.eqb (p_type p) "Ellipse"%string then 0
  else if String.eqb (p_type p) "Polygon"%string then 2
  else if String.eqb (p_type p) "PolygonGroup"%string then 3
  else 0.

Definition total_draws (defs : list (string * @Params num)) : nat :=
  list_sum (map (fun d => construction_draws (snd d)) defs).

(** The instance [c] is one the entry [p] can build. *)
Definition built_from (p : @Params num) (c : option (@Component num)) : Prop :=
  match c with
  | None => known_type (p_type p) = false
  | Some (Circle id st) =>
      p_type p = "Circle"%string /\ id = p_id p /\ st = p_style p
  | Some (Rect id st) =>
      p_type p = "Rect"%string /\ id = p_id p /\ st = p_style p
  | Some (Ellipse id st) =>
      p_type p = "Ellipse"%string /\ id = p_id p /\ st = p_style p
  | Some (Polygon id st vc ce) =>
      p_type p = "Polygon"%string /\ id = p_id p /\ st = p_style p /\
      exists vcs ces,
        p_vertex_count p = Some vcs /\ p_center_elements p = Some ces /\
        In vc vcs /\ In ce ces
  | Some (PolygonGroup id st vc ve ce) =>
      p_type p = "PolygonGroup"%string /\ id = p_id p /\ st = p_style p /\
      exists vcs ves ces,
        p_vertex_count_options p = Some vcs /\
        p_vertex_elements p = Some ves /\ p_center_elements p = Some ces /\
        In vc vcs /\ In ve ves /\ In ce ces
  end.

(** A registry entry next to the definition entry it was built from. *)
Definition mirrors (d : string * @Params num)
    (c : string * option (@Component num)) : Prop :=
  fst c = fst d /\ built_from (snd d) (snd c).

(** A configuration every draw of which can go through: each entry has a
    known type and builds, its four option sets are not empty, and every
    id it refers to is a key of the configuration. *)
Definition valid_entry (defs : list (string * @Params num)) (p : @Params num)
  : Prop :=
  known_type (p_type p) = true /\
  construction_error p = None /\
  fill_options (p_style p) <> [] /\ opacity_options (p_style p) <> [] /\
  size_options (p_style p) <> [] /\ rotation_options (p_style p) <> [] /\
  forall r, In r (refs p) -> lookup r defs <> None.

Definition valid_config (params : @Config num) : Prop :=
  Forall (fun d => valid_entry (element_defs params) (snd d))
         (element_defs params).

(** A result that is none of the four exceptions a configuration can
    cause. *)
Definition config_error_free {A} (r : Res A) : Prop :=
  r <> Raise IndexError /\ (forall key, r <> Raise (KeyError key)) /\
  r <> Raise AttributeError /\ r <> Raise RecursionError.

(** The shapes of a drawing, in paint order. *)
Fixpoint shapes (n : @Node num) : list (@Node num) :=
  match n with
  | Shape _ _ _ _ => [n]
  | Group es => flat_map shapes es
  end.

(** A shape of a drawing made from [defs]: at most one rotation, and a
    fill and an opacity that some entry of the configuration offers. *)
Definition shape_from (defs : list (string * @Params num)) (sh : @Node num)
  : Prop :=
  List.length (transform sh) <= 1 /\
  exists key p f o,
    In (key, p) defs /\
    fill sh = Some f /\ In f (fill_options (p_style p)) /\
    opacity sh = Some o /\ In o (opacity_options (p_style p)).

End Entries.

(** ** More samples *)

Module More.

(** The builtin [int] on plain digit strings; anything else is refused
    here. *)
Fixpoint digits_value (acc : Z) (s : string) : option Z :=
  match s with
  | EmptyString => Some acc
  | String c rest =>
      let n := Ascii.nat_of_ascii c in
      if ((48 <=? n) && (n <=? 57))%nat
      then digits_value (10 * acc + Z.of_nat (n - 48)) rest
      else None
  end.

Definition digits_int (s : string) : option Z :=
  match s with
  | EmptyString => None
  | String _ _ => digits_value 0 s
  end.

(** A polygon entry written with the key of a polygon group. *)
Definition halfdone_def : @Params R :=
  mkParams "Polygon" "p" Sample.red_style None (Some [3%Z]) None (Some [None]).

Definition halfdone_cfg : @Config R :=
  mkConfig (200%Z, 200%Z) ["circle"%string]
           [("circle"%string, Sample.circle_def); ("p"%string, halfdone_def)].

(** An entry of a type the builder does not know. *)
Definition star_def : @Params R :=
  mkParams "Star" "star" Sample.red_style None None None None.

Definition star_cfg : @Config R :=
  mkConfig (200%Z, 200%Z) ["star"%string]
           [("circle"%string, Sample.circle_def); ("star"%string, star_def)].

(** The text of a canvas size, and a tree that still holds it as text. *)
Definition scene_yaml : @Yaml R :=
  mkYaml "200x200" (component_to_draw Sample.scene_cfg)
         (element_defs Sample.scene_cfg).

End More.
(** * Properties *)

(** ** The monad: success and failure of a sequence *)

Lemma bind_ok {A B} (m : M A) (f : A -> M B) s b s' :
  bind m f s = (Ok b, s') ->
  exists a s1, m s = (Ok a, s1) /\ f a s1 = (Ok b, s').
Proof.
  unfold bind. destruct (m s) as [[a | e] s1]; intros H.
  - exists a, s1. split; [reflexivity | exact H].
  - discriminate H.
Qed.

Lemma bind_step {A B} (m : M A) (f : A -> M B) s a s1 :
  m s = (Ok a, s1) -> bind m f s = f a s1.
Proof. unfold bind. intros ->. reflexivity. Qed.

Lemma ret_ok {A} (a b : A) s s' : ret a s = (Ok b, s') -> a = b /\ s = s'.
Proof. unfold ret. intros H. inversion H. split; reflexivity. Qed.

(** Invert a successful run, one bind at a time. *)
Ltac inv_ok H :=
  match type of H with
  | bind _ _ _ = (Ok _, _) =>
      let a := fresh "a" in
      let s1 := fresh "s" in
      let H1 := fresh "H" in
      apply bind_ok in H; destruct H as (a & s1 & H1 & H)
  | ret _ _ = (Ok _, _) =>
      let H2 := fresh in
      apply ret_ok in H; destruct H as [H H2]; try subst
  end.

Section Properties.

Context {num : Type} {ops : FloatOps num}.
Variable tape : nat -> nat.

Abbreviation random_choice := (random_choice tape).
Abbreviation pt := (@Point num).

(** ** Style resolver *)

Lemma random_choice_cons {A} (y : A) l s :
  random_choice (y :: l) s
  = (Ok (nth (tape s mod List.length (y :: l)) (y :: l) y), S s).
Proof. reflexivity. Qed.

Lemma random_choice_single {A} (x : A) s :
  random_choice [x] s = (Ok x, S s).
Proof. rewrite random_choice_cons. simpl List.length. now rewrite Nat.mod_1_r. Qed.

Lemma random_choice_ok {A} (options : list A) s x s' :
  random_choice options s = (Ok x, s') ->
  In x options /\ s' = S s /\
  random_choice options s = (Ok x, S s).
Proof.
  destruct options as [| y l]; intros H; [discriminate H |].
  rewrite random_choice_cons in *.
  assert (Hin : In (nth (tape s mod List.length (y :: l)) (y :: l) y) (y :: l))
    by (apply nth_In, Nat.mod_upper_bound; simpl; lia).
  set (v := nth (tape s mod List.length (y :: l)) (y :: l) y) in *.
  injection H as <- <-. auto.
Qed.

Lemma random_choice_nonempty {A} (options : list A) s :
  options <> [] ->
  exists x, random_choice options s = (Ok x, S s) /\ In x options.
Proof.
  intros Hne. destruct options as [| y l]; [congruence |].
  eexists. split; [reflexivity |].
  apply nth_In. apply Nat.mod_upper_bound. simpl. lia.
Qed.

Lemma random_choice_empty {A} s :
  random_choice (@nil A) s = (Raise IndexError, s).
Proof. reflexivity. Qed.

(** ** Geometry kernel *)

Lemma rotate_loop_orbit k angle (p : pt) l :
  snd (rotate_loop k angle (p, l)) = l ++ orbit k angle p.
Proof.
  revert p l. induction k as [| k IH]; intros p l; simpl.
  - now rewrite app_nil_r.
  - unfold rotate_append at 1. simpl. rewrite IH, <- app_assoc. reflexivity.
Qed.

Lemma orbit_length k angle (p : pt) : List.length (orbit k angle p) = k.
Proof.
  revert p. induction k as [| k IH]; intros p; simpl; [| rewrite IH]; reflexivity.
Qed.

Lemma orbit_next k angle (p : pt) i q :
  i < k ->
  nth_error (p :: orbit k angle p) i = Some q ->
  nth_error (p :: orbit k angle p) (S i) = Some (_rotate q angle).
Proof.
  revert p i q. induction k as [| k IH]; intros p i q Hi Hq; [lia |].
  destruct i as [| i]; simpl in *.
  - now inversion Hq.
  - apply IH; [lia | exact Hq].
Qed.

Lemma local_points_orbit vc size :
  local_points vc size
  = (of_int 0, fmul size half)
      :: orbit (Z.to_nat vc) (step_angle vc) (of_int 0, fmul size half).
Proof. unfold local_points. now rewrite rotate_loop_orbit. Qed.

Lemma local_points_length vc size :
  List.length (local_points vc size) = Z.to_nat vc + 1.
Proof. rewrite local_points_orbit. simpl. rewrite orbit_length. lia. Qed.

Lemma polygon_points_length vc (center : pt) size :
  List.length (polygon_points vc center size) = Z.to_nat vc + 1.
Proof.
  unfold polygon_points. rewrite length_map. apply local_points_length.
Qed.

Lemma local_points_seed vc size :
  nth_error (local_points vc size) 0 = Some (of_int 0, fmul size half).
Proof. now rewrite local_points_orbit. Qed.

Lemma local_points_next vc size i q :
  i < Z.to_nat vc ->
  nth_error (local_points vc size) i = Some q ->
  nth_error (local_points vc size) (S i) = Some (_rotate q (step_angle vc)).
Proof. rewrite local_points_orbit. apply orbit_next. Qed.

Lemma polygon_points_nth vc (center : pt) size i :
  nth_error (polygon_points vc center size) i
  = option_map (translate center) (nth_error (local_points vc size) i).
Proof. unfold polygon_points. apply nth_error_map. Qed.

Lemma orbit_vertex k angle (p : pt) i :
  i <= k -> nth_error (p :: orbit k angle p) i = Some (vertex i angle p).
Proof.
  induction i as [| i IH]; intros Hi; [reflexivity |].
  apply orbit_next; [lia | apply IH; lia].
Qed.

Lemma polygon_points_vertex vc (center : pt) size i :
  i <= Z.to_nat vc ->
  nth_error (polygon_points vc center size) i
  = Some (translate center (vertex i (step_angle vc) (of_int 0, fmul size half))).
Proof.
  intros Hi. rewrite polygon_points_nth, local_points_orbit, orbit_vertex by exact Hi.
  reflexivity.
Qed.

(** ** Shapes and groups *)

Lemma chained_length {A B} (R : A -> nat -> B -> nat -> Prop) xs ys s s' :
  chained R xs ys s s' -> List.length xs = List.length ys.
Proof.
  revert ys s. induction xs as [| x xs IH]; intros [| y ys] s H; simpl in *;
    try contradiction; [reflexivity |].
  destruct H as (s1 & _ & H). f_equal. eapply IH, H.
Qed.

Lemma chained_impl {A B} (R Q : A -> nat -> B -> nat -> Prop) xs ys s s' :
  (forall x s y s', R x s y s' -> Q x s y s') ->
  chained R xs ys s s' -> chained Q xs ys s s'.
Proof.
  intros HRQ. revert ys s. induction xs as [| x xs IH]; intros [| y ys] s H;
    simpl in *; try contradiction; [exact H |].
  destruct H as (s1 & Hx & H). exists s1. split; [apply HRQ, Hx | apply IH, H].
Qed.

Lemma getitem_ok {A} (l : list A) i s x s' :
  getitem l i s = (Ok x, s') -> nth_error l i = Some x /\ s' = s.
Proof.
  unfold getitem. destruct (nth_error l i); intros H; inversion H; auto.
Qed.

(** The per-vertex loops of [PolygonGroup.draw]: the group gains one child
    per index, drawn at the vertex of that index, in index order. *)
Lemma vertex_loop_ok (K : pt -> M (@Node num)) (pts : list pt) a k es s n s' :
  for_each (seq a k)
    (fun i g => v <- getitem pts i ;; child <- K v ;; ret (add g child))
    (Group es) s = (Ok n, s') ->
  exists kids,
    n = Group (es ++ kids) /\
    chained (fun v s k s' => K v s = (Ok k, s')) (firstn k (skipn a pts)) kids s s'.
Proof.
  revert a es s. induction k as [| k IH]; intros a es s H; simpl in H.
  - inv_ok H. exists []. rewrite app_nil_r. split; reflexivity.
  - apply bind_ok in H as (g & s3 & Hbody & H).
    apply bind_ok in Hbody as (v & s1 & Hv & Hbody).
    apply bind_ok in Hbody as (child & s2 & Hchild & Hbody).
    inv_ok Hbody.
    apply getitem_ok in Hv as [Hv ->].
    apply IH in H as (kids & -> & Hk).
    exists (child :: kids). rewrite <- app_assoc. split; [reflexivity |].
    assert (E : skipn a pts = v :: skipn (S a) pts).
    { clear - Hv. revert pts Hv. induction a as [| a IHa]; intros [| q pts] Hv;
        simpl in *; try discriminate.
      - now inversion Hv.
      - apply IHa in Hv. exact Hv. }
    rewrite E. simpl. exists s3. split; assumption.
Qed.

Lemma firstn_polygon_points_length vc (center : pt) size :
  List.length (firstn (Z.to_nat vc) (polygon_points vc center size)) = Z.to_nat vc.
Proof. rewrite length_firstn, polygon_points_length. lia. Qed.

(** The vertices the per-vertex loops visit are all but the closing one. *)
Lemma polygon_points_closing vc (center : pt) size :
  exists closing,
    polygon_points vc center size
    = firstn (Z.to_nat vc) (polygon_points vc center size) ++ [closing].
Proof.
  pose proof (polygon_points_length vc center size) as L.
  pose proof (firstn_skipn (Z.to_nat vc) (polygon_points vc center size)) as E.
  pose proof (length_skipn (Z.to_nat vc) (polygon_points vc center size)) as K.
  rewrite L in K.
  destruct (skipn (Z.to_nat vc) (polygon_points vc center size)) as [| q [| q' l]];
    simpl in K; try lia.
  exists q. now rewrite E.
Qed.

(** ** The [draw] methods, read off a successful call *)

Lemma styled_ok (st : @Style num) {B} (k : string -> num -> M B) s b s' :
  (fill <- random_choice (fill_options st) ;;
   opacity <- random_choice (opacity_options st) ;; k fill opacity) s = (Ok b, s') ->
  exists f o,
    random_choice (fill_options st) s = (Ok f, S s) /\
    random_choice (opacity_options st) (S s) = (Ok o, S (S s)) /\
    In f (fill_options st) /\ In o (opacity_options st) /\
    k f o (S (S s)) = (Ok b, s').
Proof.
  intros H. inv_ok H. inv_ok H.
  apply random_choice_ok in H0 as (Hf & -> & Ef).
  apply random_choice_ok in H1 as (Ho & -> & Eo).
  exists a, a0. auto 6.
Qed.

Lemma transform_turned g f o rotation (center : pt) :
  transform (turned (Shape g f o []) rotation center)
  = if nonzero rotation then [(rotation, center)] else [].
Proof. unfold turned. destruct (nonzero rotation); reflexivity. Qed.

Lemma points_turned pts f o rotation (center : pt) :
  points (turned (dwg_polygon pts f o) rotation center) = pts.
Proof. unfold turned. destruct (nonzero rotation); reflexivity. Qed.

Lemma fill_turned g f o t rotation (center : pt) :
  fill (turned (Shape g f o t) rotation center) = Some f /\
  opacity (turned (Shape g f o t) rotation center) = Some o.
Proof. unfold turned. destruct (nonzero rotation); split; reflexivity. Qed.

Lemma Rect_draw_ok st (center : pt) size rotation s n s' :
  Rect_draw tape st center size rotation s = (Ok n, s') ->
  exists f o,
    random_choice (fill_options st) s = (Ok f, S s) /\
    random_choice (opacity_options st) (S s) = (Ok o, S (S s)) /\
    s' = S (S s) /\
    n = turned (dwg_rect (fsub (fst center) (fdiv size (of_int 2)),
                          fsub (snd center) (fdiv size (of_int 2)))
                         (size, size) f o) rotation center.
Proof.
  unfold Rect_draw. destruct center as [x y]. intros H.
  apply styled_ok in H as (f & o & Hf & Ho & _ & _ & H). inv_ok H.
  exists f, o. auto.
Qed.

Lemma Ellipse_draw_ok st (center : pt) size rotation s n s' :
  Ellipse_draw tape st center size rotation s = (Ok n, s') ->
  exists f o,
    random_choice (fill_options st) s = (Ok f, S s) /\
    random_choice (opacity_options st) (S s) = (Ok o, S (S s)) /\
    s' = S (S s) /\
    n = turned (dwg_ellipse center (fdiv size (of_int 2), fdiv size (of_int 4)) f o)
               rotation center.
Proof.
  unfold Ellipse_draw. intros H.
  apply styled_ok in H as (f & o & Hf & Ho & _ & _ & H). inv_ok H.
  exists f, o. auto.
Qed.

Lemma Circle_draw_ok st (center : pt) size rotation s n s' :
  Circle_draw tape st center size rotation s = (Ok n, s') ->
  exists f o,
    random_choice (fill_options st) s = (Ok f, S s) /\
    random_choice (opacity_options st) (S s) = (Ok o, S (S s)) /\
    s' = S (S s) /\
    n = dwg_circle center (fdiv size (of_int 2)) f o.
Proof.
  unfold Circle_draw. intros H.
  apply styled_ok in H as (f & o & Hf & Ho & _ & _ & H). inv_ok H.
  exists f, o. auto.
Qed.

Lemma Polygon_draw_ok dc st vc ce (center : pt) size rotation s n s' :
  Polygon_draw tape dc st vc ce center size rotation s = (Ok n, s') ->
  exists f o,
    random_choice (fill_options st) s = (Ok f, S s) /\
    random_choice (opacity_options st) (S s) = (Ok o, S (S s)) /\
    In f (fill_options st) /\ In o (opacity_options st) /\
    match ce with
    | None =>
        n = turned (polygon_shape vc center size f o) rotation center /\
        s' = S (S s)
    | Some c =>
        exists cc,
          dc center c (S (S s)) = (Ok cc, s') /\
          n = Group [turned (polygon_shape vc center size f o) rotation center; cc]
    end.
Proof.
  unfold Polygon_draw. intros H.
  apply styled_ok in H as (f & o & Hf & Ho & If & Io & H).
  exists f, o. repeat (split; [assumption |]).
  destruct ce as [c |].
  - apply bind_ok in H as (cc & s1 & Hcc & H). inv_ok H.
    exists cc. split; [exact Hcc | reflexivity].
  - inv_ok H. split; reflexivity.
Qed.

Lemma draw_child_polygon_ok st vc (v : pt) size rotation s n s' :
  draw_child_polygon tape st vc v size rotation s = (Ok n, s') ->
  exists f o,
    random_choice (fill_options st) s = (Ok f, S s) /\
    random_choice (opacity_options st) (S s) = (Ok o, S (S s)) /\
    s' = S (S s) /\
    n = turned (polygon_shape vc v size f o) rotation v.
Proof.
  unfold draw_child_polygon. intros H.
  apply styled_ok in H as (f & o & Hf & Ho & _ & _ & H). inv_ok H.
  exists f, o. auto.
Qed.

Lemma PolygonGroup_draw_ok dc st vc ve ce (center : pt) size rotation s n s' :
  PolygonGroup_draw tape dc st vc ve ce center size rotation s = (Ok n, s') ->
  exists f o part kids s1,
    random_choice (fill_options st) s = (Ok f, S s) /\
    random_choice (opacity_options st) (S s) = (Ok o, S (S s)) /\
    n = Group (polygon_shape vc center size f o :: part ++ kids) /\
    center_part dc ce center (S (S s)) part s1 /\
    match ve with
    | Some v =>
        if String.eqb v "circle" then
          chained (fun p s k s' => dc p "circle"%string s = (Ok k, s'))
            (firstn (Z.to_nat vc) (polygon_points vc center size)) kids s1 s'
        else if String.eqb v "polygon" then
          chained (fun p s k s' =>
                     draw_child_polygon tape st vc p size rotation s = (Ok k, s'))
            (firstn (Z.to_nat vc) (polygon_points vc center size)) kids s1 s'
        else kids = [] /\ s' = s1
    | None => kids = [] /\ s' = s1
    end.
Proof.
  unfold PolygonGroup_draw. intros H.
  apply styled_ok in H as (f & o & Hf & Ho & _ & _ & H).
  apply bind_ok in H as (g & s1 & Hg & H).
  assert (Hpart : exists part,
             g = Group (polygon_shape vc center size f o :: part) /\
             center_part dc ce center (S (S s)) part s1).
  { destruct ce as [c |]; simpl.
    - apply bind_ok in Hg as (cc & s2 & Hcc & Hg). inv_ok Hg.
      exists [cc]. split; [reflexivity |]. exists cc. auto.
    - inv_ok Hg. exists []. auto. }
  destruct Hpart as (part & -> & Hpart).
  exists f, o, part.
  destruct ve as [v |].
  - destruct (String.eqb v "circle").
    + apply vertex_loop_ok in H as (kids & -> & Hk).
      exists kids, s1. simpl. auto 6.
    + destruct (String.eqb v "polygon").
      * apply vertex_loop_ok in H as (kids & -> & Hk).
        exists kids, s1. simpl. auto 6.
      * inv_ok H. exists [], s'. rewrite app_nil_r. auto 7.
  - inv_ok H. exists [], s'. rewrite app_nil_r. auto 7.
Qed.

(** ** Nested draws *)

Lemma find_component_ok (components : @Registry num) id s c s' :
  find_component components id s = (Ok c, s') ->
  lookup id components = Some (Some c) /\ s' = s.
Proof.
  unfold find_component. destruct (lookup id components) as [[c0 |] |];
    intros H; inversion H; auto.
Qed.

Lemma find_component_found (components : @Registry num) id c s :
  lookup id components = Some (Some c) ->
  find_component components id s = (Ok c, s).
Proof. unfold find_component. intros ->. reflexivity. Qed.

Lemma draw_component_ok fuel params (center : pt) id s n s' :
  draw_component tape fuel params center id s = (Ok n, s') ->
  drawn_from_registry tape fuel params center id s n s'.
Proof.
  destruct fuel as [| fuel]; simpl; intros H; [discriminate H |].
  apply bind_ok in H as (components & s1 & Hparse & H).
  apply bind_ok in H as (c & s2 & Hfind & H).
  apply find_component_ok in Hfind as [Hfind ->].
  apply bind_ok in H as (size & s3 & Hsize & H).
  apply bind_ok in H as (rotation & s4 & Hrot & H).
  apply random_choice_ok in Hsize as (Isize & -> & Hsize).
  apply random_choice_ok in Hrot as (Irot & -> & Hrot).
  exists fuel, components, c, size, rotation, s1. auto 10.
Qed.

Lemma draw_top_ok fuel params (components : @Registry num) id s n s' :
  draw_top tape fuel params components id s = (Ok n, s') ->
  drawn_at_top tape fuel params components id s n s'.
Proof.
  unfold draw_top. intros H.
  apply bind_ok in H as (c & s2 & Hfind & H).
  apply find_component_ok in Hfind as [Hfind ->].
  apply bind_ok in H as (size & s3 & Hsize & H).
  apply bind_ok in H as (rotation & s4 & Hrot & H).
  apply random_choice_ok in Hsize as (Isize & -> & Hsize).
  apply random_choice_ok in Hrot as (Irot & -> & Hrot).
  exists c, size, rotation. auto 10.
Qed.

(** ** Rotation transforms *)

(** The rotation of the shape a [draw] has returned. *)
Lemma rotation_of_drawn_shape dc (c : @Component num) (center : pt)
    size rotation s n s' :
  draw tape dc c center size rotation s = (Ok n, s') ->
  match c with
  | Rect _ _ | Ellipse _ _ =>
      transform (primitive n) = (if nonzero rotation then [(rotation, center)] else [])
      /\ (transform (primitive n) <> [] <-> nonzero rotation = true)
  | Polygon _ _ vc _ =>
      points (primitive n) = polygon_points vc center size
      /\ transform (primitive n)
         = (if nonzero rotation then [(rotation, center)] else [])
      /\ (transform (primitive n) <> [] <-> nonzero rotation = true)
  | PolygonGroup _ _ vc _ _ =>
      points (primitive n) = polygon_points vc center size
      /\ transform (primitive n) = []
  | Circle _ _ => transform (primitive n) = []
  end.
Proof.
  assert (Iff : forall t : list (num * pt),
             t = (if nonzero rotation then [(rotation, center)] else []) ->
             (t <> [] <-> nonzero rotation = true)).
  { intros t ->. destruct (nonzero rotation); split; congruence. }
  destruct c as [id st | id st | id st | id st vc ce | id st vc ve ce]; simpl; intros H.
  - apply Circle_draw_ok in H as (f & o & _ & _ & _ & ->). reflexivity.
  - apply Rect_draw_ok in H as (f & o & _ & _ & _ & ->).
    unfold dwg_rect. cbn [primitive].
    assert (E : forall g (f : string) (o : num) t r (c : pt),
               primitive (turned (Shape g f o t) r c) = turned (Shape g f o t) r c)
      by (intros; unfold turned; destruct (nonzero r); reflexivity).
    rewrite E, transform_turned. split; [reflexivity | now apply Iff].
  - apply Ellipse_draw_ok in H as (f & o & _ & _ & _ & ->).
    unfold dwg_ellipse.
    assert (E : forall g (f : string) (o : num) t r (c : pt),
               primitive (turned (Shape g f o t) r c) = turned (Shape g f o t) r c)
      by (intros; unfold turned; destruct (nonzero r); reflexivity).
    rewrite E, transform_turned. split; [reflexivity | now apply Iff].
  - apply Polygon_draw_ok in H as (f & o & _ & _ & _ & _ & H).
    assert (E : primitive n = turned (polygon_shape vc center size f o) rotation center).
    { destruct ce as [c |].
      - destruct H as (cc & _ & ->). reflexivity.
      - destruct H as [-> _]. unfold turned, polygon_shape, dwg_polygon.
        destruct (nonzero rotation); reflexivity. }
    rewrite E. unfold polygon_shape at 1. rewrite points_turned.
    unfold polygon_shape, dwg_polygon. rewrite transform_turned.
    repeat split; try reflexivity; now apply Iff.
  - apply PolygonGroup_draw_ok in H as (f & o & part & kids & s1 & _ & _ & -> & _).
    split; reflexivity.
Qed.

(** ** Center element of a polygon *)

(** C3. A [Polygon] built without a center element draws the bare polygon
    shape (and does so whenever its fill and opacity options are not
    empty).  Built with center element [c], a successful draw returns the
    group of exactly the polygon, then the registry component [c] drawn at
    the same center with its own freshly resolved size and rotation. *)
Theorem Polygon_draw_center_element fuel params id st vc ce (center : pt)
    size rotation s :
  (ce = None ->
   fill_options st <> [] -> opacity_options st <> [] ->
   exists f o,
     In f (fill_options st) /\ In o (opacity_options st) /\
     draw tape (draw_component tape fuel params) (Polygon id st vc ce)
          center size rotation s
     = (Ok (turned (polygon_shape vc center size f o) rotation center), S (S s)))
  /\
  (forall c n s',
     ce = Some c ->
     draw tape (draw_component tape fuel params) (Polygon id st vc ce)
          center size rotation s = (Ok n, s') ->
     exists f o cc,
       In f (fill_options st) /\ In o (opacity_options st) /\
       n = Group [turned (polygon_shape vc center size f o) rotation center; cc] /\
       drawn_from_registry tape fuel params center c (S (S s)) cc s').
Proof.
  split.
  - intros -> Hf Ho. simpl. unfold Polygon_draw.
    destruct (random_choice_nonempty s Hf) as (f & Ef & If).
    destruct (random_choice_nonempty (S s) Ho) as (o & Eo & Io).
    exists f, o. repeat (split; [assumption |]).
    rewrite (bind_step _ _ _ Ef), (bind_step _ _ _ Eo). reflexivity.
  - intros c n s' -> H. simpl in H.
    apply Polygon_draw_ok in H as (f & o & _ & _ & If & Io & cc & Hcc & ->).
    exists f, o, cc. repeat (split; [assumption || reflexivity |]).
    apply draw_component_ok, Hcc.
Qed.

(** ** Vertex elements of a polygon group *)

(** C4. A [PolygonGroup] whose vertex elements are ["circle"] returns a
    group made of the outer polygon, the optional center element, then
    exactly [vertex_count] children: one per vertex among the first
    [vertex_count] computed vertices, in order, each the registry component
    with the fixed id ["circle"] drawn at that vertex with its own freshly
    resolved size and rotation. *)
Theorem PolygonGroup_circle_children fuel params id st vc ce (center : pt)
    size rotation s n s' :
  draw tape (draw_component tape fuel params)
       (PolygonGroup id st vc (Some "circle"%string) ce)
       center size rotation s = (Ok n, s') ->
  exists f o part kids s1,
    n = Group (polygon_shape vc center size f o :: part ++ kids) /\
    center_part (draw_component tape fuel params) ce center (S (S s)) part s1 /\
    List.length kids = Z.to_nat vc /\
    chained (fun v s k s' =>
               drawn_from_registry tape fuel params v "circle"%string s k s')
            (firstn (Z.to_nat vc) (polygon_points vc center size)) kids s1 s' /\
    exists closing,
      polygon_points vc center size
      = firstn (Z.to_nat vc) (polygon_points vc center size) ++ [closing].
Proof.
  simpl. intros H.
  apply PolygonGroup_draw_ok in H as (f & o & part & kids & s1 & _ & _ & -> & Hp & Hk).
  simpl in Hk.
  exists f, o, part, kids, s1. split; [reflexivity |]. split; [exact Hp |].
  split; [| split].
  - apply chained_length in Hk. rewrite <- Hk.
    apply firstn_polygon_points_length.
  - eapply chained_impl; [| exact Hk].
    intros v s2 k s3 Hv. apply draw_component_ok, Hv.
  - apply polygon_points_closing.
Qed.

(** C5, as the code has it.  A [PolygonGroup] whose vertex elements are
    ["polygon"] appends exactly [vertex_count] child polygons, one centered
    at each of the first [vertex_count] computed vertices, in order.  Each
    child has the parent's vertex count and the size and rotation passed to
    the parent call, carries a rotation about its own center if and only
    if that rotation is nonzero, and takes its fill and its opacity from
    the parent's style options by a resolution of its own. *)
Theorem PolygonGroup_polygon_children dc id st vc ce (center : pt)
    size rotation s n s' :
  draw tape dc (PolygonGroup id st vc (Some "polygon"%string) ce)
       center size rotation s = (Ok n, s') ->
  exists f o part kids s1,
    n = Group (polygon_shape vc center size f o :: part ++ kids) /\
    center_part dc ce center (S (S s)) part s1 /\
    List.length kids = Z.to_nat vc /\
    chained (child_polygon_at tape st vc size rotation)
            (firstn (Z.to_nat vc) (polygon_points vc center size)) kids s1 s' /\
    exists closing,
      polygon_points vc center size
      = firstn (Z.to_nat vc) (polygon_points vc center size) ++ [closing].
Proof.
  simpl. intros H.
  apply PolygonGroup_draw_ok in H as (f & o & part & kids & s1 & _ & _ & -> & Hp & Hk).
  simpl in Hk.
  exists f, o, part, kids, s1. split; [reflexivity |]. split; [exact Hp |].
  split; [| split; [| apply polygon_points_closing]].
  - apply chained_length in Hk. rewrite <- Hk.
    apply firstn_polygon_points_length.
  - eapply chained_impl; [| exact Hk].
    intros v s2 k s3 Hv.
    apply draw_child_polygon_ok in Hv as (f' & o' & Hf & Ho & -> & ->).
    exists f', o'. unfold polygon_shape at 1.
    rewrite points_turned.
    unfold polygon_shape, dwg_polygon.
    rewrite transform_turned.
    destruct (fill_turned (GPolygon (polygon_points vc v size)) f' o' [] rotation v)
      as [-> ->].
    auto 8.
Qed.

(** ** The registry and the references of its instances *)

Lemma In_some_ids i l : In (Some i) l -> In i (some_ids l).
Proof.
  intros H. unfold some_ids. apply in_flat_map. exists (Some i).
  split; [exact H | now left].
Qed.

Lemma create_component_calls (p : @Params num) s c s' :
  create_component tape p s = (Ok (Some c), s') -> incl (calls c) (refs p).
Proof.
  unfold create_component, refs.
  destruct (String.eqb (p_type p) "Circle") eqn:E1;
    [intros H; inv_ok H; injection H as <-; intros r [] |].
  destruct (String.eqb (p_type p) "Rect") eqn:E2;
    [intros H; inv_ok H; injection H as <-; intros r [] |].
  destruct (String.eqb (p_type p) "Ellipse") eqn:E3;
    [intros H; inv_ok H; injection H as <-; intros r [] |].
  destruct (String.eqb (p_type p) "Polygon") eqn:E4.
  - intros H.
    apply bind_ok in H as (vcs & s1 & Hvcs & H).
    apply bind_ok in H as (ces & s2 & Hces & H).
    apply bind_ok in H as (c0 & s3 & Hinit & H). inv_ok H. injection H as <-.
    unfold getkey in Hces. destruct (p_center_elements p) as [ces' |];
      [| discriminate Hces]. inv_ok Hces.
    unfold Polygon_init in Hinit.
    apply bind_ok in Hinit as (vc & s4 & Hvc & Hinit).
    apply bind_ok in Hinit as (ce & s5 & Hce & Hinit). inv_ok Hinit.
    apply random_choice_ok in Hce as (Ice & _).
    destruct ce as [ce |]; intros r Hr; simpl in Hr; [| contradiction].
    destruct Hr as [<- | []]. now apply In_some_ids.
  - destruct (String.eqb (p_type p) "PolygonGroup") eqn:E5;
      [| intros H; inv_ok H; discriminate].
    intros H.
    apply bind_ok in H as (vcs & s1 & Hvcs & H).
    apply bind_ok in H as (ves & s2 & Hves & H).
    apply bind_ok in H as (ces & s3 & Hces & H).
    apply bind_ok in H as (c0 & s4 & Hinit & H). inv_ok H. injection H as <-.
    unfold getkey in Hces, Hves.
    destruct (p_center_elements p) as [ces' |]; [| discriminate Hces].
    destruct (p_vertex_elements p) as [ves' |]; [| discriminate Hves].
    inv_ok Hces. inv_ok Hves.
    unfold PolygonGroup_init in Hinit.
    apply bind_ok in Hinit as (vc & s5 & Hvc & Hinit).
    apply bind_ok in Hinit as (ve & s6 & Hve & Hinit).
    apply bind_ok in Hinit as (ce & s7 & Hce & Hinit). inv_ok Hinit.
    apply random_choice_ok in Hce as (Ice & _).
    apply random_choice_ok in Hve as (Ive & _).
    intros r Hr. simpl in Hr. apply in_app_iff in Hr as [Hr | Hr].
    + apply in_app_iff. left. destruct ce as [ce |]; [| contradiction].
      destruct Hr as [<- | []]. now apply In_some_ids.
    + apply in_app_iff. right. destruct ve as [v |]; [| contradiction].
      destruct (String.eqb v "circle") eqn:Ev; [| contradiction].
      destruct Hr as [<- | []].
      replace (existsb _ ves) with true; [now left |].
      symmetry. apply existsb_exists. exists (Some v). split; assumption.
Qed.

Lemma build_components_lookup (defs : list (string * @Params num)) s comps s' id c :
  build_components tape defs s = (Ok comps, s') ->
  lookup id comps = Some (Some c) ->
  exists p, lookup id defs = Some p /\ incl (calls c) (refs p).
Proof.
  revert s comps. induction defs as [| [key value] defs IH]; intros s comps H L.
  - simpl in H. inv_ok H. discriminate L.
  - simpl in H.
    apply bind_ok in H as (c0 & s1 & Hc & H).
    apply bind_ok in H as (cs & s2 & Hcs & H). inv_ok H.
    simpl in L. simpl. destruct (String.eqb id key).
    + injection L as ->. exists value. split; [reflexivity |].
      eapply create_component_calls, Hc.
    + eapply IH; eassumption.
Qed.

(** ** Stack exhaustion comes from nested draws only *)

Lemma bind_no_overflow {A B} (m : M A) (f : A -> M B) s :
  fst (m s) <> Raise RecursionError ->
  (forall a s1, m s = (Ok a, s1) -> fst (f a s1) <> Raise RecursionError) ->
  fst (bind m f s) <> Raise RecursionError.
Proof.
  unfold bind. destruct (m s) as [[a | e] s1]; simpl; intros Hm Hf.
  - now apply Hf.
  - intros E. apply Hm. now inversion E.
Qed.

Lemma random_choice_no_overflow {A} (options : list A) s :
  fst (random_choice options s) <> Raise RecursionError.
Proof. destruct options; simpl; discriminate. Qed.

Lemma getitem_no_overflow {A} (l : list A) i s :
  fst (getitem l i s) <> Raise RecursionError.
Proof. unfold getitem. destruct (nth_error l i); simpl; discriminate. Qed.

Lemma getkey_no_overflow {A} key (field : option A) s :
  fst (getkey key field s) <> Raise RecursionError.
Proof. unfold getkey. destruct field; simpl; discriminate. Qed.

Lemma ret_no_overflow {A} (a : A) s : fst (ret a s) <> Raise RecursionError.
Proof. simpl. discriminate. Qed.

Lemma for_each_no_overflow {A B} (xs : list A) (body : A -> B -> M B) :
  (forall x acc s, fst (body x acc s) <> Raise RecursionError) ->
  forall acc s, fst (for_each xs body acc s) <> Raise RecursionError.
Proof.
  intros Hb. induction xs as [| x xs IH]; intros acc s; simpl.
  - discriminate.
  - apply bind_no_overflow; [apply Hb | intros; apply IH].
Qed.

Create HintDb overflow.

#[local] Hint Resolve random_choice_no_overflow getitem_no_overflow
  getkey_no_overflow ret_no_overflow : overflow.

Ltac no_overflow :=
  repeat first
    [ apply bind_no_overflow; [| intros ? ? ?]
    | apply for_each_no_overflow; intros ? ? ?
    | solve [auto with overflow] ].

Lemma create_component_no_overflow (p : @Params num) s :
  fst (create_component tape p s) <> Raise RecursionError.
Proof.
  unfold create_component, Polygon_init, PolygonGroup_init.
  repeat match goal with
         | |- context [if ?b then _ else _] => destruct b
         end; no_overflow.
Qed.

Lemma build_components_no_overflow (defs : list (string * @Params num)) s :
  fst (build_components tape defs s) <> Raise RecursionError.
Proof.
  revert s. induction defs as [| [key value] defs IH]; intros s; simpl.
  - discriminate.
  - apply bind_no_overflow; [apply create_component_no_overflow | intros].
    apply bind_no_overflow; [apply IH | intros; discriminate].
Qed.

Lemma find_component_no_overflow (components : @Registry num) id s :
  fst (find_component components id s) <> Raise RecursionError.
Proof.
  unfold find_component. destruct (lookup id components) as [[c |] |];
    simpl; discriminate.
Qed.

Lemma draw_no_overflow dc (c : @Component num) (center : pt) size rotation s :
  (forall r v s, In r (calls c) -> fst (dc v r s) <> Raise RecursionError) ->
  fst (draw tape dc c center size rotation s) <> Raise RecursionError.
Proof.
  intros Hdc.
  destruct c as [id st | id st | id st | id st vc ce | id st vc ve ce]; simpl.
  - unfold Circle_draw. no_overflow.
  - unfold Rect_draw. destruct center. no_overflow.
  - unfold Ellipse_draw. no_overflow.
  - unfold Polygon_draw. no_overflow.
    destruct ce as [c |]; no_overflow. apply Hdc. now left.
  - unfold PolygonGroup_draw, draw_child_polygon. no_overflow.
    + destruct ce as [c |]; no_overflow. apply Hdc. simpl. now left.
    + destruct ve as [v |]; no_overflow.
      destruct (String.eqb v "circle") eqn:Ev.
      * no_overflow. apply Hdc. simpl. rewrite Ev.
        apply in_app_iff. right. now left.
      * destruct (String.eqb v "polygon"); no_overflow.
Qed.

(** Nested draws that agree give the same drawing. *)
Lemma bind_cong {A B} (m : M A) (f g : A -> M B) s :
  (forall a s1, m s = (Ok a, s1) -> f a s1 = g a s1) ->
  bind m f s = bind m g s.
Proof.
  unfold bind. destruct (m s) as [[a | e] s1]; intros H; [now apply H | reflexivity].
Qed.

Lemma bind_cong2 {A B} (m m' : M A) (f g : A -> M B) s :
  m s = m' s ->
  (forall a s1, m' s = (Ok a, s1) -> f a s1 = g a s1) ->
  bind m f s = bind m' g s.
Proof.
  unfold bind. intros ->. destruct (m' s) as [[a | e] s1]; intros H;
    [now apply H | reflexivity].
Qed.

Lemma for_each_cong {A B} (xs : list A) (body body' : A -> B -> M B) :
  (forall x acc s, body x acc s = body' x acc s) ->
  forall acc s, for_each xs body acc s = for_each xs body' acc s.
Proof.
  intros Hb. induction xs as [| x xs IH]; intros acc s; simpl; [reflexivity |].
  unfold bind. rewrite Hb. destruct (body' x acc s) as [[a | e] s1];
    [apply IH | reflexivity].
Qed.

Lemma draw_cong dc dc' (c : @Component num) (center : pt) size rotation s :
  (forall r v s, In r (calls c) -> dc v r s = dc' v r s) ->
  draw tape dc c center size rotation s = draw tape dc' c center size rotation s.
Proof.
  intros Hdc.
  destruct c as [id st | id st | id st | id st vc ce | id st vc ve ce]; simpl;
    try reflexivity.
  - unfold Polygon_draw.
    apply bind_cong; intros f s1 _. apply bind_cong; intros o s2 _.
    destruct ce as [c |]; [| reflexivity].
    unfold bind. rewrite Hdc by now left. reflexivity.
  - unfold PolygonGroup_draw.
    apply bind_cong; intros f s1 _. apply bind_cong; intros o s2 _.
    assert (E : forall g0,
               match ce with
               | Some c0 => center_component <- dc center c0 ;;
                            ret (add g0 center_component)
               | None => ret g0
               end s2
               = match ce with
                 | Some c0 => center_component <- dc' center c0 ;;
                              ret (add g0 center_component)
                 | None => ret g0
                 end s2).
    { intros g0. destruct ce as [c |]; [| reflexivity].
      unfold bind. rewrite Hdc by (simpl; now left). reflexivity. }
    apply bind_cong2; [apply E | intros g s3 _].
    destruct ve as [v |]; [| reflexivity].
    destruct (String.eqb v "circle") eqn:Ev; [| reflexivity].
    apply for_each_cong. intros i acc s4.
    apply bind_cong; intros p s5 _.
    unfold bind. rewrite Hdc; [reflexivity |].
    simpl. rewrite Ev. apply in_app_iff. right. now left.
Qed.

(** ** Termination on acyclic configurations *)

Lemma draw_component_stable params rank fuel :
  acyclic params rank ->
  forall fuel' id (center : pt) s,
    rank id < fuel -> rank id < fuel' ->
    fst (draw_component tape fuel params center id s) <> Raise RecursionError /\
    draw_component tape fuel' params center id s
    = draw_component tape fuel params center id s.
Proof.
  intros Hacyc. induction fuel as [| fuel IH]; intros fuel' id center s Hr Hr';
    [lia |].
  destruct fuel' as [| fuel']; [lia |].
  assert (Hcalls : forall comps s1 c r,
             parse_components tape params s = (Ok comps, s1) ->
             lookup id comps = Some (Some c) ->
             In r (calls c) -> rank r < rank id).
  { intros comps s1 c r Hp Hl Hin.
    unfold parse_components in Hp.
    eapply build_components_lookup in Hp as (p & Hdef & Hincl); [| exact Hl].
    eapply Hacyc; [exact Hdef | apply Hincl, Hin]. }
  split.
  - simpl.
    apply bind_no_overflow; [apply build_components_no_overflow |].
    intros comps s1 Hp.
    apply bind_no_overflow; [apply find_component_no_overflow |].
    intros c s2 Hfind. apply find_component_ok in Hfind as [Hl ->].
    no_overflow. apply draw_no_overflow.
    intros r v s3 Hin.
    apply (IH fuel r v s3); specialize (Hcalls _ _ _ _ Hp Hl Hin); lia.
  - simpl.
    apply bind_cong; intros comps s1 Hp.
    apply bind_cong; intros c s2 Hfind.
    apply find_component_ok in Hfind as [Hl ->].
    apply bind_cong; intros size s3 _. apply bind_cong; intros rotation s4 _.
    apply draw_cong. intros r v s5 Hin.
    specialize (Hcalls _ _ _ _ Hp Hl Hin).
    apply (IH fuel' r v s5); lia.
Qed.

(** C6, the part the code has.  On an acyclic configuration graph, of any
    depth, the recursive composition terminates: as soon as the call stack
    holds more activations than the rank of the component, the draw ends
    without exhausting it, and a deeper stack changes nothing of the
    result. *)
Theorem acyclic_composition_terminates params rank fuel id (center : pt) s :
  acyclic params rank ->
  rank id < fuel ->
  fst (draw_component tape fuel params center id s) <> Raise RecursionError /\
  forall fuel', fuel <= fuel' ->
    draw_component tape fuel' params center id s
    = draw_component tape fuel params center id s.
Proof.
  intros Hacyc Hr. split.
  - eapply draw_component_stable; eassumption.
  - intros fuel' Hle.
    eapply draw_component_stable; [eassumption | lia ..].
Qed.

(** ** Empty option sets *)

Lemma styled_fail (st : @Style num) {B} (k : string -> num -> M B) s :
  fill_options st = [] \/ opacity_options st = [] ->
  exists s',
    (fill <- random_choice (fill_options st) ;;
     opacity <- random_choice (opacity_options st) ;; k fill opacity) s
    = (Raise IndexError, s').
Proof.
  intros H. destruct (fill_options st) as [| f fs] eqn:Ef.
  - exists s. reflexivity.
  - destruct H as [H | H]; [discriminate H |].
    exists (S s). unfold bind. rewrite random_choice_cons, H. reflexivity.
Qed.

Lemma draw_empty_style dc (c : @Component num) (center : pt) size rotation s :
  fill_options (style c) = [] \/ opacity_options (style c) = [] ->
  exists s', draw tape dc c center size rotation s = (Raise IndexError, s').
Proof.
  intros H.
  destruct c as [id st | id st | id st | id st vc ce | id st vc ve ce]; simpl in *.
  - now apply styled_fail.
  - unfold Rect_draw. destruct center. now apply styled_fail.
  - now apply styled_fail.
  - now apply styled_fail.
  - now apply styled_fail.
Qed.

(** The four resolutions a caller and the callee make, in their order. *)
Lemma resolve_and_draw_fail dc (c : @Component num) (center : pt) s :
  has_empty_option (style c) ->
  exists s',
    (size_option <- random_choice (size_options (style c)) ;;
     rotation_option <- random_choice (rotation_options (style c)) ;;
     draw tape dc c center size_option rotation_option) s
    = (Raise IndexError, s').
Proof.
  intros H. destruct (size_options (style c)) as [| z zs] eqn:Ez.
  - exists s. reflexivity.
  - destruct (rotation_options (style c)) as [| r rs] eqn:Er.
    + exists (S s). unfold bind. rewrite random_choice_cons. reflexivity.
    + unfold bind. rewrite !random_choice_cons.
      apply draw_empty_style.
      destruct H as [H | [H | H]]; [congruence | congruence | exact H].
Qed.

Lemma draw_top_found fuel params (components : @Registry num) id c s :
  lookup id components = Some (Some c) ->
  draw_top tape fuel params components id s
  = (size_option <- random_choice (size_options (style c)) ;;
     rotation_option <- random_choice (rotation_options (style c)) ;;
     draw tape (draw_component tape fuel params) c (canvas_center params)
          size_option rotation_option) s.
Proof.
  intros Hl. unfold draw_top.
  now rewrite (bind_step _ _ _ (find_component_found _ _ s Hl)).
Qed.

Lemma draw_component_found fuel params (components : @Registry num)
    (center : pt) id c s0 s :
  parse_components tape params s0 = (Ok components, s) ->
  lookup id components = Some (Some c) ->
  draw_component tape (S fuel) params center id s0
  = (size_option <- random_choice (size_options (style c)) ;;
     rotation_option <- random_choice (rotation_options (style c)) ;;
     draw tape (draw_component tape fuel params) c center
          size_option rotation_option) s.
Proof.
  intros Hp Hl. simpl.
  rewrite (bind_step _ _ _ Hp).
  now rewrite (bind_step _ _ _ (find_component_found _ _ s Hl)).
Qed.

(** ** What an instance fixes and what each draw resolves *)

Lemma elements_turned g f o t rotation (center : pt) :
  elements (turned (Shape g f o t) rotation center) = [] /\
  primitive (turned (Shape g f o t) rotation center)
  = turned (Shape g f o t) rotation center.
Proof. unfold turned. destruct (nonzero rotation); split; reflexivity. Qed.

Lemma center_part_length dc ce (center : pt) s part s' :
  center_part dc ce center s part s' ->
  List.length part = match ce with Some _ => 1 | None => 0 end.
Proof.
  unfold center_part. destruct ce as [c |].
  - intros (cc & _ & ->). reflexivity.
  - intros [-> _]. reflexivity.
Qed.

Lemma draw_instance_facts dc (c : @Component num) vc (center : pt)
    size rotation s n s' :
  vertex_count_of c = Some vc ->
  draw tape dc c center size rotation s = (Ok n, s') ->
  exists f o,
    random_choice (fill_options (style c)) s = (Ok f, S s) /\
    random_choice (opacity_options (style c)) (S s) = (Ok o, S (S s)) /\
    points (primitive n) = polygon_points vc center size /\
    fill (primitive n) = Some f /\ opacity (primitive n) = Some o /\
    List.length (elements n) = group_size c.
Proof.
  destruct c as [id st | id st | id st | id st vc0 ce | id st vc0 ve ce]; simpl;
    try discriminate; intros E H; injection E as ->.
  - apply Polygon_draw_ok in H as (f & o & Hf & Ho & _ & _ & H).
    exists f, o. repeat (split; [assumption |]).
    unfold polygon_shape, dwg_polygon in H.
    destruct (elements_turned (GPolygon (polygon_points vc center size)) f o []
                rotation center) as [Ee Ep].
    destruct (fill_turned (GPolygon (polygon_points vc center size)) f o []
                rotation center) as [Ff Fo].
    pose proof (points_turned (polygon_points vc center size) f o rotation center)
      as Pp. unfold dwg_polygon in Pp.
    destruct ce as [c |].
    + destruct H as (cc & _ & ->). cbn [primitive elements]. auto.
    + destruct H as [-> _]. rewrite Ep, Ee. auto.
  - apply PolygonGroup_draw_ok in H
      as (f & o & part & kids & s1 & Hf & Ho & -> & Hp & Hk).
    exists f, o. repeat (split; [assumption |]).
    cbn [primitive elements]. repeat (split; [reflexivity |]).
    simpl. rewrite length_app, (center_part_length _ _ _ _ _ _ Hp). f_equal.
    f_equal. destruct ve as [v |].
    + destruct (String.eqb v "circle"); simpl.
      * apply chained_length in Hk. rewrite <- Hk.
        apply firstn_polygon_points_length.
      * destruct (String.eqb v "polygon"); simpl.
        -- apply chained_length in Hk. rewrite <- Hk.
           apply firstn_polygon_points_length.
        -- destruct Hk as [-> _]. reflexivity.
    + destruct Hk as [-> _]. reflexivity.
Qed.

(** ** Scene assembler *)

Lemma main_loop_scene fuel params (components : @Registry num) ids elems s :
  exists done new s1,
    scene (main_loop tape fuel params components ids elems s) = elems ++ new /\
    chained (drawn_at_top tape fuel params components) done new s s1 /\
    match outcome (main_loop tape fuel params components ids elems s) with
    | Ok _ =>
        done = ids /\
        s1 = cursor (main_loop tape fuel params components ids elems s)
    | Raise e =>
        exists failing rest,
          ids = done ++ failing :: rest /\
          draw_top tape fuel params components failing s1
          = (Raise e, cursor (main_loop tape fuel params components ids elems s))
    end.
Proof.
  revert elems s. induction ids as [| id ids IH]; intros elems s; simpl.
  - exists [], [], s. rewrite app_nil_r. simpl. auto.
  - destruct (draw_top tape fuel params components id s) as [[n | e] s2] eqn:E.
    + destruct (IH (elems ++ [n]) s2) as (done & new & s1 & Hs & Hc & Ho).
      exists (id :: done), (n :: new), s1.
      rewrite Hs, <- app_assoc. split; [reflexivity |].
      split; [exists s2; split; [apply draw_top_ok, E | exact Hc] |].
      destruct (outcome (main_loop tape fuel params components ids (elems ++ [n]) s2)).
      * destruct Ho as [-> ->]. auto.
      * destruct Ho as (failing & rest & -> & Hf).
        exists failing, rest. auto.
    + exists [], [], s. rewrite app_nil_r. simpl.
      repeat (split; [reflexivity |]). exists id, ids. auto.
Qed.

End Properties.
(** * The claims that need the whole draw

    Progress of a [draw], the order of the cursor, the calls of a run. *)

Unset Implicit Arguments.

(** ** Regular polygon vertices *)

Section Vertices.

Context {num : Type} {ops : FloatOps num}.

(** C1, as the code has it.  For [vertex_count >= 3] the vertex
    computation yields exactly [vertex_count + 1] points, in every
    arithmetic: the local points start at the seed [(0, size * 0.5)], each
    next one is the previous one rotated by [360 / vertex_count] degrees,
    in radians, about the origin with both coordinates rounded to seven
    decimals before they enter the next rotation, and every point is then
    translated by the center, coordinate by coordinate.  The first point
    is the translated seed and the last one the translated seed after
    [vertex_count] rounded rotations; nothing bounds the gap between the
    two. *)
Theorem polygon_vertex_computation (vc : Z) (center : @Point num) (size : num) :
  (3 <= vc)%Z ->
  let theta := fmul (fdiv (of_int 360) (of_int vc)) (fdiv fpi (of_int 180)) in
  let seed := (of_int 0, fmul size half) in
  let shifted := fun p : @Point num =>
    (fadd (fst p) (fst center), fadd (snd p) (snd center)) in
  Z.of_nat (List.length (polygon_points vc center size)) = (vc + 1)%Z /\
  nth_error (local_points vc size) 0 = Some seed /\
  (forall i p,
     i < Z.to_nat vc ->
     nth_error (local_points vc size) i = Some p ->
     nth_error (local_points vc size) (S i)
     = Some (round7 (fsub (fmul (fst p) (fcos (fneg theta)))
                          (fmul (snd p) (fsin (fneg theta)))),
             round7 (fadd (fmul (fst p) (fsin (fneg theta)))
                          (fmul (snd p) (fcos (fneg theta)))))) /\
  (forall i,
     nth_error (polygon_points vc center size) i
     = option_map shifted (nth_error (local_points vc size) i)) /\
  nth_error (polygon_points vc center size) 0 = Some (shifted seed) /\
  nth_error (polygon_points vc center size) (Z.to_nat vc)
  = Some (shifted (vertex (Z.to_nat vc) theta seed)).
Proof.
  intros Hvc theta seed shifted.
  split; [rewrite polygon_points_length; lia |].
  split; [apply local_points_seed |].
  split; [intros i p Hi Hp; apply (local_points_next _ _ Hi Hp) |].
  split; [intros i; apply polygon_points_nth |].
  split.
  - rewrite polygon_points_nth, local_points_seed. reflexivity.
  - rewrite polygon_points_vertex by lia. reflexivity.
Qed.

End Vertices.

(** ** Rotation transforms *)

Section OwnShape.

Context {num : Type} {ops : FloatOps num}.
Variable tape : nat -> nat.
Abbreviation pt := (@Point num).

Lemma styled_run (st : @Style num) {B} (k : string -> num -> M B) s :
  fill_options st <> [] -> opacity_options st <> [] ->
  exists f o,
    In f (fill_options st) /\ In o (opacity_options st) /\
    random_choice tape (fill_options st) s = (Ok f, S s) /\
    random_choice tape (opacity_options st) (S s) = (Ok o, S (S s)) /\
    (fill <- random_choice tape (fill_options st) ;;
     opacity <- random_choice tape (opacity_options st) ;; k fill opacity) s
    = k f o (S (S s)).
Proof.
  intros Hf Ho.
  destruct (random_choice_nonempty tape s Hf) as (f & Ef & If).
  destruct (random_choice_nonempty tape (S s) Ho) as (o & Eo & Io).
  exists f, o. repeat (split; [assumption |]).
  unfold bind. now rewrite Ef, Eo.
Qed.

(** A vertex loop that raises: one of the children raised, or an index
    was out of range. *)
Lemma vertex_loop_raise (K : pt -> M (@Node num)) (pts : list pt) k a g s e s' :
  a + k <= List.length pts ->
  for_each (seq a k)
    (fun i g => v <- getitem pts i ;; child <- K v ;; ret (add g child)) g s
  = (Raise e, s') ->
  exists v s1, K v s1 = (Raise e, s').
Proof.
  revert a g s. induction k as [| k IH]; intros a g s Hlen H; simpl in H;
    [discriminate H |].
  destruct (nth_error pts a) as [v |] eqn:Ev;
    [| apply nth_error_None in Ev; lia].
  unfold bind at 1 in H. unfold bind at 1 in H. unfold getitem in H.
  rewrite Ev in H. unfold ret at 1 in H.
  destruct (K v s) as [[child | e1] s1] eqn:Ek.
  - unfold bind at 1 in H. rewrite Ek in H. unfold ret at 1 in H.
    apply (IH (S a) _ s1 ltac:(lia) H).
  - unfold bind at 1 in H. rewrite Ek in H. exists v, s. now rewrite Ek.
Qed.

Lemma draw_child_polygon_total st vc (v : pt) size rotation s :
  fill_options st <> [] -> opacity_options st <> [] ->
  exists n, draw_child_polygon tape st vc v size rotation s = (Ok n, S (S s)).
Proof.
  intros Hf Ho. unfold draw_child_polygon.
  destruct (styled_run st
              (fun fill opacity =>
                 ret (if nonzero rotation
                      then rotate (dwg_polygon (polygon_points vc v size) fill opacity)
                                  rotation v
                      else dwg_polygon (polygon_points vc v size) fill opacity))
              s Hf Ho) as (f & o & _ & _ & _ & _ & E).
  rewrite E. eexists. reflexivity.
Qed.

(** A [draw] whose own fill and opacity resolve can only fail in a nested
    draw: the exception it ends with was raised by a call of [dc] on one of
    the ids the instance refers to. *)
Lemma draw_raise_nested dc (c : @Component num) (center : pt) size rotation s e s' :
  fill_options (style c) <> [] -> opacity_options (style c) <> [] ->
  draw tape dc c center size rotation s = (Raise e, s') ->
  exists v id s1, In id (calls c) /\ dc v id s1 = (Raise e, s').
Proof.
  intros Hf Ho H.
  destruct c as [id st | id st | id st | id st vc ce | id st vc ve ce];
    cbn [draw style] in *.
  - unfold Circle_draw in H.
    destruct (styled_run st (fun f o => ret (dwg_circle center (fdiv size (of_int 2)) f o))
                s Hf Ho) as (f & o & _ & _ & _ & _ & E).
    rewrite E in H. discriminate H.
  - unfold Rect_draw in H. destruct center as [x y].
    destruct (styled_run st
                (fun f o => ret (if nonzero rotation
                                 then rotate (dwg_rect (fsub x (fdiv size (of_int 2)),
                                                        fsub y (fdiv size (of_int 2)))
                                                       (size, size) f o) rotation (x, y)
                                 else dwg_rect (fsub x (fdiv size (of_int 2)),
                                                fsub y (fdiv size (of_int 2)))
                                               (size, size) f o))
                s Hf Ho) as (f & o & _ & _ & _ & _ & E).
    rewrite E in H. discriminate H.
  - unfold Ellipse_draw in H.
    destruct (styled_run st
                (fun f o => ret (if nonzero rotation
                                 then rotate (dwg_ellipse center
                                                (fdiv size (of_int 2), fdiv size (of_int 4))
                                                f o) rotation center
                                 else dwg_ellipse center
                                        (fdiv size (of_int 2), fdiv size (of_int 4)) f o))
                s Hf Ho) as (f & o & _ & _ & _ & _ & E).
    rewrite E in H. discriminate H.
  - unfold Polygon_draw in H.
    destruct (random_choice_nonempty tape s Hf) as (f & Ef & _).
    destruct (random_choice_nonempty tape (S s) Ho) as (o & Eo & _).
    rewrite (bind_step _ _ _ Ef), (bind_step _ _ _ Eo) in H.
    destruct ce as [c |]; [| discriminate H].
    destruct (dc center c (S (S s))) as [[cc | e1] s1] eqn:Ec.
    + rewrite (bind_step _ _ _ Ec) in H. discriminate H.
    + unfold bind in H. rewrite Ec in H. injection H as -> ->.
      exists center, c, (S (S s)). split; [now left | exact Ec].
  - unfold PolygonGroup_draw in H.
    destruct (random_choice_nonempty tape s Hf) as (f & Ef & _).
    destruct (random_choice_nonempty tape (S s) Ho) as (o & Eo & _).
    rewrite (bind_step _ _ _ Ef), (bind_step _ _ _ Eo) in H.
    cbn [calls].
    assert (Hc : (exists g s1,
                    match ce with
                    | Some c0 =>
                        center_component <- dc center c0 ;;
                        ret (add (add (Group []) (dwg_polygon (polygon_points vc center size) f o))
                                 center_component)
                    | None => ret (add (Group []) (dwg_polygon (polygon_points vc center size) f o))
                    end (S (S s)) = (Ok g, s1)) \/
                 (exists c0, ce = Some c0 /\ dc center c0 (S (S s)) = (Raise e, s') /\
                    match ce with
                    | Some c0 =>
                        center_component <- dc center c0 ;;
                        ret (add (add (Group []) (dwg_polygon (polygon_points vc center size) f o))
                                 center_component)
                    | None => ret (add (Group []) (dwg_polygon (polygon_points vc center size) f o))
                    end (S (S s)) = (Raise e, s')) \/
                 (exists e1 s1, (e1, s1) <> (e, s') /\
                    match ce with
                    | Some c0 =>
                        center_component <- dc center c0 ;;
                        ret (add (add (Group []) (dwg_polygon (polygon_points vc center size) f o))
                                 center_component)
                    | None => ret (add (Group []) (dwg_polygon (polygon_points vc center size) f o))
                    end (S (S s)) = (Raise e1, s1))).
    { destruct ce as [c0 |].
      - destruct (dc center c0 (S (S s))) as [[cc | e1] s1] eqn:Ec.
        + left. eexists. eexists. rewrite (bind_step _ _ _ Ec). reflexivity.
        + unfold bind in H. rewrite Ec in H. injection H as -> ->.
          right. left. exists c0. unfold bind. rewrite Ec. auto.
      - left. eexists. eexists. reflexivity. }
    destruct Hc as [(g & s1 & Eg) | [(c0 & -> & Ec & _) | (e1 & s1 & Hne & Eg)]].
    + rewrite (bind_step _ _ _ Eg) in H.
      destruct ve as [v |]; [| discriminate H].
      destruct (String.eqb v "circle") eqn:Ev.
      * apply vertex_loop_raise in H as (p & s2 & Hp);
          [| rewrite polygon_points_length; simpl; lia].
        exists p, "circle"%string, s2. split; [| exact Hp].
        apply in_app_iff. right. now left.
      * destruct (String.eqb v "polygon"); [| discriminate H].
        apply vertex_loop_raise in H as (p & s2 & Hp);
          [| rewrite polygon_points_length; simpl; lia].
        destruct (draw_child_polygon_total st vc p size rotation s2 Hf Ho) as (n & En).
        rewrite En in Hp. discriminate Hp.
    + exists center, c0, (S (S s)). split; [now left | exact Ec].
    + unfold bind at 1 in H. rewrite Eg in H. injection H as -> ->.
      now elim Hne.
Qed.


End OwnShape.

Section Rotation.

Context {num : Type} {ops : FloatOps num}.
Variable tape : nat -> nat.

(** C2. [Rect.draw], [Ellipse.draw] and [Polygon.draw] attach a rotation
    about the passed center to their shape if and only if the passed
    rotation is nonzero, and then it is that rotation about that center;
    the outer polygon of [PolygonGroup.draw] carries no rotation, whatever
    the rotation passed ([Circle.draw] attaches none either).  And the
    shape is drawn: with fill and opacity options to choose from, the
    [draw] returns, unless a nested draw of one of the ids the instance
    refers to raises, and then [draw] ends with that exception. *)
Theorem rotation_transform_iff_nonzero dc (c : @Component num) (center : @Point num)
    size rotation s :
  (forall n s',
     draw tape dc c center size rotation s = (Ok n, s') ->
     match c with
     | Rect _ _ | Ellipse _ _ =>
         transform (primitive n) = (if nonzero rotation then [(rotation, center)] else [])
         /\ (transform (primitive n) <> [] <-> nonzero rotation = true)
     | Polygon _ _ vc _ =>
         points (primitive n) = polygon_points vc center size
         /\ transform (primitive n)
            = (if nonzero rotation then [(rotation, center)] else [])
         /\ (transform (primitive n) <> [] <-> nonzero rotation = true)
     | PolygonGroup _ _ vc _ _ =>
         points (primitive n) = polygon_points vc center size
         /\ transform (primitive n) = []
     | Circle _ _ => transform (primitive n) = []
     end)
  /\
  (fill_options (style c) <> [] -> opacity_options (style c) <> [] ->
   (exists n s', draw tape dc c center size rotation s = (Ok n, s')) \/
   (exists e v id s1 s',
      In id (calls c) /\ dc v id s1 = (Raise e, s') /\
      draw tape dc c center size rotation s = (Raise e, s'))).
Proof.
  split.
  - intros n s' H.
    exact (rotation_of_drawn_shape tape dc c center size rotation s H).
  - intros Hf Ho.
    destruct (draw tape dc c center size rotation s) as [[n | e] s'] eqn:E.
    + left. exists n, s'. reflexivity.
    + right. destruct (draw_raise_nested tape dc c center size rotation s e s' Hf Ho E)
        as (v & id & s1 & Hin & Hd).
      exists e, v, id, s1, s'. auto.
Qed.


End Rotation.

(** ** Size and rotation come from the caller *)

Section Resolution.

Context {num : Type} {ops : FloatOps num}.
Variable tape : nat -> nat.
Abbreviation random_choice := (random_choice tape).

(** C10. Whoever draws a component whose instance the registry holds,
    [main] at top level or [draw_component] for a nested center or vertex
    element, first resolves a size and then a rotation from that
    component's own options and only then calls its [draw]: with both
    option sets non-empty the call is the [draw] of the instance with the
    resolved size and rotation, entered two draws of the generator later.
    With empty [size_options], or empty [rotation_options], the call raises
    [IndexError] before [draw] is entered, for any component, a [Circle]
    included, although [Circle.draw] gives the same result for every
    rotation; with its four option sets non-empty a [Circle] is drawn, with
    radius [size / 2]. *)
Theorem caller_resolves_size_and_rotation fuel params (components : @Registry num)
    id c (center : @Point num) s0 s :
  lookup id components = Some (Some c) ->
  parse_components tape params s0 = (Ok components, s) ->
  (size_options (style c) <> [] -> rotation_options (style c) <> [] ->
   exists size rotation,
     In size (size_options (style c)) /\
     In rotation (rotation_options (style c)) /\
     random_choice (size_options (style c)) s = (Ok size, S s) /\
     random_choice (rotation_options (style c)) (S s) = (Ok rotation, S (S s)) /\
     draw_top tape fuel params components id s
     = draw tape (draw_component tape fuel params) c (canvas_center params)
            size rotation (S (S s)) /\
     draw_component tape (S fuel) params center id s0
     = draw tape (draw_component tape fuel params) c center
            size rotation (S (S s)))
  /\
  (size_options (style c) = [] ->
   draw_top tape fuel params components id s = (Raise IndexError, s) /\
   draw_component tape (S fuel) params center id s0 = (Raise IndexError, s))
  /\
  (size_options (style c) <> [] -> rotation_options (style c) = [] ->
   draw_top tape fuel params components id s = (Raise IndexError, S s) /\
   draw_component tape (S fuel) params center id s0 = (Raise IndexError, S s))
  /\
  (forall cid st,
     c = Circle cid st ->
     (forall size r1 r2 s1,
        draw tape (draw_component tape fuel params) c center size r1 s1
        = draw tape (draw_component tape fuel params) c center size r2 s1) /\
     (size_options st <> [] -> rotation_options st <> [] ->
      fill_options st <> [] -> opacity_options st <> [] ->
      exists size f o,
        In size (size_options st) /\ In f (fill_options st) /\
        In o (opacity_options st) /\
        draw_component tape (S fuel) params center id s0
        = (Ok (dwg_circle center (fdiv size (of_int 2)) f o), S (S (S (S s)))))).
Proof.
  intros Hl Hp.
  pose proof (@draw_top_found num ops tape fuel params components id c s Hl) as Et.
  pose proof (@draw_component_found num ops tape fuel params components center id c s0 s
                Hp Hl) as Ec.
  split; [| split; [| split]].
  - intros Hs Hr.
    destruct (random_choice_nonempty tape s Hs) as (size & Es & Is).
    destruct (random_choice_nonempty tape (S s) Hr) as (rot & Er & Ir).
    exists size, rot. repeat (split; [assumption |]).
    rewrite Et, Ec. unfold bind. rewrite Es, Er. split; reflexivity.
  - intros Hs. rewrite Et, Ec. unfold bind. rewrite Hs. split; reflexivity.
  - intros Hs Hr. rewrite Et, Ec.
    destruct (random_choice_nonempty tape s Hs) as (size & Es & _).
    unfold bind. rewrite Es, Hr. split; reflexivity.
  - intros cid st ->. split; [reflexivity |].
    cbn [style] in *. intros Hs Hr Hf Ho.
    destruct (random_choice_nonempty tape s Hs) as (size & Es & Is).
    destruct (random_choice_nonempty tape (S s) Hr) as (rot & Er & _).
    destruct (random_choice_nonempty tape (S (S s)) Hf) as (f & Ef & If).
    destruct (random_choice_nonempty tape (S (S (S s))) Ho) as (o & Eo & Io).
    exists size, f, o. repeat (split; [assumption |]).
    rewrite Ec. cbn [draw]. unfold Circle_draw, bind. rewrite Es, Er, Ef, Eo.
    reflexivity.
Qed.


End Resolution.

(** ** Scene assembler *)

Section Scene.

Context {num : Type} {ops : FloatOps num}.
Variable tape : nat -> nat.
Abbreviation random_choice := (random_choice tape).

Lemma drawn_at_top_run fuel params (components : @Registry num) id s n s' :
  drawn_at_top tape fuel params components id s n s' ->
  draw_top tape fuel params components id s = (Ok n, s').
Proof.
  intros (c & size & rot & Hl & Es & Er & _ & _ & Hd).
  erewrite draw_top_found by exact Hl.
  unfold bind. now rewrite Es, Er.
Qed.

(** The loop of [main], one way and the other: it ends without error with
    the scene [elems ++ nodes] exactly when the requested components draw
    one after the other into [nodes]. *)
Lemma main_loop_ok fuel params (components : @Registry num) ids :
  forall elems s nodes s1,
    main_loop tape fuel params components ids elems s
    = mkRun (Ok tt) (elems ++ nodes) s1 <->
    chained (drawn_at_top tape fuel params components) ids nodes s s1.
Proof.
  induction ids as [| id ids IH]; intros elems s nodes s1; simpl.
  - split.
    + intros H. injection H as H ->.
      rewrite <- (app_nil_r elems) in H at 1. apply app_inv_head in H.
      subst nodes. reflexivity.
    + destruct nodes as [| n nodes]; [| contradiction].
      intros ->. now rewrite app_nil_r.
  - destruct (draw_top tape fuel params components id s) as [[n | e] s2] eqn:E.
    + split.
      * intros H. destruct nodes as [| n' nodes].
        -- exfalso. rewrite app_nil_r in H.
           assert (L : List.length
                         (scene (main_loop tape fuel params components ids
                                           (elems ++ [n]) s2))
                       = List.length elems) by now rewrite H.
           destruct (main_loop_scene tape fuel params components ids (elems ++ [n]) s2)
             as (done & new & s3 & Hs & _).
           rewrite Hs, !length_app in L. simpl in L. lia.
        -- assert (n' = n /\
                   main_loop tape fuel params components ids (elems ++ [n]) s2
                   = mkRun (Ok tt) ((elems ++ [n]) ++ nodes) s1) as [-> H'].
           { destruct (main_loop_scene tape fuel params components ids (elems ++ [n]) s2)
               as (done & new & s3 & Hs & _).
             rewrite H in Hs. simpl in Hs. rewrite <- app_assoc in Hs.
             apply app_inv_head in Hs. simpl in Hs. injection Hs as -> _.
             split; [reflexivity |]. rewrite H, <- app_assoc. reflexivity. }
           exists s2. split; [apply draw_top_ok, E | now apply IH in H'].
      * destruct nodes as [| n' nodes]; [contradiction |].
        intros (s3 & Hd & Hc). apply drawn_at_top_run in Hd.
        rewrite E in Hd. injection Hd as -> ->.
        apply (IH (elems ++ [n']) s3) in Hc. rewrite Hc, <- app_assoc. reflexivity.
    + split; [discriminate |].
      destruct nodes as [| n' nodes]; [contradiction |].
      intros (s3 & Hd & _). apply drawn_at_top_run in Hd.
      rewrite E in Hd. discriminate Hd.
Qed.

Lemma main_loop_raise fuel params (components : @Registry num) ids :
  forall elems s e nodes s1,
    main_loop tape fuel params components ids elems s = mkRun (Raise e) nodes s1 ->
    exists done failing rest new s2,
      ids = done ++ failing :: rest /\
      nodes = elems ++ new /\
      chained (drawn_at_top tape fuel params components) done new s s2 /\
      draw_top tape fuel params components failing s2 = (Raise e, s1).
Proof.
  intros elems s e nodes s1 H.
  destruct (main_loop_scene tape fuel params components ids elems s)
    as (done & new & s2 & Hs & Hc & Ho).
  rewrite H in Hs, Ho. simpl in Hs, Ho.
  destruct Ho as (failing & rest & -> & Hf).
  exists done, failing, rest, new, s2. auto.
Qed.

(** C9. [main] draws the requested components in request order, each at
    the canvas center [(width / 2, height / 2)], with a size and a
    rotation resolved from that component's own style options, and adds
    each resulting node to the drawing: the run ends without error with
    the scene [nodes] exactly when the requested components, in order and
    one after the other on the generator, draw into [nodes]; a run that
    ends with an exception holds the nodes of the components before the
    one whose draw raised it. *)
Theorem scene_in_request_order fuel params (components : @Registry num) s s0 :
  parse_components tape params s = (Ok components, s0) ->
  let center :=
    (fdiv (of_int (fst (canvas_size params))) (of_int 2),
     fdiv (of_int (snd (canvas_size params))) (of_int 2)) in
  let drawn := fun id s (n : @Node num) s' =>
    exists component size rotation,
      lookup id components = Some (Some component) /\
      random_choice (size_options (style component)) s = (Ok size, S s) /\
      random_choice (rotation_options (style component)) (S s)
        = (Ok rotation, S (S s)) /\
      In size (size_options (style component)) /\
      In rotation (rotation_options (style component)) /\
      draw tape (draw_component tape fuel params) component center size rotation
           (S (S s)) = (Ok n, s') in
  (forall nodes s1,
     main tape fuel params s = mkRun (Ok tt) nodes s1 <->
     chained drawn (component_to_draw params) nodes s0 s1)
  /\
  (forall e nodes s1,
     main tape fuel params s = mkRun (Raise e) nodes s1 ->
     exists done failing rest s2,
       component_to_draw params = done ++ failing :: rest /\
       chained drawn done nodes s0 s2 /\
       draw_top tape fuel params components failing s2 = (Raise e, s1)).
Proof.
  intros Hp center drawn.
  change drawn with (drawn_at_top tape fuel params components).
  unfold main. rewrite Hp. split.
  - intros nodes s1.
    apply (main_loop_ok fuel params components (component_to_draw params) [] s0).
  - intros e nodes s1 H.
    apply main_loop_raise in H
      as (done & failing & rest & new & s2 & Hi & -> & Hc & Hf).
    exists done, failing, rest, s2. auto.
Qed.


End Scene.

(** ** What an instance fixes and what each draw resolves *)

Section Redraw.

Context {num : Type} {ops : FloatOps num}.
Variable tape : nat -> nat.
Abbreviation random_choice := (random_choice tape).

Lemma grows_ret {A} (a : A) : grows (ret a).
Proof. intros s. simpl. lia. Qed.

Lemma grows_raise {A} e : grows (@raise A e).
Proof. intros s. simpl. lia. Qed.

Lemma grows_bind {A B} (m : M A) (f : A -> M B) :
  grows m -> (forall a, grows (f a)) -> grows (bind m f).
Proof.
  intros Hm Hf s. unfold bind. specialize (Hm s).
  destruct (m s) as [[a | e] s1]; simpl in *; [| exact Hm].
  specialize (Hf a s1). lia.
Qed.

Lemma grows_random_choice {A} (options : list A) : grows (random_choice options).
Proof. intros s. destruct options; simpl; lia. Qed.

Lemma grows_getitem {A} (l : list A) i : grows (getitem l i).
Proof. unfold getitem. destruct (nth_error l i); [apply grows_ret | apply grows_raise]. Qed.

Lemma grows_getkey {A} key (field : option A) : grows (getkey key field).
Proof. destruct field; [apply grows_ret | apply grows_raise]. Qed.

Lemma grows_for_each {A B} (xs : list A) (body : A -> B -> M B) :
  (forall x acc, grows (body x acc)) -> forall acc, grows (for_each xs body acc).
Proof.
  intros Hb. induction xs as [| x xs IH]; intros acc; simpl;
    [apply grows_ret | apply grows_bind; auto].
Qed.

Ltac grows :=
  repeat first
    [ apply grows_ret | apply grows_raise | apply grows_random_choice
    | apply grows_getitem | apply grows_getkey
    | apply grows_bind; [| intros ?]
    | apply grows_for_each; intros ? ? ].

Lemma grows_create_component (p : @Params num) : grows (create_component tape p).
Proof.
  unfold create_component, Polygon_init, PolygonGroup_init.
  repeat match goal with |- grows (if ?b then _ else _) => destruct b end; grows.
Qed.

Lemma grows_build_components (defs : list (string * @Params num)) :
  grows (build_components tape defs).
Proof.
  induction defs as [| [k p] defs IH]; simpl; [apply grows_ret |].
  apply grows_bind; [apply grows_create_component | intros c].
  apply grows_bind; [exact IH | intros cs; apply grows_ret].
Qed.

Lemma grows_find_component (components : @Registry num) id :
  grows (find_component components id).
Proof.
  unfold find_component. destruct (lookup id components) as [[c |] |]; grows.
Qed.

Lemma grows_draw dc (c : @Component num) (center : @Point num) size rotation :
  (forall v id, grows (dc v id)) ->
  grows (draw tape dc c center size rotation).
Proof.
  intros Hdc.
  destruct c as [id st | id st | id st | id st vc ce | id st vc ve ce]; simpl.
  - unfold Circle_draw. grows.
  - unfold Rect_draw. destruct center. grows.
  - unfold Ellipse_draw. grows.
  - unfold Polygon_draw.
    apply grows_bind; [apply grows_random_choice | intros f].
    apply grows_bind; [apply grows_random_choice | intros o].
    destruct ce; [| apply grows_ret].
    apply grows_bind; [apply Hdc | intros cc; apply grows_ret].
  - unfold PolygonGroup_draw.
    apply grows_bind; [apply grows_random_choice | intros f].
    apply grows_bind; [apply grows_random_choice | intros o].
    apply grows_bind.
    + destruct ce; [| apply grows_ret].
      apply grows_bind; [apply Hdc | intros cc; apply grows_ret].
    + intros g. destruct ve as [v |]; [| apply grows_ret].
      destruct (String.eqb v "circle").
      * apply grows_for_each. intros i acc.
        apply grows_bind; [apply grows_getitem | intros p].
        apply grows_bind; [apply Hdc | intros cc; apply grows_ret].
      * destruct (String.eqb v "polygon"); [| apply grows_ret].
        apply grows_for_each. intros i acc.
        apply grows_bind; [apply grows_getitem | intros p].
        apply grows_bind; [| intros cc; apply grows_ret].
        unfold draw_child_polygon. grows.
Qed.

Lemma grows_draw_component fuel params (center : @Point num) id :
  grows (draw_component tape fuel params center id).
Proof.
  revert center id. induction fuel as [| fuel IH]; intros center id; simpl;
    [apply grows_raise |].
  apply grows_bind; [apply grows_build_components | intros comps].
  apply grows_bind; [apply grows_find_component | intros c].
  grows. apply grows_draw. exact IH.
Qed.

Lemma styled_grows (st : @Style num) {B} (k : string -> num -> M B) s b s' :
  (forall f o, grows (k f o)) ->
  (fill <- random_choice (fill_options st) ;;
   opacity <- random_choice (opacity_options st) ;; k fill opacity) s = (Ok b, s') ->
  S (S s) <= s'.
Proof.
  intros Hk H. apply styled_ok in H as (f & o & _ & _ & _ & _ & H).
  specialize (Hk f o (S (S s))). now rewrite H in Hk.
Qed.

(** A [draw] that returns has read its fill and its opacity. *)
Lemma draw_ok_grows dc (c : @Component num) (center : @Point num) size rotation
    s n s' :
  (forall v id, grows (dc v id)) ->
  draw tape dc c center size rotation s = (Ok n, s') ->
  S (S s) <= s'.
Proof.
  intros Hdc.
  destruct c as [id st | id st | id st | id st vc ce | id st vc ve ce]; simpl.
  - unfold Circle_draw. apply styled_grows. intros. apply grows_ret.
  - unfold Rect_draw. destruct center. apply styled_grows. intros. apply grows_ret.
  - unfold Ellipse_draw. apply styled_grows. intros. apply grows_ret.
  - unfold Polygon_draw. apply styled_grows. intros f o.
    destruct ce; [| apply grows_ret].
    apply grows_bind; [apply Hdc | intros cc; apply grows_ret].
  - unfold PolygonGroup_draw. apply styled_grows. intros f o.
    apply grows_bind.
    + destruct ce; [| apply grows_ret].
      apply grows_bind; [apply Hdc | intros cc; apply grows_ret].
    + intros g. destruct ve as [v |]; [| apply grows_ret].
      destruct (String.eqb v "circle").
      * apply grows_for_each. intros i acc.
        apply grows_bind; [apply grows_getitem | intros p].
        apply grows_bind; [apply Hdc | intros cc; apply grows_ret].
      * destruct (String.eqb v "polygon"); [| apply grows_ret].
        apply grows_for_each. intros i acc.
        apply grows_bind; [apply grows_getitem | intros p].
        apply grows_bind; [| intros cc; apply grows_ret].
        unfold draw_child_polygon. grows.
Qed.

Lemma drawn_at_top_grows fuel params (components : @Registry num) id s n s' :
  drawn_at_top tape fuel params components id s n s' -> s + 4 <= s'.
Proof.
  intros (c & size & rot & _ & _ & _ & _ & _ & H).
  apply draw_ok_grows in H; [lia | apply grows_draw_component].
Qed.

(** Two positions of a chain: the later element starts where the earlier
    ones have left the cursor. *)
Lemma chained_nth {A B} (R : A -> nat -> B -> nat -> Prop) :
  (forall x s y s', R x s y s' -> s <= s') ->
  forall xs ys s s' i x y,
    chained R xs ys s s' ->
    nth_error xs i = Some x -> nth_error ys i = Some y ->
    exists si si', s <= si /\ si' <= s' /\ R x si y si' /\
      forall j x' y', i < j ->
        nth_error xs j = Some x' -> nth_error ys j = Some y' ->
        exists sj sj', si' <= sj /\ sj' <= s' /\ R x' sj y' sj'.
Proof.
  intros HR xs. induction xs as [| x0 xs IH]; intros [| y0 ys] s s' i x y Hc Hx Hy;
    simpl in Hc; try contradiction.
  - destruct i; discriminate Hx.
  - destruct Hc as (s1 & H0 & Hc).
    assert (Mono : forall xs ys s s', chained R xs ys s s' -> s <= s').
    { clear - HR. induction xs as [| a xs IH]; intros [| b ys] s s' H; simpl in H;
        try contradiction; [lia |].
      destruct H as (s1 & H1 & H2). apply HR in H1. apply IH in H2. lia. }
    pose proof (HR _ _ _ _ H0) as L0. pose proof (Mono _ _ _ _ Hc) as L1.
    destruct i as [| i]; simpl in Hx, Hy.
    + injection Hx as <-. injection Hy as <-.
      exists s, s1. repeat split; try lia; [exact H0 |].
      intros [| j] x' y' Hj Hx' Hy'; [lia |]. simpl in Hx', Hy'.
      destruct (IH ys s1 s' j x' y' Hc Hx' Hy') as (sj & sj' & A1 & A2 & A3 & _).
      exists sj, sj'. auto.
    + destruct (IH ys s1 s' i x y Hc Hx Hy) as (si & si' & A1 & A2 & A3 & A4).
      exists si, si'. repeat split; try lia; [exact A3 |].
      intros [| j] x' y' Hj Hx' Hy'; [lia |]. simpl in Hx', Hy'.
      apply (A4 j x' y'); [lia | assumption ..].
Qed.

Lemma nth_error_prefix {A} (done rest : list A) i x y :
  nth_error (done ++ rest) i = Some x -> nth_error done i = Some y -> y = x.
Proof.
  intros H1 H2. rewrite nth_error_app1 in H1 by (apply nth_error_Some; congruence).
  congruence.
Qed.

(** C8. The registry of a run is built once, before the loop of [main],
    and every top-level draw of an id reads the instance built then: two
    requests of the same [Polygon] or [PolygonGroup] id, at any two
    positions of the request list, give polygons with the [vertex_count +
    1] points of that one instance and results of the same make-up (bare
    shape or group, and the number of its elements, which the center
    element and the vertex elements fix).  Size, rotation, fill and
    opacity are resolved anew from the style options at the cursor of each
    draw, the later draw reading the generator after the earlier one has
    finished. *)
Theorem redraw_keeps_construction_choices fuel params s (components : @Registry num)
    s0 id c vc i j ni nj :
  parse_components tape params s = (Ok components, s0) ->
  lookup id components = Some (Some c) ->
  vertex_count_of c = Some vc ->
  i < j ->
  nth_error (component_to_draw params) i = Some id ->
  nth_error (component_to_draw params) j = Some id ->
  nth_error (scene (main tape fuel params s)) i = Some ni ->
  nth_error (scene (main tape fuel params s)) j = Some nj ->
  (List.length (points (primitive ni)) = Z.to_nat vc + 1 /\
   List.length (points (primitive nj)) = Z.to_nat vc + 1) /\
  (List.length (elements ni) = group_size c /\
   List.length (elements nj) = group_size c) /\
  exists si si' sj sj',
    s0 <= si /\ si + 4 <= si' /\ si' <= sj /\
    resolved_on_call tape (draw_component tape fuel params) c vc
                     (canvas_center params) si ni si' /\
    resolved_on_call tape (draw_component tape fuel params) c vc
                     (canvas_center params) sj nj sj'.
Proof.
  intros Hp Hl Hvc Hij Hi Hj Hni Hnj.
  unfold main in Hni, Hnj. rewrite Hp in Hni, Hnj.
  destruct (main_loop_scene tape fuel params components (component_to_draw params) [] s0)
    as (done & new & s1 & Hs & Hc & Ho).
  simpl in Hs. rewrite Hs in Hni, Hnj.
  assert (Hd : exists rest, component_to_draw params = done ++ rest).
  { destruct (outcome (main_loop tape fuel params components
                                 (component_to_draw params) [] s0)).
    - destruct Ho as [-> _]. exists []. now rewrite app_nil_r.
    - destruct Ho as (failing & rest & -> & _). eauto. }
  destruct Hd as (rest & Hd).
  assert (Hlen : List.length done = List.length new)
    by (eapply chained_length; exact Hc).
  assert (Hdi : nth_error done i = Some id).
  { destruct (nth_error done i) as [y |] eqn:E.
    - rewrite Hd in Hi. f_equal. eapply nth_error_prefix; eassumption.
    - apply nth_error_None in E.
      assert (i < List.length new) by (apply nth_error_Some; congruence). lia. }
  assert (Hdj : nth_error done j = Some id).
  { destruct (nth_error done j) as [y |] eqn:E.
    - rewrite Hd in Hj. f_equal. eapply nth_error_prefix; eassumption.
    - apply nth_error_None in E.
      assert (j < List.length new) by (apply nth_error_Some; congruence). lia. }
  assert (Once : forall s n s',
             drawn_at_top tape fuel params components id s n s' ->
             List.length (points (primitive n)) = Z.to_nat vc + 1 /\
             List.length (elements n) = group_size c /\
             resolved_on_call tape (draw_component tape fuel params) c vc
                              (canvas_center params) s n s').
  { intros s2 n s2' (c' & size & rotation & Hl' & Hs' & Hr & _ & _ & H).
    rewrite Hl in Hl'. injection Hl' as <-.
    destruct (draw_instance_facts tape _ _ _ _ _ _ Hvc H)
      as (f & o & Hf & Ho' & Hpts & Ff & Fo & He).
    split; [rewrite Hpts; apply polygon_points_length |].
    split; [exact He |].
    exists size, rotation, f, o. auto 10. }
  destruct (chained_nth (drawn_at_top tape fuel params components)
              (fun x s y s' H =>
                 Nat.le_trans _ _ _ (Nat.le_add_r s 4)
                   (drawn_at_top_grows fuel params components x s y s' H))
              done new s0 s1 i id ni Hc Hdi Hni)
    as (si & si' & L1 & L2 & Ri & Later).
  destruct (Later j id nj Hij Hdj Hnj) as (sj & sj' & L3 & L4 & Rj).
  destruct (Once _ _ _ Ri) as (P1 & E1 & R1).
  destruct (Once _ _ _ Rj) as (P2 & E2 & R2).
  pose proof (drawn_at_top_grows _ _ _ _ _ _ _ Ri) as G1.
  repeat split; try assumption.
  exists si, si', sj, sj'. repeat split; assumption.
Qed.


End Redraw.

(** ** Exceptions end the run *)

Section Fatal.

Context {num : Type} {ops : FloatOps num}.
Variable tape : nat -> nat.
Abbreviation random_choice := (random_choice tape).
Abbreviation pt := (@Point num).

Lemma bind_fail {A B} (m : M A) (f : A -> M B) s e s' :
  m s = (Raise e, s') -> bind m f s = (Raise e, s').
Proof. unfold bind. intros ->. reflexivity. Qed.

(** The vertex loop stops at the first child that raises. *)
Lemma vertex_loop_raise_at (K : pt -> M (@Node num)) (pts : list pt) e s' :
  forall i k a g s kids s1 v,
    i < k ->
    chained (fun p s n s' => K p s = (Ok n, s')) (firstn i (skipn a pts)) kids s s1 ->
    nth_error pts (a + i) = Some v ->
    K v s1 = (Raise e, s') ->
    for_each (seq a k)
      (fun i g => v <- getitem pts i ;; child <- K v ;; ret (add g child)) g s
    = (Raise e, s').
Proof.
  induction i as [| i IH]; intros k a g s kids s1 v Hk Hc Hv HK;
    (destruct k as [| k]; [lia |]); cbn [seq for_each].
  - simpl in Hc. destruct kids; [| contradiction]. subst s1.
    rewrite Nat.add_0_r in Hv.
    apply bind_fail. unfold getitem. rewrite Hv.
    rewrite (bind_step _ _ _ (eq_refl : ret v s = (Ok v, s))).
    now apply bind_fail.
  - destruct (nth_error pts a) as [p |] eqn:Ep.
    2:{ apply nth_error_None in Ep.
        assert (a + S i < List.length pts) by (apply nth_error_Some; congruence).
        lia. }
    assert (Es : skipn a pts = p :: skipn (S a) pts).
    { clear - Ep. revert a Ep. induction pts as [| q pts IH]; intros [| a] E;
        simpl in *; try discriminate.
      - now injection E as ->.
      - now apply IH. }
    rewrite Es in Hc. cbn [firstn] in Hc.
    destruct kids as [| k0 kids]; [contradiction |].
    destruct Hc as (s2 & H0 & Hc).
    assert (Eb : (v0 <- getitem pts a ;; child <- K v0 ;; ret (add g child)) s
                 = (Ok (add g k0), s2)).
    { unfold getitem. rewrite Ep.
      rewrite (bind_step _ _ _ (eq_refl : ret p s = (Ok p, s))).
      now rewrite (bind_step _ _ _ H0). }
    rewrite (bind_step _ _ _ Eb).
    apply (IH k (S a) (add g k0) s2 kids s1 v); try assumption; [lia |].
    now rewrite Nat.add_succ_comm.
Qed.

(** An exception raised by a nested call is the exception of the [draw]
    that made the call. *)
Lemma nested_raise dc (c : @Component num) (center : pt) size rotation s v id s1 e s' :
  nested_call tape dc c center size rotation s v id s1 ->
  dc v id s1 = (Raise e, s') ->
  draw tape dc c center size rotation s = (Raise e, s').
Proof.
  intros (f & o & Ef & Eo & H) Hd.
  destruct c as [cid st | cid st | cid st | cid st vc ce | cid st vc ve ce];
    try contradiction; cbn [draw style] in *.
  - destruct H as (-> & -> & ->). unfold Polygon_draw.
    rewrite (bind_step _ _ _ Ef), (bind_step _ _ _ Eo).
    now apply bind_fail.
  - unfold PolygonGroup_draw.
    rewrite (bind_step _ _ _ Ef), (bind_step _ _ _ Eo).
    destruct H as [(-> & -> & ->) | (-> & -> & part & s2 & i & kids & Hp & Hi & Hv & Hc)].
    + apply bind_fail. now apply bind_fail.
    + assert (Eg : exists g,
                 match ce with
                 | Some c0 =>
                     center_component <- dc center c0 ;;
                     ret (add (add (Group []) (dwg_polygon (polygon_points vc center size) f o))
                              center_component)
                 | None => ret (add (Group []) (dwg_polygon (polygon_points vc center size) f o))
                 end (S (S s)) = (Ok g, s2)).
      { destruct ce as [c0 |]; simpl in Hp.
        - destruct Hp as (cc & Hcc & _). eexists.
          rewrite (bind_step _ _ _ Hcc). reflexivity.
        - destruct Hp as [_ <-]. eexists. reflexivity. }
      destruct Eg as (g & Eg). rewrite (bind_step _ _ _ Eg).
      change (String.eqb "circle" "circle") with true. cbv iota.
      apply (vertex_loop_raise_at (fun p => dc p "circle"%string)
               (polygon_points vc center size) e s' i (Z.to_nat vc) 0 g s2 kids s1 v);
        assumption.
Qed.

Section Run.

Variable fuel : nat.
Variable params : @Config num.
Variable components : @Registry num.
Variable s0 : nat.

Abbreviation exec := (exec tape fuel params components).
Abbreviation instance := (instance tape params components).
Abbreviation occurs := (occurs tape fuel params components s0).

(** A call that has its instance resolves a size, then a rotation, and
    calls the [draw] of the instance. *)
Lemma exec_instance call s c s1 :
  instance call s c s1 ->
  exec call s
  = (size_option <- random_choice (size_options (style c)) ;;
     rotation_option <- random_choice (rotation_options (style c)) ;;
     draw tape (draw_component tape (depth_below fuel call) params) c
          (center_of params call) size_option rotation_option) s1.
Proof.
  destruct call as [id | [| f] v id]; simpl; try contradiction.
  - intros [Hl ->]. now apply draw_top_found.
  - intros (comps & Hp & Hl).
    rewrite (bind_step _ _ _ Hp).
    now rewrite (bind_step _ _ _ (find_component_found _ _ s1 Hl)).
Qed.

Lemma main_loop_app ids :
  forall done rest elems new s s1,
    ids = done ++ rest ->
    chained (fun i s n s' => draw_top tape fuel params components i s = (Ok n, s'))
            done new s s1 ->
    main_loop tape fuel params components ids elems s
    = main_loop tape fuel params components rest (elems ++ new) s1.
Proof.
  intros done. revert ids. induction done as [| id done IH];
    intros ids rest elems [| n new] s s1 -> Hc; simpl in Hc; try contradiction.
  - subst s1. now rewrite app_nil_r.
  - destruct Hc as (s2 & H0 & Hc). simpl. rewrite H0.
    rewrite (IH (done ++ rest) rest (elems ++ [n]) new s2 s1 eq_refl Hc).
    now rewrite <- app_assoc.
Qed.

Lemma occurs_position elems call s :
  occurs elems call s ->
  exists done id rest,
    component_to_draw params = done ++ id :: rest /\
    List.length elems = List.length done.
Proof.
  induction 1 as [done id rest elems s Hi Hc | ]; [| assumption].
  exists done, id, rest. split; [exact Hi |].
  symmetry. eapply chained_length, Hc.
Qed.

(** Nothing catches an exception: raised by any call of the run, at any
    depth, it ends the loop of [main] at the cursor where it was raised,
    with the elements drawn before. *)
Lemma raise_ends_the_loop elems call s :
  occurs elems call s ->
  forall e s',
    exec call s = (Raise e, s') ->
    main_loop tape fuel params components (component_to_draw params) [] s0
    = mkRun (Raise e) elems s'.
Proof.
  induction 1 as [done id rest elems s Hi Hc
                 | elems call s c s1 size rotation v id s2 Ho IH Hin Hs Hr Hn];
    intros e s' He.
  - rewrite (main_loop_app (component_to_draw params) done (id :: rest) [] elems s0 s
               Hi Hc).
    simpl in *. now rewrite He.
  - apply IH. rewrite (exec_instance call s c s1 Hin).
    rewrite (bind_step _ _ _ Hs), (bind_step _ _ _ Hr).
    eapply nested_raise; [exact Hn | exact He].
Qed.

End Run.

(** C7, as the code has it.  A component whose style has an empty option
    set among the four it resolves never draws: the call that draws it, an
    iteration of the loop of [main] or a nested [draw_component] at any
    depth, raises [IndexError], and nothing catches it.  Whatever a call
    of the run raises, the draws that led to it end with the same
    exception and the run of [main] ends there, at the cursor where it was
    raised: the elements drawn before stay in the drawing, the component
    being drawn and the remaining ones are not added, nothing is
    retried. *)
Theorem empty_option_set_is_fatal fuel params s (components : @Registry num) s0
    elems call s1 :
  parse_components tape params s = (Ok components, s0) ->
  occurs tape fuel params components s0 elems call s1 ->
  (forall c s2,
     instance tape params components call s1 c s2 ->
     has_empty_option (style c) ->
     exists s',
       exec tape fuel params components call s1 = (Raise IndexError, s') /\
       main tape fuel params s = mkRun (Raise IndexError) elems s')
  /\
  (forall e s',
     exec tape fuel params components call s1 = (Raise e, s') ->
     main tape fuel params s = mkRun (Raise e) elems s')
  /\
  List.length elems < List.length (component_to_draw params).
Proof.
  intros Hp Ho.
  assert (Run : forall e s',
             exec tape fuel params components call s1 = (Raise e, s') ->
             main tape fuel params s = mkRun (Raise e) elems s').
  { intros e s' He. unfold main. rewrite Hp.
    eapply raise_ends_the_loop; eassumption. }
  split; [| split; [exact Run |]].
  - intros c s2 Hin He.
    destruct (resolve_and_draw_fail tape
                (draw_component tape (depth_below fuel call) params) c
                (center_of params call) s2 He) as (s' & E).
    exists s'. rewrite <- (exec_instance fuel params components call s1 c s2 Hin) in E.
    split; [exact E | now apply Run].
  - destruct (occurs_position fuel params components s0 elems call s1 Ho)
      as (done & id & rest & -> & ->).
    rewrite length_app. simpl. lia.
Qed.


End Fatal.

(** * The sixteen-gon in exact real arithmetic *)

Local Open Scope R_scope.
Unset Implicit Arguments.

(** ** Rounding to seven decimals *)

Lemma Int_part_bounds x : IZR (Int_part x) <= x < IZR (Int_part x) + 1.
Proof. destruct (base_Int_part x). lra. Qed.

Lemma Int_part_unique x (k : Z) : IZR k <= x < IZR k + 1 -> Int_part x = k.
Proof.
  intros [H1 H2]. pose proof (Int_part_bounds x) as [H3 H4].
  assert (IZR (Int_part x) < IZR k + 1) by lra.
  assert (IZR k < IZR (Int_part x) + 1) by lra.
  rewrite <- plus_IZR in *.
  apply lt_IZR in H, H0. lia.
Qed.

Lemma round_half_even_unique y (k : Z) :
  IZR k - 1 / 2 < y < IZR k + 1 / 2 -> round_half_even y = k.
Proof.
  intros [H1 H2]. unfold round_half_even.
  destruct (Rle_lt_dec (IZR k) y) as [Hge | Hlt].
  - rewrite (Int_part_unique y k) by lra.
    destruct (Rlt_dec _ _); [reflexivity | lra].
  - assert (E : Int_part y = (k - 1)%Z)
      by (apply Int_part_unique; rewrite minus_IZR; lra).
    rewrite E. rewrite minus_IZR.
    destruct (Rlt_dec _ _); [lra |].
    destruct (Rlt_dec _ _); [lia | lra].
Qed.

Lemma Rround7_unique x (k : Z) :
  IZR k - 1 / 2 < x * 10 ^ 7 < IZR k + 1 / 2 -> Rround7 x = IZR k / 10 ^ 7.
Proof. intros H. unfold Rround7. now rewrite (round_half_even_unique _ k). Qed.

(** ** The rotation over the reals *)

Lemma rotate_real (a b theta : R) :
  _rotate (a, b) theta = (Rround7 (xr a b theta), Rround7 (yr a b theta)).
Proof.
  unfold _rotate, xr, yr. simpl. rewrite cos_neg, sin_neg.
  f_equal; f_equal; ring.
Qed.

(** ** A sixteen-gon of size 27 *)

Lemma sq_lt_pos a b : 0 <= a -> 0 < b -> a * a < b * b -> a < b.
Proof. intros. nra. Qed.

Lemma inv_sqrt2_bounds :
  0.70710678118654 < 1 / sqrt 2 < 0.70710678118655.
Proof.
  assert (Hs : 0 < sqrt 2) by (apply sqrt_lt_R0; lra).
  assert (Hh : 0 < 1 / sqrt 2) by (apply Rdiv_lt_0_compat; lra).
  assert (E : (1 / sqrt 2) * (1 / sqrt 2) = 1 / 2).
  { assert (sqrt 2 * sqrt 2 = 2) by (apply sqrt_sqrt; lra). field_simplify; [| lra].
    rewrite <- Rsqr_pow2. unfold Rsqr. rewrite H. reflexivity. }
  split; apply sq_lt_pos; try lra; rewrite E; lra.
Qed.

Lemma PI8_range : 0 < PI / 8 < PI / 2.
Proof. pose proof PI_RGT_0. lra. Qed.

Lemma cos_sin_PI8_bounds :
  0.9238795325112 < cos (PI / 8) < 0.9238795325113 /\
  0.3826834323650 < sin (PI / 8) < 0.3826834323651.
Proof.
  pose proof PI8_range as [Hlo Hhi].
  assert (Hc : 0 < cos (PI / 8)) by (apply cos_gt_0; pose proof PI_RGT_0; lra).
  assert (Hs : 0 < sin (PI / 8)) by (apply sin_gt_0; pose proof PI_RGT_0; lra).
  pose proof (cos_2a_cos (PI / 8)) as E2.
  replace (2 * (PI / 8)) with (PI / 4) in E2 by lra.
  rewrite cos_PI4 in E2.
  pose proof (sin2_cos2 (PI / 8)) as E1. unfold Rsqr in E1.
  pose proof inv_sqrt2_bounds as [Hl Hu].
  set (c := cos (PI / 8)) in *. set (s := sin (PI / 8)) in *.
  set (h := 1 / sqrt 2) in *.
  assert (Ec : c * c = (1 + h) / 2) by lra.
  assert (Es : s * s = (1 - h) / 2) by lra.
  repeat split; apply sq_lt_pos; try lra; rewrite ?Ec, ?Es; lra.
Qed.

Lemma step_angle_16 : step_angle 16 = PI / 8.
Proof. unfold step_angle. simpl. field. Qed.

Lemma step16 (a b : R) (ka kb : Z) :
  IZR ka - 1 / 2 < (a * cos (PI / 8) + b * sin (PI / 8)) * 10 ^ 7 < IZR ka + 1 / 2 ->
  IZR kb - 1 / 2 < (- a * sin (PI / 8) + b * cos (PI / 8)) * 10 ^ 7 < IZR kb + 1 / 2 ->
  _rotate (a, b) (step_angle 16) = (IZR ka / 10 ^ 7, IZR kb / 10 ^ 7).
Proof.
  intros Ha Hb. rewrite step_angle_16, rotate_real. unfold xr, yr.
  now rewrite (Rround7_unique _ ka Ha), (Rround7_unique _ kb Hb).
Qed.

Ltac next_vertex H ka kb :=
  let Hn := fresh in
  match type of H with
  | nth_error _ ?i = Some ?q =>
      assert (Hn := @local_points_next R RealOps 16 27 i q
                      ltac:(apply Nat.ltb_lt; reflexivity) H)
  end;
  rewrite (step16 _ _ ka kb) in Hn;
  [ exact Hn | clear; pose proof cos_sin_PI8_bounds; lra .. ].

Lemma sixteen_gon_local :
  nth_error (local_points 16 27) 0 = Some (0, 27 * (5 / 10)) /\
  nth_error (local_points 16 27) 16 = Some (-1 / 10 ^ 7, 134999997 / 10 ^ 7).
Proof.
  set (L := local_points 16 27).
  assert (H0 : nth_error L 0 = Some (0, 27 * (5 / 10)))
    by exact (local_points_seed 16 27).
  assert (H1 : nth_error L 1 = Some (51662263 / 10 ^ 7, 124723737 / 10 ^ 7))
    by (next_vertex H0 51662263%Z 124723737%Z).
  assert (H2 : nth_error L 2 = Some (95459415 / 10 ^ 7, 95459416 / 10 ^ 7))
    by (next_vertex H1 95459415%Z 95459416%Z).
  assert (H3 : nth_error L 3 = Some (124723737 / 10 ^ 7, 51662264 / 10 ^ 7))
    by (next_vertex H2 124723737%Z 51662264%Z).
  assert (H4 : nth_error L 4 = Some (135000000 / 10 ^ 7, 1 / 10 ^ 7))
    by (next_vertex H3 135000000%Z 1%Z).
  assert (H5 : nth_error L 5 = Some (124723737 / 10 ^ 7, (-51662262) / 10 ^ 7))
    by (next_vertex H4 124723737%Z (-51662262)%Z).
  assert (H6 : nth_error L 6 = Some (95459416 / 10 ^ 7, (-95459414) / 10 ^ 7))
    by (next_vertex H5 95459416%Z (-95459414)%Z).
  assert (H7 : nth_error L 7 = Some (51662264 / 10 ^ 7, (-124723736) / 10 ^ 7))
    by (next_vertex H6 51662264%Z (-124723736)%Z).
  assert (H8 : nth_error L 8 = Some (1 / 10 ^ 7, (-134999999) / 10 ^ 7))
    by (next_vertex H7 1%Z (-134999999)%Z).
  assert (H9 : nth_error L 9 = Some ((-51662262) / 10 ^ 7, (-124723736) / 10 ^ 7))
    by (next_vertex H8 (-51662262)%Z (-124723736)%Z).
  assert (H10 : nth_error L 10 = Some ((-95459414) / 10 ^ 7, (-95459415) / 10 ^ 7))
    by (next_vertex H9 (-95459414)%Z (-95459415)%Z).
  assert (H11 : nth_error L 11 = Some ((-124723735) / 10 ^ 7, (-51662264) / 10 ^ 7))
    by (next_vertex H10 (-124723735)%Z (-51662264)%Z).
  assert (H12 : nth_error L 12 = Some ((-134999998) / 10 ^ 7, (-1) / 10 ^ 7))
    by (next_vertex H11 (-134999998)%Z (-1)%Z).
  assert (H13 : nth_error L 13 = Some ((-124723735) / 10 ^ 7, 51662262 / 10 ^ 7))
    by (next_vertex H12 (-124723735)%Z 51662262%Z).
  assert (H14 : nth_error L 14 = Some ((-95459414) / 10 ^ 7, 95459413 / 10 ^ 7))
    by (next_vertex H13 (-95459414)%Z 95459413%Z).
  assert (H15 : nth_error L 15 = Some ((-51662263) / 10 ^ 7, 124723734 / 10 ^ 7))
    by (next_vertex H14 (-51662263)%Z 124723734%Z).
  assert (H16 : nth_error L 16 = Some ((-1) / 10 ^ 7, 134999997 / 10 ^ 7))
    by (next_vertex H15 (-1)%Z 134999997%Z).
  split; assumption.
Qed.

(** C1, counterexample.  The sixteen-gon of size 27 centered at the origin
    starts at [(0, 13.5)] and ends at [(-0.0000001, 13.4999997)]: the last
    point is [3e-7] below the first, more than the tolerance [1e-7]. *)
Lemma sixteen_gon_does_not_close :
  exists first last : R * R,
    nth_error (polygon_points 16 (0, 0) 27) 0 = Some first /\
    nth_error (polygon_points 16 (0, 0) 27) 16 = Some last /\
    snd first - snd last = 3 / 10 ^ 7 /\
    ~ (Rabs (fst last - fst first) <= 1 / 10 ^ 7 /\
       Rabs (snd last - snd first) <= 1 / 10 ^ 7).
Proof.
  destruct sixteen_gon_local as [H0 H16].
  exists (0 + 0, 27 * (5 / 10) + 0), (-1 / 10 ^ 7 + 0, 134999997 / 10 ^ 7 + 0).
  rewrite !polygon_points_nth, H0, H16.
  split; [reflexivity |]. split; [reflexivity |].
  cbn [fst snd]. split; [lra |].
  intros [_ H].
  rewrite Rabs_left in H; lra.
Qed.

(** * The claims at concrete inputs *)

Import Sample.

(** Run a concrete program: unfold the engine, leave the reals alone. *)
Ltac evaluate :=
  cbv - [Req_dec_T Rplus Rminus Rmult Rdiv Ropp Rinv cos sin PI IZR Rround7].

Ltac evaluate_in H :=
  cbv - [Req_dec_T Rplus Rminus Rmult Rdiv Ropp Rinv cos sin PI IZR Rround7] in H.

Lemma sample_registry s :
  parse_components tape0 scene_cfg s = (Ok scene_registry, (8 + s)%nat).
Proof. reflexivity. Qed.

(** ** Counterexamples *)

(** C5, counterexample.  With two fill options and a generator that moves
    on, the outer polygon of a group with polygon children is red and its
    first child is blue: the child does not reuse the fill resolved for
    its parent. *)
Lemma child_polygon_fill_differs :
  match fst (draw tape1 (draw_component tape1 0 scene_cfg) fan_inst
                  (0, 0) 40 0 0%nat) with
  | Ok n => map fill (elements n)
            = [Some "red"; Some "blue"; Some "red"; Some "blue"]%string
  | Raise _ => False
  end.
Proof.
  evaluate. destruct (Req_dec_T _ _); reflexivity.
Qed.

(** A component that refers to itself. *)

Lemma loop_registry tape s :
  parse_components tape loop_cfg s
  = (Ok [("A"%string, Some (Polygon "A" red_style 3 (Some "A"%string)))], S (S s)).
Proof.
  unfold parse_components, loop_cfg, element_defs.
  cbn [build_components]. unfold create_component, loop_def.
  cbn [p_type String.eqb Ascii.eqb Bool.eqb p_vertex_count p_center_elements getkey p_id p_style].
  unfold Polygon_init, bind, ret.
  cbn [getkey]. unfold ret.
  rewrite !random_choice_single. reflexivity.
Qed.

Lemma loop_overflows tape fuel (center : R * R) s :
  fst (draw_component tape fuel loop_cfg center "A" s) = Raise RecursionError.
Proof.
  revert center s. induction fuel as [| fuel IH]; intros center s; [reflexivity |].
  erewrite draw_component_found; [| apply loop_registry | reflexivity].
  cbn [style draw]. unfold Polygon_draw, bind, red_style.
  cbn [size_options rotation_options fill_options opacity_options].
  rewrite !random_choice_single.
  specialize (IH center (S (S (S (S (S (S s))))))).
  destruct (draw_component tape fuel loop_cfg center "A" _) as [[n | e] s1];
    simpl in IH; [discriminate IH | now rewrite IH].
Qed.

(** C6, counterexample.  A polygon whose only center element is itself:
    whatever the generator and however deep the call stack, the draw ends
    by exhausting the stack.  No cycle is detected and no other error is
    reported. *)
Lemma self_reference_exhausts_the_stack :
  ~ exists (tape : nat -> nat) (fuel : nat) (center : R * R) (s : nat),
      fst (draw_component tape fuel loop_cfg center "A" s) <> Raise RecursionError.
Proof.
  intros (tape & fuel & center & s & H). apply H, loop_overflows.
Qed.

(** C7, counterexample.  The first requested component is drawn and added
    to the drawing; only then does the empty size option set of the second
    one raise [IndexError]. *)
Lemma failure_after_drawing :
  outcome (main tape0 1 broken_cfg 0) = Raise IndexError /\
  scene (main tape0 1 broken_cfg 0)
  = [dwg_circle (canvas_center broken_cfg) (10 / 2) "black" 1].
Proof. evaluate. split; reflexivity. Qed.

(** ** Witnesses *)

Lemma polygon_vertex_computation_witness :
  let center : R * R := (100, 100) in
  let theta := 360 / 3 * (PI / 180) in
  let seed : R * R := (0, 100 * (5 / 10)) in
  let second : R * R :=
    (Rround7 (0 * cos (- theta) - 100 * (5 / 10) * sin (- theta)),
     Rround7 (0 * sin (- theta) + 100 * (5 / 10) * cos (- theta))) in
  (3 <= 3)%Z /\
  List.length (polygon_points 3 center 100) = 4%nat /\
  nth_error (local_points 3 100) 0 = Some seed /\
  nth_error (local_points 3 100) 1 = Some second /\
  nth_error (polygon_points 3 center 100) 0 = Some (0 + 100, 100 * (5 / 10) + 100) /\
  nth_error (polygon_points 3 center 100) 1
  = Some (fst second + 100, snd second + 100) /\
  nth_error (polygon_points 3 center 100) 3
  = Some (fst (vertex 3 theta seed) + 100, snd (vertex 3 theta seed) + 100).
Proof.
  intros center theta seed second.
  destruct (@polygon_vertex_computation R RealOps 3 center 100 ltac:(lia))
    as (L & H0 & Hn & Ht & Hf & Hl).
  split; [lia |].
  split; [apply Nat2Z.inj; exact L |].
  split; [exact H0 |].
  pose proof (Hn 0%nat seed ltac:(simpl; lia) H0) as H1.
  split; [exact H1 |].
  split; [exact Hf |].
  split; [| exact Hl].
  rewrite (Ht 1%nat), H1. reflexivity.
Defined.

Lemma nonzero_quarter_turn : nonzero 90 = true.
Proof. simpl. destruct (Req_dec_T 90 0); [lra | reflexivity]. Qed.

Lemma nonzero_no_turn : nonzero 0 = false.
Proof. simpl. destruct (Req_dec_T 0 0); [reflexivity | lra]. Qed.

Lemma rotation_transform_witness :
  let center : R * R := (100, 100) in
  let dc := draw_component tape0 1 scene_cfg in
  let rect := dwg_rect (100 - 50 / 2, 100 - 50 / 2) (50, 50) "green" 1 in
  let oval := dwg_ellipse center (50 / 2, 50 / 4) "green" 1 in
  let tri := polygon_shape 3 center 100 "red" 1 in
  (draw tape0 dc square_inst center 50 90 0%nat = (Ok (rotate rect 90 center), 2%nat) /\
   transform (primitive (rotate rect 90 center)) = [(90, center)]) /\
  (draw tape0 dc square_inst center 50 0 0%nat = (Ok rect, 2%nat) /\
   transform (primitive rect) = []) /\
  (draw tape0 dc oval_inst center 50 90 0%nat = (Ok (rotate oval 90 center), 2%nat) /\
   transform (primitive (rotate oval 90 center)) = [(90, center)]) /\
  (draw tape0 dc bare_inst center 100 90 0%nat = (Ok (rotate tri 90 center), 2%nat) /\
   transform (primitive (rotate tri 90 center)) = [(90, center)]) /\
  (draw tape0 dc bare_inst center 100 0 0%nat = (Ok tri, 2%nat) /\
   transform (primitive tri) = []) /\
  (exists n s',
     draw tape0 dc ring_inst center 40 90 0%nat = (Ok n, s') /\
     points (primitive n) = polygon_points 4 center 40 /\
     transform (primitive n) = []) /\
  (exists n s', draw tape0 dc oval_inst center 50 0 0%nat = (Ok n, s')).
Proof.
  intros center dc rect oval tri.
  pose proof (fun c size rotation n s' E =>
                proj1 (@rotation_transform_iff_nonzero R RealOps tape0 dc c center
                         size rotation 0%nat) n s' E) as T.
  assert (E1 : draw tape0 dc square_inst center 50 90 0%nat
               = (Ok (rotate rect 90 center), 2%nat)).
  { evaluate. destruct (Req_dec_T 90 0); [lra | reflexivity]. }
  assert (E2 : draw tape0 dc square_inst center 50 0 0%nat = (Ok rect, 2%nat)).
  { evaluate. destruct (Req_dec_T 0 0); [reflexivity | lra]. }
  assert (E3 : draw tape0 dc oval_inst center 50 90 0%nat
               = (Ok (rotate oval 90 center), 2%nat)).
  { evaluate. destruct (Req_dec_T 90 0); [lra | reflexivity]. }
  assert (E4 : draw tape0 dc bare_inst center 100 90 0%nat
               = (Ok (rotate tri 90 center), 2%nat)).
  { evaluate. destruct (Req_dec_T 90 0); [lra | reflexivity]. }
  assert (E5 : draw tape0 dc bare_inst center 100 0 0%nat = (Ok tri, 2%nat)).
  { evaluate. destruct (Req_dec_T 0 0); [reflexivity | lra]. }
  pose proof (proj1 (T _ _ _ _ _ E1)) as T1.
  pose proof (proj1 (T _ _ _ _ _ E2)) as T2.
  pose proof (proj1 (T _ _ _ _ _ E3)) as T3.
  pose proof (proj1 (proj2 (T _ _ _ _ _ E4))) as T4.
  pose proof (proj1 (proj2 (T _ _ _ _ _ E5))) as T5.
  rewrite nonzero_quarter_turn in T1, T3, T4.
  rewrite nonzero_no_turn in T2, T5.
  split; [split; [exact E1 | exact T1] |].
  split; [split; [exact E2 | exact T2] |].
  split; [split; [exact E3 | exact T3] |].
  split; [split; [exact E4 | exact T4] |].
  split; [split; [exact E5 | exact T5] |].
  split.
  - destruct (draw tape0 dc ring_inst center 40 90 0%nat) as [[n | e] s'] eqn:E6;
      [| exfalso; evaluate_in E6; discriminate E6].
    exists n, s'. split; [reflexivity |]. exact (T _ _ _ _ _ E6).
  - destruct (proj2 (@rotation_transform_iff_nonzero R RealOps tape0 dc oval_inst center
                       50 0 0%nat) ltac:(discriminate) ltac:(discriminate))
      as [H | (e & v & id & s1 & s' & [] & _)].
    exact H.
Defined.

Lemma Polygon_draw_center_element_witness :
  let center : R * R := (100, 100) in
  let dc := draw_component tape0 1 scene_cfg in
  let tri_node :=
    Group [turned (polygon_shape 3 center 100 "red" 1) 0 center;
           dwg_circle center (10 / 2) "black" 1] in
  draw tape0 dc tri_inst center 100 0 0%nat = (Ok tri_node, 14%nat) /\
  (exists f o cc,
     In f (fill_options red_style) /\ In o (opacity_options red_style) /\
     tri_node = Group [turned (polygon_shape 3 center 100 f o) 0 center; cc] /\
     drawn_from_registry tape0 1 scene_cfg center "circle" 2 cc 14) /\
  (exists f o,
     In f (fill_options red_style) /\ In o (opacity_options red_style) /\
     draw tape0 dc bare_inst center 100 0 0%nat
     = (Ok (turned (polygon_shape 3 center 100 f o) 0 center), 2%nat)).
Proof.
  intros center dc tri_node.
  assert (E : draw tape0 dc tri_inst center 100 0 0%nat = (Ok tri_node, 14%nat))
    by (evaluate; reflexivity).
  split; [exact E |]. split.
  - exact (proj2 (@Polygon_draw_center_element R RealOps tape0 1 scene_cfg
                    "tri" red_style 3 (Some "circle"%string) center 100 0 0%nat)
                 "circle"%string tri_node 14%nat eq_refl E).
  - exact (proj1 (@Polygon_draw_center_element R RealOps tape0 1 scene_cfg
                    "bare" red_style 3 None center 100 0 0%nat)
                 eq_refl ltac:(discriminate) ltac:(discriminate)).
Defined.

Lemma PolygonGroup_circle_children_witness :
  exists n s',
    draw tape0 (draw_component tape0 1 scene_cfg) ring_inst (50, 50) 40 0 0%nat
    = (Ok n, s') /\
    exists f o kids,
      n = Group (polygon_shape 4 (50, 50) 40 f o :: kids) /\
      List.length kids = 4%nat.
Proof.
  destruct (draw tape0 (draw_component tape0 1 scene_cfg) ring_inst (50, 50) 40 0
                 0%nat) as [[n | e] s'] eqn:E;
    [| exfalso; evaluate_in E; discriminate E].
  exists n, s'. split; [reflexivity |].
  destruct (@PolygonGroup_circle_children R RealOps tape0 1 scene_cfg
              "ring" two_fills 4 None (50, 50) 40 0 0%nat n s' E)
    as (f & o & part & kids & s1 & En & Hp & Hl & _).
  destruct Hp as [-> _].
  exists f, o, kids. split; [exact En | exact Hl].
Defined.

Lemma PolygonGroup_polygon_children_witness :
  exists n s',
    draw tape1 (draw_component tape1 0 scene_cfg) fan_inst (0, 0) 40 0 0%nat
    = (Ok n, s') /\
    exists f o kids s1,
      n = Group (polygon_shape 3 (0, 0) 40 f o :: kids) /\
      List.length kids = 3%nat /\
      chained (child_polygon_at tape1 two_fills 3 40 0)
              (firstn 3 (polygon_points 3 (0, 0) 40)) kids s1 s'.
Proof.
  destruct (draw tape1 (draw_component tape1 0 scene_cfg) fan_inst (0, 0) 40 0
                 0%nat) as [[n | e] s'] eqn:E;
    [| exfalso; evaluate_in E; discriminate E].
  exists n, s'. split; [reflexivity |].
  destruct (@PolygonGroup_polygon_children R RealOps tape1
              (draw_component tape1 0 scene_cfg)
              "fan" two_fills 3 None (0, 0) 40 0 0%nat n s' E)
    as (f & o & part & kids & s1 & En & Hp & Hl & Hc & _).
  destruct Hp as [-> _].
  exists f, o, kids, s1. split; [exact En |]. split; [exact Hl | exact Hc].
Defined.

Lemma scene_cfg_acyclic : acyclic scene_cfg scene_rank.
Proof.
  intros id p r Hl Hr. unfold scene_cfg, element_defs in Hl. cbn [lookup] in Hl.
  repeat match type of Hl with
         | (if String.eqb id ?k then _ else _) = _ =>
             destruct (String.eqb_spec id k) as [-> | _]
         end; try discriminate Hl; injection Hl as <-;
    cbv in Hr; repeat destruct Hr as [<- | Hr]; try contradiction;
    cbv; lia.
Qed.

Lemma acyclic_composition_witness :
  acyclic scene_cfg scene_rank /\ (scene_rank "tri" < 2)%nat /\
  fst (draw_component tape0 2 scene_cfg ((100, 100) : R * R) "tri" 0%nat)
  <> Raise RecursionError /\
  forall fuel', (2 <= fuel')%nat ->
    draw_component tape0 fuel' scene_cfg ((100, 100) : R * R) "tri" 0%nat
    = draw_component tape0 2 scene_cfg (100, 100) "tri" 0%nat.
Proof.
  assert (Hr : (scene_rank "tri" < 2)%nat) by (cbv; lia).
  split; [exact scene_cfg_acyclic |].
  split; [exact Hr |].
  exact (@acyclic_composition_terminates R RealOps tape0 scene_cfg scene_rank 2
           "tri" (100, 100) 0%nat scene_cfg_acyclic Hr).
Defined.

Lemma nest_registry_built s :
  parse_components tape0 nest_cfg s = (Ok nest_registry, (2 + s)%nat).
Proof. reflexivity. Qed.

Lemma empty_option_set_witness :
  let center : R * R := canvas_center nest_cfg in
  let dot := dwg_circle center (10 / 2) "black" 1 in
  parse_components tape0 nest_cfg 0%nat = (Ok nest_registry, 2%nat) /\
  occurs tape0 1 nest_cfg nest_registry 2%nat [dot] (NestedDraw 1 center "bad") 10%nat /\
  instance tape0 nest_cfg nest_registry (NestedDraw 1 center "bad") 10%nat
           (Circle "bad" no_size) 12%nat /\
  has_empty_option no_size /\
  draw_component tape0 1 nest_cfg center "bad" 10%nat = (Raise IndexError, 12%nat) /\
  main tape0 1 nest_cfg 0%nat = mkRun (Raise IndexError) [dot] 12%nat.
Proof.
  intros center dot.
  assert (Hp : parse_components tape0 nest_cfg 0%nat = (Ok nest_registry, 2%nat))
    by exact (nest_registry_built 0%nat).
  assert (Ht : occurs tape0 1 nest_cfg nest_registry 2%nat [dot] (TopDraw "nest") 6%nat).
  { apply (occurs_top tape0 1 nest_cfg nest_registry 2%nat ["circle"%string] "nest"
             ["circle"%string] [dot] 6%nat); [reflexivity |].
    exists 6%nat. split; [evaluate; reflexivity | reflexivity]. }
  assert (Ho : occurs tape0 1 nest_cfg nest_registry 2%nat [dot]
                 (NestedDraw 1 center "bad") 10%nat).
  { apply (occurs_nested tape0 1 nest_cfg nest_registry 2%nat [dot] (TopDraw "nest")
             6%nat nest_inst 6%nat 100 0 center "bad" 10%nat Ht).
    - split; reflexivity.
    - reflexivity.
    - reflexivity.
    - exists "red"%string, 1. repeat split; reflexivity. }
  assert (Hi : instance tape0 nest_cfg nest_registry (NestedDraw 1 center "bad") 10%nat
                 (Circle "bad" no_size) 12%nat).
  { exists nest_registry. split; reflexivity. }
  assert (He : has_empty_option no_size) by (left; reflexivity).
  split; [exact Hp |]. split; [exact Ho |]. split; [exact Hi |]. split; [exact He |].
  destruct (proj1 (@empty_option_set_is_fatal R RealOps tape0 1 nest_cfg 0%nat
                     nest_registry 2%nat [dot] (NestedDraw 1 center "bad") 10%nat
                     Hp Ho)
                  (Circle "bad" no_size) 12%nat Hi He) as (s' & E & Hm).
  assert (s' = 12%nat) as ->.
  { assert (D := f_equal snd E). evaluate_in D. symmetry. exact D. }
  split; [exact E | exact Hm].
Defined.

Lemma redraw_witness :
  let center : R * R := (200 / 2, 200 / 2) in
  let first := turned (polygon_shape 3 center 40 "blue" 1) 0 center in
  let second := turned (polygon_shape 3 center 40 "red" 1) 0 center in
  parse_components tape2 twice_cfg 0%nat
  = (Ok [("shape"%string, Some shape_inst)], 2%nat) /\
  main tape2 1 twice_cfg 0%nat = mkRun (Ok tt) [first; second] 10%nat /\
  (List.length (points (primitive first)) = 4%nat /\
   List.length (points (primitive second)) = 4%nat) /\
  exists si si' sj sj',
    (2 <= si)%nat /\ (si + 4 <= si')%nat /\ (si' <= sj)%nat /\
    resolved_on_call tape2 (draw_component tape2 1 twice_cfg) shape_inst 3
                     (canvas_center twice_cfg) si first si' /\
    resolved_on_call tape2 (draw_component tape2 1 twice_cfg) shape_inst 3
                     (canvas_center twice_cfg) sj second sj'.
Proof.
  intros center first second.
  assert (Hp : parse_components tape2 twice_cfg 0%nat
               = (Ok [("shape"%string, Some shape_inst)], 2%nat)) by reflexivity.
  assert (E : main tape2 1 twice_cfg 0%nat = mkRun (Ok tt) [first; second] 10%nat)
    by (evaluate; reflexivity).
  split; [exact Hp |]. split; [exact E |].
  assert (H1 : nth_error (scene (main tape2 1 twice_cfg 0%nat)) 0 = Some first)
    by (rewrite E; reflexivity).
  assert (H2 : nth_error (scene (main tape2 1 twice_cfg 0%nat)) 1 = Some second)
    by (rewrite E; reflexivity).
  destruct (@redraw_keeps_construction_choices R RealOps tape2 1 twice_cfg 0%nat
              [("shape"%string, Some shape_inst)] 2%nat "shape" shape_inst 3
              0%nat 1%nat first second Hp eq_refl eq_refl ltac:(lia) eq_refl eq_refl
              H1 H2) as (P & _ & R).
  split; [exact P | exact R].
Defined.

Lemma scene_in_request_order_witness :
  let center : R * R := (200 / 2, 200 / 2) in
  let tri :=
    Group [turned (polygon_shape 3 center 100 "red" 1) 0 center;
           dwg_circle center (10 / 2) "black" 1] in
  let dot := dwg_circle center (10 / 2) "black" 1 in
  parse_components tape0 scene_cfg 0%nat = (Ok scene_registry, 8%nat) /\
  main tape0 1 scene_cfg 0%nat = mkRun (Ok tt) [tri; dot] 28%nat /\
  component_to_draw scene_cfg = ["tri"; "circle"]%string /\
  draw tape0 (draw_component tape0 1 scene_cfg) tri_inst center 100 0 10%nat
  = (Ok tri, 24%nat) /\
  draw tape0 (draw_component tape0 1 scene_cfg) circle_inst center 10 0 26%nat
  = (Ok dot, 28%nat).
Proof.
  intros center tri dot.
  assert (Hp : parse_components tape0 scene_cfg 0%nat = (Ok scene_registry, 8%nat))
    by exact (sample_registry 0%nat).
  assert (E : main tape0 1 scene_cfg 0%nat = mkRun (Ok tt) [tri; dot] 28%nat)
    by (evaluate; reflexivity).
  split; [exact Hp |]. split; [exact E |]. split; [reflexivity |].
  pose proof (proj1 (proj1 (@scene_in_request_order R RealOps tape0 1 scene_cfg
                              scene_registry 0%nat 8%nat Hp) [tri; dot] 28%nat) E)
    as H.
  cbn [chained component_to_draw scene_cfg] in H.
  destruct H as (s1 & (c1 & z1 & r1 & L1 & _ & _ & Iz1 & Ir1 & D1)
                    & s2 & (c2 & z2 & r2 & L2 & _ & _ & Iz2 & Ir2 & D2) & <-).
  cbv in L1, L2. injection L1 as <-. injection L2 as <-.
  cbv [style size_options rotation_options red_style dot_style] in Iz1, Ir1, Iz2, Ir2.
  destruct Iz1 as [<- | []]. destruct Ir1 as [<- | []].
  destruct Iz2 as [<- | []]. destruct Ir2 as [<- | []].
  assert (s1 = 24%nat) as ->.
  { assert (D := f_equal snd D1). evaluate_in D. symmetry. exact D. }
  split; [exact D1 | exact D2].
Defined.

Lemma caller_resolves_witness :
  let center : R * R := (100, 100) in
  let still : @Component R := Circle "still" no_rotation in
  let components : @Registry R := [("still"%string, Some still)] in
  (lookup "circle" scene_registry = Some (Some circle_inst) /\
   parse_components tape0 scene_cfg 0%nat = (Ok scene_registry, 8%nat) /\
   draw_component tape0 2 scene_cfg center "circle" 0%nat
   = (Ok (dwg_circle center (10 / 2) "black" 1), 12%nat) /\
   draw_component tape0 2 scene_cfg center "tri" 0%nat
   = draw tape0 (draw_component tape0 1 scene_cfg) tri_inst center 100 0 10%nat /\
   draw_top tape0 1 scene_cfg scene_registry "tri" 8%nat
   = draw tape0 (draw_component tape0 1 scene_cfg) tri_inst (canvas_center scene_cfg)
          100 0 10%nat) /\
  (lookup "still" components = Some (Some still) /\
   parse_components tape0 still_cfg 0%nat = (Ok components, 0%nat) /\
   draw_top tape0 1 still_cfg components "still" 0%nat = (Raise IndexError, 1%nat) /\
   draw_component tape0 2 still_cfg center "still" 0%nat = (Raise IndexError, 1%nat)).
Proof.
  intros center still components. split.
  - assert (Hl : lookup "circle" scene_registry = Some (Some circle_inst))
      by reflexivity.
    assert (Hp : parse_components tape0 scene_cfg 0%nat = (Ok scene_registry, 8%nat))
      by reflexivity.
    split; [exact Hl |]. split; [exact Hp |]. split.
    + destruct (proj2 (proj2 (proj2
                 (@caller_resolves_size_and_rotation R RealOps tape0 1 scene_cfg
                    scene_registry "circle" circle_inst center 0%nat 8%nat Hl Hp)))
                 "circle"%string dot_style eq_refl)
        as (_ & H).
      destruct (H ltac:(discriminate) ltac:(discriminate) ltac:(discriminate)
                  ltac:(discriminate))
        as (size & f & o & Is & If & Io & E).
      destruct Is as [<- | []]. destruct If as [<- | []]. destruct Io as [<- | []].
      exact E.
    + assert (Hl' : lookup "tri" scene_registry = Some (Some tri_inst)) by reflexivity.
      destruct (proj1 (@caller_resolves_size_and_rotation R RealOps tape0 1 scene_cfg
                         scene_registry "tri" tri_inst center 0%nat 8%nat Hl' Hp)
                      ltac:(discriminate) ltac:(discriminate))
        as (size & rot & Is & Ir & _ & _ & Et & Ec).
      destruct Is as [<- | []]. destruct Ir as [<- | []].
      split; [exact Ec | exact Et].
  - assert (Hl : lookup "still" components = Some (Some still)) by reflexivity.
    assert (Hp : parse_components tape0 still_cfg 0%nat = (Ok components, 0%nat))
      by reflexivity.
    split; [exact Hl |]. split; [exact Hp |].
    exact (proj1 (proj2 (proj2
             (@caller_resolves_size_and_rotation R RealOps tape0 1 still_cfg
                components "still" still center 0%nat 0%nat Hl Hp)))
             ltac:(discriminate) eq_refl).
Defined.

(** * The rest of the program *)

Local Close Scope R_scope.

(** ** Canvas size *)

Lemma split_nonempty sep s : split sep s <> [].
Proof.
  destruct s as [| c rest]; simpl; [discriminate |].
  destruct (Ascii.eqb c sep); [discriminate |].
  destruct (split sep rest); discriminate.
Qed.

Lemma split_length sep s : List.length (split sep s) = count sep s + 1.
Proof.
  induction s as [| c rest IH]; simpl; [reflexivity |].
  destruct (Ascii.eqb c sep); simpl; [now rewrite IH |].
  destruct (split sep rest) as [| h t] eqn:E; simpl in *; [lia | exact IH].
Qed.

Lemma join_split sep s : join sep (split sep s) = s.
Proof.
  induction s as [| c rest IH]; simpl; [reflexivity |].
  destruct (Ascii.eqb_spec c sep) as [-> | Hne].
  - pose proof (split_nonempty sep rest) as Hn.
    destruct (split sep rest) as [| h t] eqn:E; [congruence |].
    simpl. simpl in IH. now rewrite IH.
  - pose proof (split_nonempty sep rest) as Hn.
    destruct (split sep rest) as [| h t] eqn:E; [congruence |].
    simpl in *. destruct t; simpl in *; now rewrite IH.
Qed.

Lemma split_parts_clean sep s : Forall (fun p => count sep p = 0) (split sep s).
Proof.
  induction s as [| c rest IH]; simpl; [repeat constructor |].
  destruct (Ascii.eqb c sep) eqn:Ec; [constructor; [reflexivity | exact IH] |].
  destruct (split sep rest) as [| h t]; [repeat constructor; simpl; now rewrite Ec |].
  inversion IH; subst. constructor; [simpl; now rewrite Ec | assumption].
Qed.

Lemma split_clean sep a : count sep a = 0 -> split sep a = [a].
Proof.
  induction a as [| c rest IH]; simpl; [reflexivity |].
  destruct (Ascii.eqb c sep); [discriminate |]. simpl. intros H.
  now rewrite IH.
Qed.

Lemma split_app sep a b :
  count sep a = 0 -> split sep (a ++ String sep b) = a :: split sep b.
Proof.
  induction a as [| c rest IH]; simpl.
  - intros _. now rewrite Ascii.eqb_refl.
  - destruct (Ascii.eqb c sep); [discriminate |]. simpl. intros H.
    now rewrite IH.
Qed.

Lemma split_two sep s a b :
  split sep s = [a; b] <->
  s = (a ++ String sep b)%string /\ count sep a = 0 /\ count sep b = 0.
Proof.
  split.
  - intros E. pose proof (join_split sep s) as J.
    pose proof (split_parts_clean sep s) as C. rewrite E in J, C.
    simpl in J. inversion C as [| ? ? Ha C']; subst. inversion C'; subst.
    auto.
  - intros (-> & Ha & Hb). rewrite split_app by exact Ha.
    now rewrite split_clean.
Qed.

Section Canvas.
Variable int : string -> option Z.

(** X1. [parse_canvas_size] returns a pair exactly for a text with a
    single ["x"] whose two sides [int] accepts, and the pair is what [int]
    makes of the two sides, width first. *)
Theorem parse_canvas_size_ok size_str w h :
  parse_canvas_size int size_str = inr (w, h) <->
  exists a b,
    size_str = (a ++ "x" ++ b)%string /\
    count "x" a = 0 /\ count "x" b = 0 /\
    int a = Some w /\ int b = Some h.
Proof.
  unfold parse_canvas_size. split.
  - destruct (split "x" size_str) as [| a [| b [| c l]]] eqn:E; try discriminate.
    apply split_two in E as (-> & Ha & Hb).
    destruct (int a) as [w' |] eqn:Ia; [| discriminate].
    destruct (int b) as [h' |] eqn:Ib; [| discriminate].
    intros H. injection H as <- <-. exists a, b. auto.
  - intros (a & b & -> & Ha & Hb & Ia & Ib).
    replace (split "x" (a ++ "x" ++ b)) with [a; b]
      by (symmetry; apply split_two; auto).
    now rewrite Ia, Ib.
Qed.

(** X2. The errors of [parse_canvas_size]: a text without ["x"] cannot
    be unpacked (one value for two names), a text with two or more ["x"]
    neither (too many values); with a single ["x"] the error names the
    first side that [int] refuses, the width before the height. *)
Theorem parse_canvas_size_errors size_str :
  (count "x" size_str = 0 <->
   parse_canvas_size int size_str = inl (NotEnoughValues 1)) /\
  (2 <= count "x" size_str <->
   parse_canvas_size int size_str = inl TooManyValues) /\
  (forall a b,
     count "x" a = 0 -> count "x" b = 0 ->
     size_str = (a ++ "x" ++ b)%string ->
     (int a = None -> parse_canvas_size int size_str = inl (InvalidLiteral a)) /\
     (int a <> None -> int b = None ->
      parse_canvas_size int size_str = inl (InvalidLiteral b))).
Proof.
  unfold parse_canvas_size.
  pose proof (split_length "x" size_str) as L.
  split; [| split].
  - destruct (split "x" size_str) as [| a [| b [| c l]]] eqn:E; simpl in L;
      (split; [intros H; try lia; try reflexivity | intros H; try lia; try discriminate H]).
    + destruct (int a); [destruct (int b) |]; discriminate H.
  - destruct (split "x" size_str) as [| a [| b [| c l]]] eqn:E; simpl in L;
      (split; [intros H; try lia; try reflexivity | intros H; try lia; try discriminate H]).
    + destruct (int a); [destruct (int b) |]; discriminate H.
  - intros a b Ha Hb ->.
    replace (split "x" (a ++ "x" ++ b)) with [a; b]
      by (symmetry; apply split_two; auto).
    split.
    + intros ->. reflexivity.
    + intros Ia Ib. destruct (int a); [| congruence]. now rewrite Ib.
Qed.
End Canvas.

(** ** The registry against the definition entries *)

Section Registry.

Context {num : Type} {ops : FloatOps num}.
Variable tape : nat -> nat.

Lemma random_choice_step {A} (x : A) l s :
  exists y, random_choice tape (x :: l) s = (Ok y, S s) /\ In y (x :: l).
Proof. apply random_choice_nonempty. discriminate. Qed.

Lemma known_type_cases t :
  known_type t = true ->
  t = "Circle"%string \/ t = "Rect"%string \/ t = "Ellipse"%string \/
  t = "Polygon"%string \/ t = "PolygonGroup"%string.
Proof.
  unfold known_type. rewrite !orb_true_iff, !String.eqb_eq. tauto.
Qed.

Lemma create_component_spec (p : @Params num) s :
  match construction_error p with
  | Some e => exists s', create_component tape p s = (Raise e, s')
  | None =>
      exists c,
        create_component tape p s = (Ok c, construction_draws p + s) /\
        built_from p c
  end.
Proof.
  unfold construction_error, create_component, construction_draws, built_from,
    known_type.
  destruct (String.eqb_spec (p_type p) "Circle") as [E1 | N1];
    [eexists; split; [reflexivity | now repeat split] |].
  destruct (String.eqb_spec (p_type p) "Rect") as [E2 | N2];
    [eexists; split; [reflexivity | now repeat split] |].
  destruct (String.eqb_spec (p_type p) "Ellipse") as [E3 | N3];
    [eexists; split; [reflexivity | now repeat split] |].
  destruct (String.eqb_spec (p_type p) "Polygon") as [E4 | N4].
  - unfold first_missing, Polygon_init, getkey.
    destruct (p_vertex_count p) as [vcs |]; [| eexists; reflexivity].
    destruct (p_center_elements p) as [ces |]; [| eexists; reflexivity].
    destruct vcs as [| vc vcs]; [eexists; reflexivity |].
    destruct (random_choice_step vc vcs s) as (v & Ev & Iv).
    destruct ces as [| ce ces].
    + eexists. unfold bind, ret. rewrite Ev. reflexivity.
    + destruct (random_choice_step ce ces (S s)) as (c & Ec & Ic).
      eexists. unfold bind, ret. rewrite Ev, Ec. split; [reflexivity |].
      split; [assumption |]. do 2 (split; [reflexivity |]).
      do 2 eexists. repeat split; try reflexivity; assumption.
  - destruct (String.eqb_spec (p_type p) "PolygonGroup") as [E5 | N5];
      [| eexists; split; [reflexivity | reflexivity]].
    unfold first_missing, PolygonGroup_init, getkey.
    destruct (p_vertex_count_options p) as [vcs |]; [| eexists; reflexivity].
    destruct (p_vertex_elements p) as [ves |]; [| eexists; reflexivity].
    destruct (p_center_elements p) as [ces |]; [| eexists; reflexivity].
    destruct vcs as [| vc vcs];
      [destruct ves, ces; eexists; reflexivity |].
    destruct (random_choice_step vc vcs s) as (v & Ev & Iv).
    destruct ves as [| ve ves].
    + eexists. unfold bind, ret. rewrite Ev. reflexivity.
    + destruct (random_choice_step ve ves (S s)) as (e & Ee & Ie).
      destruct ces as [| ce ces].
      * eexists. unfold bind, ret. rewrite Ev, Ee. reflexivity.
      * destruct (random_choice_step ce ces (S (S s))) as (c & Ec & Ic).
        eexists. unfold bind, ret. rewrite Ev, Ee, Ec. split; [reflexivity |].
        split; [assumption |]. do 2 (split; [reflexivity |]).
        do 3 eexists. repeat split; try reflexivity; assumption.
Qed.

Lemma build_components_spec (defs : list (string * @Params num)) s :
  match first_construction_error defs with
  | Some e => exists s', build_components tape defs s = (Raise e, s')
  | None =>
      exists comps,
        build_components tape defs s = (Ok comps, total_draws defs + s) /\
        Forall2 mirrors defs comps
  end.
Proof.
  revert s. induction defs as [| [key p] defs IH]; intros s; simpl.
  - exists []. split; [reflexivity | constructor].
  - pose proof (create_component_spec p s) as Hc.
    destruct (construction_error p) as [e |].
    + destruct Hc as (s' & Hc). exists s'. unfold bind. now rewrite Hc.
    + destruct Hc as (c & Hc & Hb).
      specialize (IH (construction_draws p + s)).
      destruct (first_construction_error defs) as [e |].
      * destruct IH as (s' & IH). exists s'. unfold bind. now rewrite Hc, IH.
      * destruct IH as (comps & IH & HF).
        exists ((key, c) :: comps). unfold bind, ret. rewrite Hc, IH.
        split.
        -- f_equal. unfold total_draws. simpl. lia.
        -- constructor; [split; [reflexivity | exact Hb] | exact HF].
Qed.

Lemma lookup_mirrors (defs : list (string * @Params num)) comps id :
  Forall2 mirrors defs comps ->
  match lookup id defs with
  | None => lookup id comps = None
  | Some p => exists c, lookup id comps = Some c /\ built_from p c
  end.
Proof.
  induction 1 as [| [k p] [k' c] defs comps [Hk Hb] HF IH]; simpl; [reflexivity |].
  simpl in Hk, Hb. subst k'.
  destruct (String.eqb id k); [exists c; auto | exact IH].
Qed.

End Registry.

Section RegistryUse.

Context {num : Type} {ops : FloatOps num}.
Variable tape : nat -> nat.

Lemma parse_components_built (params : @Config num) s comps s' :
  parse_components tape params s = (Ok comps, s') ->
  first_construction_error (element_defs params) = None /\
  Forall2 mirrors (element_defs params) comps /\
  s' = total_draws (element_defs params) + s.
Proof.
  unfold parse_components. intros H.
  pose proof (build_components_spec tape (element_defs params) s) as B.
  destruct (first_construction_error (element_defs params)) as [e |].
  - destruct B as (s1 & B). rewrite B in H. discriminate H.
  - destruct B as (comps' & B & HF). rewrite B in H. injection H as <- <-.
    auto.
Qed.

Lemma parse_components_builds (params : @Config num) s :
  first_construction_error (element_defs params) = None ->
  exists comps,
    parse_components tape params s
    = (Ok comps, total_draws (element_defs params) + s) /\
    Forall2 mirrors (element_defs params) comps.
Proof.
  intros E. pose proof (build_components_spec tape (element_defs params) s) as B.
  rewrite E in B. exact B.
Qed.

(** X3. A registry that builds has the keys of [element_defs] in the
    same order; under each key sits an instance built from the entry of
    that key (its variant is the entry's type, its style the entry's
    style, its construction-time choices are members of the entry's
    lists, and an unknown type leaves [None]); a key is absent from the
    registry exactly when it is absent from the definitions; and the build
    has made exactly two random draws per [Polygon] entry and three per
    [PolygonGroup] entry. *)
Theorem registry_mirrors_definitions (params : @Config num) s comps s' :
  parse_components tape params s = (Ok comps, s') ->
  map fst comps = map fst (element_defs params) /\
  Forall2 (fun d c => built_from (snd d) (snd c)) (element_defs params) comps /\
  (forall id, lookup id comps = None <-> lookup id (element_defs params) = None) /\
  s' = total_draws (element_defs params) + s.
Proof.
  intros H. apply parse_components_built in H as (_ & HF & ->).
  split; [| split; [| split; [| reflexivity]]].
  - induction HF as [| d c ds cs [Hk _] _ IH]; simpl; [reflexivity |].
    now rewrite Hk, IH.
  - induction HF as [| d c ds cs [_ Hb] _ IH]; constructor; assumption.
  - intros id. pose proof (lookup_mirrors (element_defs params) comps id HF) as L.
    destruct (lookup id (element_defs params)) as [p |].
    + destruct L as (c & -> & _). split; discriminate.
    + rewrite L. tauto.
Qed.

(** X4. Whether the registry builds does not depend on the random draws
    or on the moment of the build: if one build succeeds, so does every
    other (each rebuild of a nested draw included), after the same number
    of draws of the generator; if one fails, every build fails with the
    same exception, that of the first entry in file order whose
    construction fails. *)
Theorem registry_build_is_static (params : @Config num) tape1 s1 tape2 s2 :
  (forall comps s', parse_components tape1 params s1 = (Ok comps, s') ->
     exists comps',
       parse_components tape2 params s2
       = (Ok comps', total_draws (element_defs params) + s2)) /\
  (forall e s', parse_components tape1 params s1 = (Raise e, s') ->
     first_construction_error (element_defs params) = Some e /\
     exists s'', parse_components tape2 params s2 = (Raise e, s'')).
Proof.
  unfold parse_components.
  pose proof (build_components_spec tape1 (element_defs params) s1) as B1.
  pose proof (build_components_spec tape2 (element_defs params) s2) as B2.
  destruct (first_construction_error (element_defs params)) as [e0 |] eqn:E.
  - destruct B1 as (t1 & B1). destruct B2 as (t2 & B2). split.
    + intros comps s' H. rewrite B1 in H. discriminate H.
    + intros e s' H. rewrite B1 in H. injection H as <- <-.
      split; [reflexivity | eauto].
  - destruct B1 as (c1 & B1 & _). destruct B2 as (c2 & B2 & _). split.
    + intros comps s' _. eauto.
    + intros e s' H. rewrite B1 in H. discriminate H.
Qed.

(** X5. One broken entry anywhere in [element_defs] stops everything:
    [main] ends with the entry's error before anything is drawn, and a
    nested draw of any component, broken or not, raises the same error. *)
Theorem broken_entry_stops_everything (params : @Config num) e fuel (center : @Point num) id s :
  first_construction_error (element_defs params) = Some e ->
  outcome (main tape fuel params s) = Raise e /\
  scene (main tape fuel params s) = [] /\
  fst (draw_component tape (S fuel) params center id s) = Raise e.
Proof.
  intros E.
  pose proof (build_components_spec tape (element_defs params) s) as B.
  rewrite E in B. destruct B as (s' & B).
  unfold main, parse_components. simpl. unfold bind, parse_components.
  rewrite B. auto.
Qed.

(** X6. A component id that is no key of [element_defs] raises
    [KeyError] with that id, at top level and in a nested draw, before any
    style option is resolved. *)
Theorem unknown_id_is_key_error (params : @Config num) s0 comps s fuel (center : @Point num) id :
  parse_components tape params s0 = (Ok comps, s) ->
  lookup id (element_defs params) = None ->
  draw_top tape fuel params comps id s = (Raise (KeyError id), s) /\
  draw_component tape (S fuel) params center id s0 = (Raise (KeyError id), s).
Proof.
  intros H L. pose proof H as H'.
  apply parse_components_built in H' as (_ & HF & _).
  pose proof (lookup_mirrors (element_defs params) comps id HF) as Lc.
  rewrite L in Lc.
  split.
  - unfold draw_top, bind, find_component. now rewrite Lc.
  - simpl. unfold bind, find_component. now rewrite H, Lc.
Qed.

(** X7. An entry of unknown type is no error when the registry is built:
    the registry holds [None] under its key.  Drawing it, at top level or
    nested, raises [AttributeError]. *)
Theorem unknown_type_is_attribute_error (params : @Config num) s0 comps s fuel
    (center : @Point num) id p :
  parse_components tape params s0 = (Ok comps, s) ->
  lookup id (element_defs params) = Some p ->
  known_type (p_type p) = false ->
  lookup id comps = Some None /\
  draw_top tape fuel params comps id s = (Raise AttributeError, s) /\
  draw_component tape (S fuel) params center id s0 = (Raise AttributeError, s).
Proof.
  intros H L K. pose proof H as H'.
  apply parse_components_built in H' as (_ & HF & _).
  pose proof (lookup_mirrors (element_defs params) comps id HF) as Lc.
  rewrite L in Lc. destruct Lc as (c & Lc & Hb).
  assert (c = None) as ->.
  { destruct c as [c |]; [| reflexivity]. exfalso.
    destruct c; simpl in Hb; destruct Hb as (T & _); rewrite T in K;
      discriminate K. }
  split; [exact Lc |]. split.
  - unfold draw_top, bind, find_component. now rewrite Lc.
  - simpl. unfold bind, find_component. now rewrite H, Lc.
Qed.

End RegistryUse.

(** ** Draws that go through *)

Section Progress.

Context {num : Type} {ops : FloatOps num}.
Variable tape : nat -> nat.

Lemma bind_progress {A B} (m : M A) (f : A -> M B) s :
  (exists a s1, m s = (Ok a, s1) /\ exists b s', f a s1 = (Ok b, s')) ->
  exists b s', bind m f s = (Ok b, s').
Proof.
  intros (a & s1 & Hm & b & s' & Hf). exists b, s'. unfold bind. now rewrite Hm.
Qed.

Lemma styled_progress (st : @Style num) {B} (k : string -> num -> M B) s :
  fill_options st <> [] -> opacity_options st <> [] ->
  (forall f o, exists b s', k f o (S (S s)) = (Ok b, s')) ->
  exists b s',
    (fill <- random_choice tape (fill_options st) ;;
     opacity <- random_choice tape (opacity_options st) ;; k fill opacity) s
    = (Ok b, s').
Proof.
  intros Hf Ho Hk.
  destruct (random_choice_nonempty tape s Hf) as (f & Ef & _).
  destruct (random_choice_nonempty tape (S s) Ho) as (o & Eo & _).
  destruct (Hk f o) as (b & s' & E). exists b, s'.
  unfold bind. now rewrite Ef, Eo.
Qed.

Lemma vertex_loop_progress (K : @Point num -> M (@Node num)) (pts : list (@Point num))
    k a es s :
  a + k <= List.length pts ->
  (forall v s, exists child s', K v s = (Ok child, s')) ->
  exists n s',
    for_each (seq a k)
      (fun i g => v <- getitem pts i ;; child <- K v ;; ret (add g child))
      (Group es) s = (Ok n, s').
Proof.
  revert a es s. induction k as [| k IH]; intros a es s Hlen HK; simpl.
  - eexists. eexists. reflexivity.
  - destruct (nth_error pts a) as [v |] eqn:Ev;
      [| apply nth_error_None in Ev; lia].
    destruct (HK v s) as (child & s1 & Ec).
    destruct (IH (S a) (es ++ [child]) s1 ltac:(lia) HK) as (n & s' & E).
    exists n, s'. unfold bind, getitem, ret. rewrite Ev, Ec. exact E.
Qed.

Lemma draw_progress dc (c : @Component num) (center : @Point num) size rotation s :
  fill_options (style c) <> [] -> opacity_options (style c) <> [] ->
  (forall r v s, In r (calls c) -> exists n s', dc v r s = (Ok n, s')) ->
  exists n s', draw tape dc c center size rotation s = (Ok n, s').
Proof.
  intros Hf Ho Hdc.
  destruct c as [id st | id st | id st | id st vc ce | id st vc ve ce]; simpl in *.
  - apply styled_progress; auto. intros. eexists. eexists. reflexivity.
  - unfold Rect_draw. destruct center.
    apply styled_progress; auto. intros. eexists. eexists. reflexivity.
  - apply styled_progress; auto. intros. eexists. eexists. reflexivity.
  - apply styled_progress; auto. intros f o.
    destruct ce as [c |]; [| eexists; eexists; reflexivity].
    destruct (Hdc c center (S (S s))) as (n & s' & E); [now left |].
    eexists. eexists. unfold bind. rewrite E. reflexivity.
  - apply styled_progress; auto. intros f o.
    assert (Hc : exists g s1,
               match ce with
               | Some c0 =>
                   center_component <- dc center c0 ;;
                   ret (add (add (Group []) (dwg_polygon (polygon_points vc center size) f o))
                            center_component)
               | None => ret (add (Group []) (dwg_polygon (polygon_points vc center size) f o))
               end (S (S s)) = (Ok g, s1) /\ exists es, g = Group es).
    { destruct ce as [c |].
      - destruct (Hdc c center (S (S s))) as (n & s' & E); [now left |].
        eexists. eexists. unfold bind. rewrite E. split; [reflexivity |].
        simpl. eauto.
      - eexists. eexists. split; [reflexivity |]. simpl. eauto. }
    destruct Hc as (g & s1 & Eg & es & ->).
    apply bind_progress. exists (Group es), s1. split; [exact Eg |].
    destruct ve as [v |]; [| eexists; eexists; reflexivity].
    destruct (String.eqb v "circle") eqn:Ev.
    + apply vertex_loop_progress.
      * rewrite polygon_points_length. simpl. lia.
      * intros p s2. apply Hdc. apply in_app_iff. right. now left.
    + destruct (String.eqb v "polygon"); [| eexists; eexists; reflexivity].
      apply vertex_loop_progress.
      * rewrite polygon_points_length. simpl. lia.
      * intros p s2. unfold draw_child_polygon.
        apply styled_progress; auto. intros. eexists. eexists. reflexivity.
Qed.

Lemma lookup_In {A} id (d : list (string * A)) v :
  lookup id d = Some v -> exists k, In (k, v) d /\ k = id.
Proof.
  induction d as [| [k a] d IH]; simpl; [discriminate |].
  destruct (String.eqb_spec id k) as [-> | _].
  - intros H. injection H as ->. exists k. auto.
  - intros H. destruct (IH H) as (k' & Hin & E). exists k'. auto.
Qed.

Lemma no_broken_entry (defs : list (string * @Params num)) :
  Forall (fun d => construction_error (snd d) = None) defs ->
  first_construction_error defs = None.
Proof.
  induction 1 as [| [k p] defs Hv _ IH]; simpl; [reflexivity |].
  simpl in Hv. now rewrite Hv.
Qed.

Lemma valid_config_builds (params : @Config num) :
  valid_config params -> first_construction_error (element_defs params) = None.
Proof.
  intros Hv. apply no_broken_entry. unfold valid_config in Hv.
  eapply Forall_impl; [| exact Hv]. intros d (_ & H & _). exact H.
Qed.

Lemma built_from_style (p : @Params num) c :
  built_from p (Some c) -> style c = p_style p.
Proof.
  destruct c; simpl; intros H; decompose [and] H; assumption.
Qed.

Lemma built_from_known (p : @Params num) :
  known_type (p_type p) = true -> ~ built_from p None.
Proof. simpl. intros -> H. discriminate H. Qed.

Lemma valid_lookup (params : @Config num) comps id p :
  valid_config params ->
  Forall2 mirrors (element_defs params) comps ->
  lookup id (element_defs params) = Some p ->
  valid_entry (element_defs params) p /\
  exists c, lookup id comps = Some (Some c) /\ style c = p_style p.
Proof.
  intros Hv HF L.
  assert (Hp : valid_entry (element_defs params) p).
  { apply lookup_In in L as (k & Hin & _).
    unfold valid_config in Hv. rewrite Forall_forall in Hv.
    apply (Hv (k, p) Hin). }
  split; [exact Hp |].
  pose proof (lookup_mirrors (element_defs params) comps id HF) as Lc.
  rewrite L in Lc. destruct Lc as ([c |] & Lc & Hb).
  - exists c. split; [exact Lc | now apply built_from_style].
  - destruct Hp as (K & _). now apply built_from_known in Hb.
Qed.

Lemma draw_component_progress (params : @Config num) rank fuel :
  acyclic params rank -> valid_config params ->
  forall id (center : @Point num) s,
    lookup id (element_defs params) <> None ->
    rank id < fuel ->
    exists n s', draw_component tape fuel params center id s = (Ok n, s').
Proof.
  intros Hac Hv. induction fuel as [| fuel IH]; intros id center s Hid Hr; [lia |].
  destruct (lookup id (element_defs params)) as [p |] eqn:L; [| congruence].
  destruct (parse_components_builds tape params s (valid_config_builds params Hv))
    as (comps & Hp & HF).
  destruct (valid_lookup params comps id p Hv HF L)
    as ((_ & _ & Hf & Ho & Hs & Hrot & Hrefs) & c & Lc & Est).
  erewrite draw_component_found; [| exact Hp | exact Lc].
  rewrite Est.
  destruct (random_choice_nonempty tape (total_draws (element_defs params) + s) Hs)
    as (size & Es & _).
  destruct (random_choice_nonempty tape (S (total_draws (element_defs params) + s)) Hrot)
    as (rot & Er & _).
  unfold bind. rewrite Es, Er.
  apply draw_progress; try (rewrite Est; assumption).
  intros r v s2 Hin.
  assert (Hrp : In r (refs p)).
  { unfold parse_components in Hp.
    destruct (build_components_lookup tape _ _ id Hp Lc) as (p' & L' & Hincl).
    rewrite L in L'. injection L' as <-. now apply Hincl. }
  apply IH; [now apply Hrefs |].
  specialize (Hac id p r L Hrp). lia.
Qed.

End Progress.

Section Runs.

Context {num : Type} {ops : FloatOps num}.
Variable tape : nat -> nat.

Lemma registry_calls (params : @Config num) s comps s' id c r :
  parse_components tape params s = (Ok comps, s') ->
  lookup id comps = Some (Some c) -> In r (calls c) ->
  exists p, lookup id (element_defs params) = Some p /\ In r (refs p).
Proof.
  unfold parse_components. intros Hp Lc Hin.
  destruct (build_components_lookup tape _ _ id Hp Lc) as (p & L & Hincl).
  exists p. split; [exact L | now apply Hincl].
Qed.

Lemma draw_top_progress (params : @Config num) rank fuel s0 comps s1 id s :
  acyclic params rank -> valid_config params ->
  parse_components tape params s0 = (Ok comps, s1) ->
  lookup id (element_defs params) <> None ->
  rank id <= fuel ->
  exists n s', draw_top tape fuel params comps id s = (Ok n, s').
Proof.
  intros Hac Hv Hp Hid Hr.
  destruct (parse_components_built tape params s0 comps s1 Hp) as (_ & HF & _).
  destruct (lookup id (element_defs params)) as [p |] eqn:L; [| congruence].
  destruct (valid_lookup params comps id p Hv HF L)
    as ((_ & _ & Hf & Ho & Hs & Hrot & Hrefs) & c & Lc & Est).
  erewrite draw_top_found by exact Lc. rewrite Est.
  destruct (random_choice_nonempty tape s Hs) as (size & Es & _).
  destruct (random_choice_nonempty tape (S s) Hrot) as (rot & Er & _).
  unfold bind. rewrite Es, Er.
  apply draw_progress; try (rewrite Est; assumption).
  intros r v s2 Hin.
  destruct (registry_calls params s0 comps s1 id c r Hp Lc Hin) as (p' & L' & Hrp).
  rewrite L in L'. injection L' as <-.
  eapply draw_component_progress; eauto.
  specialize (Hac id p r L Hrp). lia.
Qed.

Lemma main_loop_progress (params : @Config num) rank fuel s0 comps s1 ids :
  acyclic params rank -> valid_config params ->
  parse_components tape params s0 = (Ok comps, s1) ->
  (forall id, In id ids ->
     lookup id (element_defs params) <> None /\ rank id <= fuel) ->
  forall elems s,
    outcome (main_loop tape fuel params comps ids elems s) = Ok tt /\
    List.length (scene (main_loop tape fuel params comps ids elems s))
    = List.length elems + List.length ids.
Proof.
  intros Hac Hv Hp. induction ids as [| id ids IH]; intros Hin elems s; simpl.
  - split; [reflexivity | lia].
  - destruct (Hin id (or_introl eq_refl)) as [Hid Hr].
    destruct (draw_top_progress params rank fuel s0 comps s1 id s Hac Hv Hp Hid Hr)
      as (n & s2 & E).
    rewrite E.
    destruct (IH (fun i Hi => Hin i (or_intror Hi)) (elems ++ [n]) s2) as [O Ln].
    split; [exact O | rewrite Ln, length_app; simpl; lia].
Qed.

(** X8. On a valid acyclic configuration (every entry of a known type,
    building, with four non-empty option sets, referring only to keys of
    the configuration) no draw raises a configuration error, whatever the
    random draws: with a call stack at least as deep as the rank of the
    requested components, the run of [main] ends with none of
    [IndexError], [KeyError], [AttributeError] and [RecursionError], and
    neither does any nested draw.  (What the drawing library makes of the
    attribute values it is handed is not part of the model.) *)
Theorem valid_acyclic_configuration_draws (params : @Config num) rank fuel s :
  acyclic params rank ->
  valid_config params ->
  (forall id, In id (component_to_draw params) ->
              lookup id (element_defs params) <> None /\ rank id <= fuel) ->
  config_error_free (outcome (main tape fuel params s)) /\
  forall id (center : @Point num) s0,
    lookup id (element_defs params) <> None -> rank id <= fuel ->
    config_error_free (fst (draw_component tape (S fuel) params center id s0)).
Proof.
  intros Hac Hv Hids.
  destruct (parse_components_builds tape params s (valid_config_builds params Hv))
    as (comps & Hp & _).
  destruct (main_loop_progress params rank fuel s comps _
              (component_to_draw params) Hac Hv Hp Hids []
              (total_draws (element_defs params) + s)) as [O _].
  unfold main. rewrite Hp.
  split; [rewrite O; repeat split; intros; discriminate |].
  intros id center s0 Hid Hr.
  destruct (draw_component_progress tape params rank (S fuel) Hac Hv id center s0 Hid
              ltac:(lia)) as (n & s' & ->).
  repeat split; intros; discriminate.
Qed.

(** X9. The vertex elements ["circle"] are looked up under the fixed key
    ["circle"]: in a configuration that builds but has no entry under that
    key, a polygon group with vertex elements ["circle"] and a positive
    vertex count fails with [KeyError] for ["circle"] at its first
    vertex. *)
Theorem circle_vertices_need_a_circle_entry (params : @Config num) fuel id st vc
    (center : @Point num) size rotation s :
  first_construction_error (element_defs params) = None ->
  lookup "circle" (element_defs params) = None ->
  fill_options st <> [] -> opacity_options st <> [] ->
  (0 < vc)%Z ->
  fst (draw tape (draw_component tape (S fuel) params)
            (PolygonGroup id st vc (Some "circle"%string) None)
            center size rotation s)
  = Raise (KeyError "circle").
Proof.
  intros Hb Hl Hf Ho Hvc. simpl. unfold PolygonGroup_draw.
  destruct (random_choice_nonempty tape s Hf) as (f & Ef & _).
  destruct (random_choice_nonempty tape (S s) Ho) as (o & Eo & _).
  erewrite bind_step by exact Ef. erewrite bind_step by exact Eo.
  erewrite bind_step by reflexivity.
  change (String.eqb "circle" "circle") with true. cbv iota.
  destruct (Z.to_nat vc) as [| n] eqn:En; [lia |].
  pose proof (polygon_points_length vc center size) as Len.
  destruct (polygon_points vc center size) as [| v pts] eqn:Ep;
    [simpl in Len; lia |].
  cbn [seq for_each].
  destruct (parse_components_builds tape params (S (S s)) Hb) as (comps & Hp & HF).
  pose proof (lookup_mirrors (element_defs params) comps "circle" HF) as Lc.
  rewrite Hl in Lc.
  assert (E : draw_component tape (S fuel) params v "circle" (S (S s))
              = (Raise (KeyError "circle"), total_draws (element_defs params) + S (S s))).
  { simpl. unfold bind, find_component. now rewrite Hp, Lc. }
  erewrite bind_fail; [reflexivity |].
  erewrite bind_step by reflexivity.
  erewrite bind_fail; [reflexivity | exact E].
Qed.

(** X10. The vertex count is not checked.  With a vertex count of zero
    or less the loop over [range] is empty: the polygon is the single
    translated seed point, a [Polygon] and a [PolygonGroup] draw it
    without error, and the group gets no vertex children and looks nothing
    up, whatever its vertex elements. *)
Theorem degenerate_vertex_count (dc : @Point num -> string -> M (@Node num))
    id st vc ve (center : @Point num) size rotation s :
  (vc <= 0)%Z ->
  fill_options st <> [] -> opacity_options st <> [] ->
  polygon_points vc center size
  = [(fadd (of_int 0) (fst center), fadd (fmul size half) (snd center))] /\
  exists f o,
    In f (fill_options st) /\ In o (opacity_options st) /\
    draw tape dc (Polygon id st vc None) center size rotation s
    = (Ok (turned (polygon_shape vc center size f o) rotation center), S (S s)) /\
    draw tape dc (PolygonGroup id st vc ve None) center size rotation s
    = (Ok (Group [polygon_shape vc center size f o]), S (S s)).
Proof.
  intros Hvc Hf Ho.
  assert (En : Z.to_nat vc = 0) by lia.
  split.
  - unfold polygon_points, local_points. rewrite En. reflexivity.
  - destruct (random_choice_nonempty tape s Hf) as (f & Ef & If).
    destruct (random_choice_nonempty tape (S s) Ho) as (o & Eo & Io).
    exists f, o. repeat (split; [assumption |]).
    simpl. unfold Polygon_draw, PolygonGroup_draw, bind. rewrite Ef, Eo, En.
    split; [reflexivity |].
    destruct ve as [v |]; [| reflexivity].
    destruct (String.eqb v "circle"); [reflexivity |].
    destruct (String.eqb v "polygon"); reflexivity.
Qed.

End Runs.

(** ** The depth of the call stack *)

Section Depth.

Context {num : Type} {ops : FloatOps num}.
Variable tape : nat -> nat.

Lemma bind_mono {A B} (m m' : M A) (f f' : A -> M B) s :
  (fst (m s) <> Raise RecursionError -> m' s = m s) ->
  (forall a s1, m s = (Ok a, s1) ->
     fst (f a s1) <> Raise RecursionError -> f' a s1 = f a s1) ->
  fst (bind m f s) <> Raise RecursionError ->
  bind m' f' s = bind m f s.
Proof.
  unfold bind. intros Hm Hf H. destruct (m s) as [[a | e] s1] eqn:E; simpl in *.
  - rewrite Hm by discriminate. now apply Hf.
  - rewrite Hm; [reflexivity |]. intros C. apply H. now inversion C.
Qed.

Lemma for_each_mono {A B} (xs : list A) (body body' : A -> B -> M B) :
  (forall x acc s, fst (body x acc s) <> Raise RecursionError ->
     body' x acc s = body x acc s) ->
  forall acc s,
    fst (for_each xs body acc s) <> Raise RecursionError ->
    for_each xs body' acc s = for_each xs body acc s.
Proof.
  intros Hb. induction xs as [| x xs IH]; intros acc s H; simpl in *;
    [reflexivity |].
  apply bind_mono; [apply Hb | intros a s1 _; apply IH | exact H].
Qed.

Lemma draw_mono dc dc' (c : @Component num) (center : @Point num) size rotation s :
  (forall r v s, In r (calls c) ->
     fst (dc v r s) <> Raise RecursionError -> dc' v r s = dc v r s) ->
  fst (draw tape dc c center size rotation s) <> Raise RecursionError ->
  draw tape dc' c center size rotation s = draw tape dc c center size rotation s.
Proof.
  intros Hdc.
  destruct c as [id st | id st | id st | id st vc ce | id st vc ve ce]; simpl;
    try reflexivity.
  - unfold Polygon_draw. intros H.
    apply bind_mono; [reflexivity | | exact H]. intros f s1 _ H1.
    apply bind_mono; [reflexivity | | exact H1]. intros o s2 _ H2.
    destruct ce as [c |]; [| reflexivity].
    apply bind_mono; [apply Hdc; now left | reflexivity | exact H2].
  - unfold PolygonGroup_draw. intros H.
    apply bind_mono; [reflexivity | | exact H]. intros f s1 _ H1.
    apply bind_mono; [reflexivity | | exact H1]. intros o s2 _ H2.
    apply bind_mono; [| | exact H2].
    + destruct ce as [c |]; [| reflexivity]. intros H3.
      apply bind_mono; [apply Hdc; simpl; now left | reflexivity | exact H3].
    + intros g s3 _ H3.
      destruct ve as [v |]; [| reflexivity].
      destruct (String.eqb v "circle") eqn:Ev; [| reflexivity].
      apply for_each_mono; [| exact H3].
      intros i acc s4 H4.
      apply bind_mono; [reflexivity | | exact H4]. intros p s5 _ H5.
      apply bind_mono; [| reflexivity | exact H5].
      apply Hdc. simpl. rewrite Ev. apply in_app_iff. right. now left.
Qed.

(** X11. A draw that ends without exhausting the call stack, with a
    node or with an error, gives the same result and leaves the generator
    at the same place under every deeper stack, cyclic configurations
    included. *)
Theorem deeper_stack_same_result (params : @Config num) fuel :
  forall fuel' (center : @Point num) id s,
    fuel <= fuel' ->
    fst (draw_component tape fuel params center id s) <> Raise RecursionError ->
    draw_component tape fuel' params center id s
    = draw_component tape fuel params center id s.
Proof.
  induction fuel as [| fuel IH]; intros fuel' center id s Hle H;
    [now elim H |].
  destruct fuel' as [| fuel']; [lia |].
  cbn [draw_component] in *.
  apply bind_mono; [reflexivity | | exact H]. intros comps s1 _ H1.
  apply bind_mono; [reflexivity | | exact H1]. intros c s2 _ H2.
  apply bind_mono; [reflexivity | | exact H2]. intros size s3 _ H3.
  apply bind_mono; [reflexivity | | exact H3]. intros rot s4 _ H4.
  apply draw_mono; [| exact H4].
  intros r v s5 _ H5. apply IH; [lia | exact H5].
Qed.

End Depth.

(** ** What every shape of a drawing satisfies *)

Section Shapes.

Context {num : Type} {ops : FloatOps num}.
Variable tape : nat -> nat.

Lemma shape_from_turned (defs : list (string * @Params num)) key p g f o rotation
    (center : @Point num) :
  In (key, p) defs ->
  In f (fill_options (p_style p)) -> In o (opacity_options (p_style p)) ->
  Forall (shape_from defs) (shapes (turned (Shape g f o []) rotation center)).
Proof.
  intros Hin Hf Ho.
  assert (E : shapes (turned (Shape g f o []) rotation center)
              = [turned (Shape g f o []) rotation center])
    by (unfold turned; destruct (nonzero rotation); reflexivity).
  rewrite E. constructor; [| constructor].
  split.
  - rewrite transform_turned. destruct (nonzero rotation); simpl; lia.
  - destruct (fill_turned g f o [] rotation center) as [Ef Eo].
    exists key, p, f, o. auto.
Qed.

Lemma shape_from_plain (defs : list (string * @Params num)) key p g f o :
  In (key, p) defs ->
  In f (fill_options (p_style p)) -> In o (opacity_options (p_style p)) ->
  Forall (shape_from defs) (shapes (Shape g f o [])).
Proof.
  intros Hin Hf Ho. constructor; [| constructor].
  split; [simpl; lia |]. exists key, p, f, o. simpl. auto.
Qed.

Lemma chained_Forall {A B} (R : A -> nat -> B -> nat -> Prop) (P : B -> Prop)
    xs ys s s' :
  (forall x s y s', R x s y s' -> P y) ->
  chained R xs ys s s' -> Forall P ys.
Proof.
  intros HR. revert ys s. induction xs as [| x xs IH]; intros [| y ys] s H;
    simpl in H; try contradiction; [constructor |].
  destruct H as (s1 & Hx & H). constructor; [eapply HR, Hx | eapply IH, H].
Qed.

Lemma Forall_flat_map_shapes (P : @Node num -> Prop) (l : list (@Node num)) :
  Forall (fun k => Forall P (shapes k)) l -> Forall P (flat_map shapes l).
Proof.
  induction 1 as [| k l Hk _ IH]; simpl; [constructor |].
  apply Forall_app. split; assumption.
Qed.

Lemma draw_shapes (defs : list (string * @Params num)) dc (c : @Component num)
    key p (center : @Point num) size rotation s n s' :
  In (key, p) defs -> style c = p_style p ->
  (forall r v s n s', In r (calls c) -> dc v r s = (Ok n, s') ->
     Forall (shape_from defs) (shapes n)) ->
  draw tape dc c center size rotation s = (Ok n, s') ->
  Forall (shape_from defs) (shapes n).
Proof.
  intros Hin Est Hdc H.
  destruct c as [id st | id st | id st | id st vc ce | id st vc ve ce];
    simpl in Est, H, Hdc; subst st.
  - apply Circle_draw_ok in H as (f & o & Hf & Ho & _ & ->).
    apply random_choice_ok in Hf as (If & _). apply random_choice_ok in Ho as (Io & _).
    eapply shape_from_plain; eassumption.
  - apply Rect_draw_ok in H as (f & o & Hf & Ho & _ & ->).
    apply random_choice_ok in Hf as (If & _). apply random_choice_ok in Ho as (Io & _).
    eapply shape_from_turned; eassumption.
  - apply Ellipse_draw_ok in H as (f & o & Hf & Ho & _ & ->).
    apply random_choice_ok in Hf as (If & _). apply random_choice_ok in Ho as (Io & _).
    eapply shape_from_turned; eassumption.
  - apply Polygon_draw_ok in H as (f & o & _ & _ & If & Io & H).
    pose proof (shape_from_turned defs key p (GPolygon (polygon_points vc center size))
                  f o rotation center Hin If Io) as Hp.
    destruct ce as [c |].
    + destruct H as (cc & Hcc & ->). simpl. rewrite app_nil_r.
      apply Forall_app. split; [exact Hp |].
      eapply Hdc; [now left | exact Hcc].
    + destruct H as [-> _]. exact Hp.
  - apply PolygonGroup_draw_ok in H
      as (f & o & part & kids & s1 & Hf & Ho & -> & Hpart & Hk).
    apply random_choice_ok in Hf as (If & _). apply random_choice_ok in Ho as (Io & _).
    cbn [shapes flat_map]. apply Forall_app. split.
    + apply (shape_from_plain defs key p _ f o Hin If Io).
    + rewrite flat_map_app. apply Forall_app. split.
      * apply Forall_flat_map_shapes.
        unfold center_part in Hpart. destruct ce as [c |].
        -- destruct Hpart as (cc & Hcc & ->). constructor; [| constructor].
           eapply Hdc; [simpl; now left | exact Hcc].
        -- destruct Hpart as [-> _]. constructor.
      * apply Forall_flat_map_shapes.
        destruct ve as [v |]; [| destruct Hk as [-> _]; constructor].
        destruct (String.eqb v "circle") eqn:Ev.
        -- eapply chained_Forall; [| exact Hk].
           intros x s2 y s3 Hy. eapply Hdc; [| exact Hy].
           simpl. apply in_app_iff. right. now left.
        -- destruct (String.eqb v "polygon");
             [| destruct Hk as [-> _]; constructor].
           eapply chained_Forall; [| exact Hk].
           intros x s2 y s3 Hy.
           apply draw_child_polygon_ok in Hy as (f' & o' & Hf' & Ho' & _ & ->).
           apply random_choice_ok in Hf' as (If' & _).
           apply random_choice_ok in Ho' as (Io' & _).
           eapply shape_from_turned; eassumption.
Qed.

Lemma registry_entry (params : @Config num) s comps s' id c :
  parse_components tape params s = (Ok comps, s') ->
  lookup id comps = Some (Some c) ->
  exists key p, In (key, p) (element_defs params) /\ style c = p_style p.
Proof.
  intros Hp Lc.
  destruct (parse_components_built tape params s comps s' Hp) as (_ & HF & _).
  pose proof (lookup_mirrors (element_defs params) comps id HF) as L.
  destruct (lookup id (element_defs params)) as [p |] eqn:Ld.
  - destruct L as (c' & Lc' & Hb). rewrite Lc in Lc'. injection Lc' as <-.
    apply lookup_In in Ld as (k & Hin & _).
    exists k, p. split; [exact Hin | now apply built_from_style].
  - rewrite L in Lc. discriminate Lc.
Qed.

Lemma draw_component_shapes (params : @Config num) fuel :
  forall (center : @Point num) id s n s',
    draw_component tape fuel params center id s = (Ok n, s') ->
    Forall (shape_from (element_defs params)) (shapes n).
Proof.
  induction fuel as [| fuel IH]; intros center id s n s' H; [discriminate H |].
  apply draw_component_ok in H
    as (fuel' & comps & c & size & rot & s1 & E & Hp & Lc & _ & _ & _ & _ & H).
  injection E as <-.
  destruct (registry_entry params s comps s1 id c Hp Lc) as (key & p & Hin & Est).
  eapply draw_shapes; [exact Hin | exact Est | | exact H].
  intros r v s2 n2 s2' _ Hn. eapply IH, Hn.
Qed.

Lemma main_scene_shapes (params : @Config num) fuel s n :
  In n (scene (main tape fuel params s)) ->
  Forall (shape_from (element_defs params)) (shapes n).
Proof.
  unfold main.
  destruct (parse_components tape params s) as [[comps | e] s0] eqn:Hp;
    [| intros []].
  destruct (main_loop_scene tape fuel params comps (component_to_draw params) [] s0)
    as (done & new & s1 & -> & Hc & _).
  simpl. intros Hn.
  assert (HF : Forall (fun k => Forall (shape_from (element_defs params)) (shapes k)) new).
  { eapply chained_Forall; [| exact Hc].
    intros id s2 y s3 (c & size & rot & Lc & _ & _ & _ & _ & Hd).
    destruct (registry_entry params s comps s0 id c Hp Lc) as (key & p & Hin & Est).
    eapply draw_shapes; [exact Hin | exact Est | | exact Hd].
    intros r v s4 n4 s4' _ H4. eapply draw_component_shapes, H4. }
  rewrite Forall_forall in HF. now apply HF.
Qed.

(** X12. No shape of a drawing is turned twice: every shape in the nodes
    [main] puts into the scene, and in the node of any nested draw, at any
    depth of the composition, carries at most one rotation. *)
Theorem shapes_turn_at_most_once (params : @Config num) fuel :
  (forall s n sh,
     In n (scene (main tape fuel params s)) -> In sh (shapes n) ->
     List.length (transform sh) <= 1) /\
  (forall (center : @Point num) id s n s' sh,
     draw_component tape fuel params center id s = (Ok n, s') ->
     In sh (shapes n) ->
     List.length (transform sh) <= 1).
Proof.
  split.
  - intros s n sh Hn Hsh. pose proof (main_scene_shapes params fuel s n Hn) as F.
    rewrite Forall_forall in F. apply (F sh Hsh).
  - intros center id s n s' sh H Hsh.
    pose proof (draw_component_shapes params fuel center id s n s' H) as F.
    rewrite Forall_forall in F. apply (F sh Hsh).
Qed.

(** X13. Fills and opacities are never invented: every shape of the
    scene of [main], and of the node of any nested draw, has a fill and an
    opacity taken from the fill and opacity options of one and the same
    entry of [element_defs]. *)
Theorem fills_come_from_the_configuration (params : @Config num) fuel :
  (forall s n sh,
     In n (scene (main tape fuel params s)) -> In sh (shapes n) ->
     exists key p f o,
       In (key, p) (element_defs params) /\
       fill sh = Some f /\ In f (fill_options (p_style p)) /\
       opacity sh = Some o /\ In o (opacity_options (p_style p))) /\
  (forall (center : @Point num) id s n s' sh,
     draw_component tape fuel params center id s = (Ok n, s') ->
     In sh (shapes n) ->
     exists key p f o,
       In (key, p) (element_defs params) /\
       fill sh = Some f /\ In f (fill_options (p_style p)) /\
       opacity sh = Some o /\ In o (opacity_options (p_style p))).
Proof.
  split.
  - intros s n sh Hn Hsh. pose proof (main_scene_shapes params fuel s n Hn) as F.
    rewrite Forall_forall in F. apply (F sh Hsh).
  - intros center id s n s' sh H Hsh.
    pose proof (draw_component_shapes params fuel center id s n s' H) as F.
    rewrite Forall_forall in F. apply (F sh Hsh).
Qed.

End Shapes.

(** ** The entry point *)

Section Entry.

Context {num : Type} {ops : FloatOps num}.
Variable tape : nat -> nat.
Variable int : string -> option Z.

(** X14. [main] from its first line: the registry is built before the
    canvas size is read.  A broken entry ends the run with its error
    whatever the canvas text, nothing drawn; with a registry that builds, a
    canvas text that does not parse ends the run with the [ValueError],
    nothing drawn, after the random draws of the build; and when the text
    parses the run is the run of the scene assembler on the parsed
    width and height. *)
Theorem main_yaml_order fuel (y : @Yaml num) s :
  (forall e,
     first_construction_error (y_element_defs y) = Some e ->
     y_outcome (main_yaml tape int fuel y s) = inl (EngineError e) /\
     y_scene (main_yaml tape int fuel y s) = []) /\
  (forall v,
     first_construction_error (y_element_defs y) = None ->
     parse_canvas_size int (y_canvas_size y) = inl v ->
     main_yaml tape int fuel y s
     = mkYamlRun (inl (CanvasError v)) [] (total_draws (y_element_defs y) + s)) /\
  (forall wh,
     parse_canvas_size int (y_canvas_size y) = inr wh ->
     main_yaml tape int fuel y s = of_run (main tape fuel (with_canvas y wh) s)).
Proof.
  unfold main_yaml, main, parse_components.
  pose proof (build_components_spec tape (y_element_defs y) s) as B.
  split; [| split].
  - intros e E. rewrite E in B. destruct B as (s' & ->). auto.
  - intros v E Hv. rewrite E in B. destruct B as (comps & -> & _).
    now rewrite Hv.
  - intros wh Hwh. simpl.
    destruct (build_components tape (y_element_defs y) s) as [[comps | e] s'];
      [now rewrite Hwh | reflexivity].
Qed.

End Entry.

(** * The rest of the program on the sample configurations *)

Import More.
Local Close Scope R_scope.

Lemma parse_canvas_size_witness :
  parse_canvas_size digits_int "200x200" = inr (200%Z, 200%Z).
Proof.
  apply (proj2 (parse_canvas_size_ok digits_int "200x200" 200 200)).
  exists "200"%string, "200"%string. repeat split; reflexivity.
Defined.

Lemma parse_canvas_size_errors_witness :
  count "x" "200" = 0 /\
  parse_canvas_size digits_int "200" = inl (NotEnoughValues 1) /\
  parse_canvas_size digits_int "200xtwo" = inl (InvalidLiteral "two").
Proof.
  assert (H0 : count "x" "200" = 0) by reflexivity.
  split; [exact H0 |]. split.
  - exact (proj1 (proj1 (parse_canvas_size_errors digits_int "200")) H0).
  - exact (proj2 (proj2 (proj2 (parse_canvas_size_errors digits_int "200xtwo"))
                    "200"%string "two"%string eq_refl eq_refl eq_refl)
                 ltac:(discriminate) eq_refl).
Defined.

Lemma registry_mirrors_witness :
  parse_components tape0 scene_cfg 0 = (Ok scene_registry, 8) /\
  map fst scene_registry = map fst (element_defs scene_cfg) /\
  (forall id, lookup id scene_registry = None
              <-> lookup id (element_defs scene_cfg) = None) /\
  8 = total_draws (element_defs scene_cfg) + 0.
Proof.
  split; [exact (sample_registry 0) |].
  destruct (registry_mirrors_definitions tape0 scene_cfg 0 scene_registry 8
              (sample_registry 0)) as (K & _ & L & D).
  auto.
Defined.

Lemma registry_build_witness :
  parse_components tape0 scene_cfg 0 = (Ok scene_registry, 8) /\
  exists comps',
    parse_components tape1 scene_cfg 5
    = (Ok comps', total_draws (element_defs scene_cfg) + 5).
Proof.
  split; [exact (sample_registry 0) |].
  exact (proj1 (registry_build_is_static scene_cfg tape0 0 tape1 5)
               scene_registry 8 (sample_registry 0)).
Defined.

Lemma broken_entry_witness :
  first_construction_error (element_defs halfdone_cfg)
  = Some (KeyError "vertex_count") /\
  outcome (main tape0 1 halfdone_cfg 0) = Raise (KeyError "vertex_count") /\
  scene (main tape0 1 halfdone_cfg 0) = [] /\
  fst (draw_component tape0 2 halfdone_cfg ((0, 0)%R : R * R) "circle" 0)
  = Raise (KeyError "vertex_count").
Proof.
  assert (E : first_construction_error (element_defs halfdone_cfg)
              = Some (KeyError "vertex_count")) by reflexivity.
  split; [exact E |].
  exact (broken_entry_stops_everything tape0 halfdone_cfg _ 1 (0, 0)%R "circle" 0 E).
Defined.

Lemma unknown_id_witness :
  parse_components tape0 scene_cfg 0 = (Ok scene_registry, 8) /\
  lookup "ghost" (element_defs scene_cfg) = None /\
  draw_top tape0 1 scene_cfg scene_registry "ghost" 8 = (Raise (KeyError "ghost"), 8) /\
  draw_component tape0 2 scene_cfg ((0, 0)%R : R * R) "ghost" 0
  = (Raise (KeyError "ghost"), 8).
Proof.
  assert (L : lookup "ghost" (element_defs scene_cfg) = None) by reflexivity.
  split; [exact (sample_registry 0) |]. split; [exact L |].
  exact (unknown_id_is_key_error tape0 scene_cfg 0 scene_registry 8 1 (0, 0)%R
           "ghost" (sample_registry 0) L).
Defined.

Lemma star_registry :
  parse_components tape0 star_cfg 0
  = (Ok [("circle"%string, Some circle_inst); ("star"%string, None)], 0).
Proof. reflexivity. Qed.

Lemma unknown_type_witness :
  lookup "star" (element_defs star_cfg) = Some star_def /\
  known_type (p_type star_def) = false /\
  draw_top tape0 1 star_cfg
           [("circle"%string, Some circle_inst); ("star"%string, None)] "star" 0
  = (Raise AttributeError, 0) /\
  draw_component tape0 2 star_cfg ((0, 0)%R : R * R) "star" 0
  = (Raise AttributeError, 0).
Proof.
  assert (L : lookup "star" (element_defs star_cfg) = Some star_def) by reflexivity.
  assert (K : known_type (p_type star_def) = false) by reflexivity.
  split; [exact L |]. split; [exact K |].
  exact (proj2 (unknown_type_is_attribute_error tape0 star_cfg 0 _ 0 1 (0, 0)%R
                  "star" star_def star_registry L K)).
Defined.

Lemma scene_cfg_valid : valid_config scene_cfg.
Proof.
  unfold valid_config, scene_cfg, element_defs.
  repeat constructor; try reflexivity; try discriminate;
    cbv [snd refs p_type p_center_elements p_vertex_elements circle_def square_def
         tri_def ring_def fan_def some_ids flat_map existsb String.eqb Ascii.eqb
         Bool.eqb app];
    intros r Hr; repeat destruct Hr as [<- | Hr]; try contradiction; discriminate.
Qed.

Lemma valid_configuration_witness :
  acyclic scene_cfg scene_rank /\ valid_config scene_cfg /\
  config_error_free (outcome (main tape0 1 scene_cfg 0)) /\
  config_error_free
    (fst (draw_component tape0 2 scene_cfg ((100, 100)%R : R * R) "ring" 0)).
Proof.
  assert (Hids : forall id, In id (component_to_draw scene_cfg) ->
                   lookup id (element_defs scene_cfg) <> None /\ scene_rank id <= 1).
  { intros id Hin. simpl in Hin.
    destruct Hin as [<- | [<- | []]]; split; try discriminate; cbv; lia. }
  split; [exact scene_cfg_acyclic |]. split; [exact scene_cfg_valid |].
  destruct (valid_acyclic_configuration_draws tape0 scene_cfg scene_rank 1 0
              scene_cfg_acyclic scene_cfg_valid Hids) as (O & N).
  split; [exact O |].
  apply (N "ring"%string (100, 100)%R 0); [discriminate | cbv; lia].
Defined.

Lemma circle_entry_witness :
  first_construction_error (element_defs still_cfg) = None /\
  lookup "circle" (element_defs still_cfg) = None /\
  fst (draw tape0 (draw_component tape0 1 still_cfg)
            (PolygonGroup "ring" two_fills 4 (Some "circle"%string) None)
            ((50, 50)%R : R * R) 40%R 0%R 0)
  = Raise (KeyError "circle").
Proof.
  assert (B : first_construction_error (element_defs still_cfg) = None)
    by reflexivity.
  assert (L : lookup "circle" (element_defs still_cfg) = None) by reflexivity.
  split; [exact B |]. split; [exact L |].
  exact (circle_vertices_need_a_circle_entry tape0 still_cfg 0 "ring" two_fills 4
           (50, 50)%R 40%R 0%R 0 B L ltac:(discriminate) ltac:(discriminate)
           ltac:(lia)).
Defined.

Lemma degenerate_vertex_count_witness :
  (0 <= 0)%Z /\
  polygon_points 0 ((50, 50)%R : R * R) 40%R = [(0 + 50, 40 * (5 / 10) + 50)%R].
Proof.
  split; [lia |].
  exact (proj1 (degenerate_vertex_count tape0 (draw_component tape0 0 scene_cfg)
                  "tri" red_style 0 None (50, 50)%R 40%R 0%R 0
                  ltac:(lia) ltac:(discriminate) ltac:(discriminate))).
Defined.

Lemma deeper_stack_witness :
  fst (draw_component tape0 2 scene_cfg ((100, 100)%R : R * R) "tri" 0)
  <> Raise RecursionError /\
  draw_component tape0 1000 scene_cfg ((100, 100)%R : R * R) "tri" 0
  = draw_component tape0 2 scene_cfg (100, 100)%R "tri" 0.
Proof.
  assert (H : fst (draw_component tape0 2 scene_cfg ((100, 100)%R : R * R) "tri" 0)
              <> Raise RecursionError) by (evaluate; discriminate).
  split; [exact H |].
  exact (deeper_stack_same_result tape0 scene_cfg 2 1000 (100, 100)%R "tri" 0
           ltac:(lia) H).
Defined.

Lemma shapes_witness :
  exists n s' sh,
    draw_component tape0 2 scene_cfg ((100, 100)%R : R * R) "tri" 0 = (Ok n, s') /\
    In sh (shapes n) /\
    List.length (transform sh) <= 1.
Proof.
  destruct (draw_component tape0 2 scene_cfg ((100, 100)%R : R * R) "tri" 0)
    as [[n | e] s'] eqn:E; [| exfalso; evaluate_in E; discriminate E].
  assert (Hs : exists sh, In sh (shapes n)).
  { evaluate_in E. injection E as <- _.
    destruct (Req_dec_T 0 0); evaluate; eexists; left; reflexivity. }
  destruct Hs as (sh & Hs).
  exists n, s', sh. split; [reflexivity |]. split; [exact Hs |].
  exact (proj2 (shapes_turn_at_most_once tape0 scene_cfg 2)
               (100, 100)%R "tri"%string 0 n s' sh E Hs).
Defined.

Lemma fills_witness :
  exists n s' sh,
    draw_component tape0 2 scene_cfg ((100, 100)%R : R * R) "tri" 0 = (Ok n, s') /\
    In sh (shapes n) /\
    exists key p f o,
      In (key, p) (element_defs scene_cfg) /\
      fill sh = Some f /\ In f (fill_options (p_style p)) /\
      opacity sh = Some o /\ In o (opacity_options (p_style p)).
Proof.
  destruct (draw_component tape0 2 scene_cfg ((100, 100)%R : R * R) "tri" 0)
    as [[n | e] s'] eqn:E; [| exfalso; evaluate_in E; discriminate E].
  assert (Hs : exists sh, In sh (shapes n)).
  { evaluate_in E. injection E as <- _.
    destruct (Req_dec_T 0 0); evaluate; eexists; left; reflexivity. }
  destruct Hs as (sh & Hs).
  exists n, s', sh. split; [reflexivity |]. split; [exact Hs |].
  exact (proj2 (fills_come_from_the_configuration tape0 scene_cfg 2)
               (100, 100)%R "tri"%string 0 n s' sh E Hs).
Defined.

Lemma main_yaml_witness :
  parse_canvas_size digits_int (y_canvas_size scene_yaml) = inr (200%Z, 200%Z) /\
  main_yaml tape0 digits_int 1 scene_yaml 0
  = of_run (main tape0 1 (with_canvas scene_yaml (200%Z, 200%Z)) 0).
Proof.
  assert (H : parse_canvas_size digits_int (y_canvas_size scene_yaml)
              = inr (200%Z, 200%Z)) by reflexivity.
  split; [exact H |].
  exact (proj2 (proj2 (main_yaml_order tape0 digits_int 1 scene_yaml 0)) _ H).
Defined.
